(** * astro-seo-checker: the integration entry point ([index.js])

    A shallow embedding of the orchestration code of the Astro SEO checker:
    the shared registries (JavaScript [Map]s of [Set]s), the phase
    catalogue configuration, the [astro:build:done] hook and
    [generateReport] with its console summary. The phase modules and the
    report formatters that [index.js] imports are taken as parameters. *)

From Stdlib Require Import ZArith QArith List Lia Ascii.
From Stdlib Require Import DecimalString DecimalNat.
From stdpp Require Import base tactics option list strings sorting gmap.

(** * The integration and the libraries it calls *)

(** ** JavaScript containers

    A JavaScript [Set] iterates in insertion order and holds every value at
    most once; a [Map] iterates its entries in the order in which their
    keys were first set, and [set] on a present key replaces the value in
    place. Both are embedded as lists in insertion order. *)
Module JsSet.

Section JsSet.

Context {A : Type} `{EqDecision A}.

(** [new Set()] *)
Definition empty : list A := [].

(** [s.has(x)] *)
Definition has (s : list A) (x : A) : bool := bool_decide (x ∈ s).

(** [s.add(x)] *)
Definition add (s : list A) (x : A) : list A :=
  if has s x then s else s ++ [x].

(** [s.size] *)
Definition size (s : list A) : nat := length s.

End JsSet.

End JsSet.

Module JsMap.

Section JsMap.

Context {K V : Type} `{EqDecision K}.

(** [new Map()] *)
Definition empty : list (K * V) := [].

(** [m.get(k)], with [None] for [undefined] *)
Fixpoint get (m : list (K * V)) (k : K) : option V :=
  match m with
  | [] => None
  | (k', v) :: m' => if decide (k = k') then Some v else get m' k
  end.

(** [m.has(k)] *)
Definition has (m : list (K * V)) (k : K) : bool :=
  match get m k with Some _ => true | None => false end.

(** [m.set(k, v)]: a present key keeps its place, a new one goes last. *)
Fixpoint set (m : list (K * V)) (k : K) (v : V) : list (K * V) :=
  match m with
  | [] => [(k, v)]
  | (k', v') :: m' =>
      if decide (k = k') then (k, v) :: m' else (k', v') :: set m' k v
  end.

(** [m.size] *)
Definition size (m : list (K * V)) : nat := length m.

(** [[...m.keys()]] *)
Definition keys (m : list (K * V)) : list K := m.*1.

End JsMap.

End JsMap.

(** ** The shared registries

    [brokenLinksMap] is a [Map] from a broken link to the [Set] of the
    documents that reference it; [seoIssuesMap] is a [Map] from a category
    to a [Map] from an issue to the [Set] of affected documents. Both are
    created empty by [astroBrokenLinksChecker] and handed to every
    document analysis. *)
Module Registry.

Abbreviation BrokenLinks := (list (string * list string)) (only parsing).

Abbreviation Issues := (list (string * list string)) (only parsing).

Abbreviation SeoIssues := (list (string * list (string * list string))) (only parsing).

(** [const brokenLinksMap = new Map()] *)
Definition newBrokenLinks : BrokenLinks := JsMap.empty.

(** [const seoIssuesMap = new Map()] *)
Definition newSeoIssues : SeoIssues := JsMap.empty.

(** Modelled from the spec: the code that records a broken link (the
    link check of the Foundation phase under [src/phases]), which
    [index.js] only hands [brokenLinksMap] to. The specification gives the
    step as "look up key, if absent create empty value, add to value's
    set". *)
Definition addBrokenLink (reg : BrokenLinks) (link doc : string) : BrokenLinks :=
  match JsMap.get reg link with
  | Some docs => JsMap.set reg link (JsSet.add docs doc)
  | None => JsMap.set reg link (JsSet.add JsSet.empty doc)
  end.

(** A run reports a sequence of findings "document [doc] references the
    broken [link]", in whatever order the analyses reach them. *)
Definition recordAll (reg : BrokenLinks) (findings : list (string * string))
  : BrokenLinks :=
  foldl (λ r f, addBrokenLink r f.1 f.2) reg findings.

(** The referrer set of a link, empty when the link is no key. *)
Definition referrers (reg : BrokenLinks) (link : string) : list string :=
  default [] (JsMap.get reg link).

(** Every referrer set of the registry is duplicate free. *)
Definition sets_wf (reg : BrokenLinks) : Prop :=
  ∀ link docs, JsMap.get reg link = Some docs → NoDup docs.

End Registry.

(** ** The phase catalogue and its configuration

    [phases] is the object exported by [src/phases/index.js]: one own
    property per phase id, in the order of definition, each holding a
    phase object with (at least) a display [name] and an [enabled] flag.
    [index.js] only imports the catalogue, so the definitions below take
    it as an argument. *)
Module Phases.

Record Phase := mkPhase { name : string; enabled : bool }.

Abbreviation Catalogue := (list (string * Phase)) (only parsing).

(** [phases[phaseId].enabled = enabled], guarded by [if (phases[phaseId])].
    A key that names no phase reads as [undefined], or as a member that
    every object inherits (such as [toString]); the assignment is then
    skipped or lands on that member, and the catalogue stays as it is. *)
Definition setEnabled (phases : Catalogue) (phaseId : string) (flag : bool)
  : Catalogue :=
  match JsMap.get phases phaseId with
  | Some ph => JsMap.set phases phaseId (mkPhase (name ph) flag)
  | None => phases
  end.

(** The loop over [Object.entries(options.phases)], skipped when
    [options.phases] is absent. *)
Definition configurePhases (phases : Catalogue)
  (optPhases : option (list (string * bool))) : Catalogue :=
  match optPhases with
  | None => phases
  | Some entries => foldl (λ c e, setEnabled c e.1 e.2) phases entries
  end.

(** [Object.values(phases)] *)
Definition values (phases : Catalogue) : list Phase := phases.*2.

(** [Object.values(phases).filter(phase => phase.enabled)] *)
Definition enabledList (phases : Catalogue) : list Phase :=
  List.filter enabled (values phases).

(** [const enabledPhases = Object.values(phases).filter(...).length] *)
Definition enabledPhases (phases : Catalogue) : nat :=
  length (enabledList phases).

(** [Object.values(phases).filter(...).map(phase => phase.name)] *)
Definition enabledPhaseNames (phases : Catalogue) : list string :=
  name <$> enabledList phases.

(** A catalogue for examples: the six phase ids that the documentation of
    [options.phases] lists, named as described there, all enabled as the
    documented default has it. *)
Definition documented : Catalogue :=
  [ ("foundation", mkPhase "Foundation & Privacy" true);
    ("metadata", mkPhase "Metadata & Semantic Structure" true);
    ("accessibility", mkPhase "Accessibility & UX Flags" true);
    ("performance", mkPhase "Performance & Technical SEO" true);
    ("crawlability", mkPhase "Crawlability & Linking" true);
    ("ai_detection", mkPhase "AI Content Detection" true) ].

End Phases.

(** ** JavaScript strings

    The string operations that [index.js] uses: [split], [join],
    [startsWith], [toUpperCase], template interpolation of a count and
    [parseInt]. Strings are sequences of bytes. *)
Module JsString.

(** [s.startsWith(p)] *)
Definition startsWith (s p : string) : bool := String.prefix p s.

(** [s.split(sep)] for a non-empty separator. [skip] counts the characters
    of a separator occurrence that are still to be passed over. *)
Fixpoint split_from (sep : string) (skip : nat) (s : string) : list string :=
  match s with
  | EmptyString => [EmptyString]
  | String c s' =>
      match skip with
      | S k => split_from sep k s'
      | O =>
          if String.prefix sep s
          then EmptyString :: split_from sep (String.length sep - 1) s'
          else match split_from sep 0 s' with
               | piece :: pieces => String c piece :: pieces
               | [] => [String c EmptyString]
               end
      end
  end.

(** [s.split(sep)] *)
Definition split (sep : string) (s : string) : list string :=
  split_from sep 0 s.

(** [pieces.join(sep)] *)
Definition join (sep : string) (pieces : list string) : string :=
  String.concat sep pieces.

(** [c.toUpperCase()] on the ASCII range *)
Definition upper (c : ascii) : ascii :=
  let n := Ascii.nat_of_ascii c in
  if (97 <=? n)%nat && (n <=? 122)%nat then Ascii.ascii_of_nat (n - 32) else c.

(** [c] is an ASCII character. *)
Definition is_ascii (c : ascii) : bool := (Ascii.nat_of_ascii c <? 128)%nat.

(** [s.toUpperCase()] for a string of ASCII characters. What it gives for
    a string with another character is decided by the Unicode tables,
    which are not part of this development: [None]. *)
Fixpoint toUpperCase (s : string) : option string :=
  match s with
  | EmptyString => Some EmptyString
  | String c s' =>
      if is_ascii c then String (upper c) <$> toUpperCase s' else None
  end.

(** [s[0].toUpperCase() + s.slice(1)] for a string that starts with an
    ASCII character, as the group names do *)
Definition capitalize (s : string) : string :=
  match s with
  | EmptyString => EmptyString
  | String c s' => String (upper c) s'
  end.

(** [`${n}`] for a non-negative integer [n] *)
Definition of_nat (n : nat) : string :=
  NilEmpty.string_of_uint (Nat.to_uint n).

(** [c] is one of [0] to [9]. *)
Definition is_digit (c : ascii) : bool :=
  let n := Ascii.nat_of_ascii c in (48 <=? n)%nat && (n <=? 57)%nat.

(** The longest prefix of decimal digits. *)
Fixpoint digits (s : string) : string :=
  match s with
  | EmptyString => EmptyString
  | String c s' => if is_digit c then String c (digits s') else EmptyString
  end.

(** [parseInt(s, 10)] on unsigned input without leading blanks; [None]
    stands for [NaN]. *)
Definition parseInt (s : string) : option nat :=
  match digits s with
  | EmptyString => None
  | ds => Nat.of_uint <$> NilEmpty.uint_of_string ds
  end.

(** [c] does not occur in [s]. *)
Fixpoint no_char (c : ascii) (s : string) : Prop :=
  match s with
  | EmptyString => True
  | String a s' => a ≠ c ∧ no_char c s'
  end.

(** [s] consists of decimal digits. *)
Fixpoint all_digits (s : string) : Prop :=
  match s with
  | EmptyString => True
  | String a s' => is_digit a = true ∧ all_digits s'
  end.

End JsString.

(** ** JavaScript numbers

    [index.js] divides a difference of time stamps by 1000 and prints the
    quotient by [toFixed(2)]. A Number is a binary64 value; a finite one
    is given here by its mantissa and exponent. *)
Module JsNumber.

(** The integers that a Number holds exactly, [Number.isSafeInteger] *)
Definition safe (z : Z) : bool := (Z.abs z <? 2 ^ 53)%Z.

(** [floor (log2 (a / b))] for positive [a] and [b] *)
Definition log2_quotient (a b : Z) : Z :=
  let k := (Z.log2 a - Z.log2 b)%Z in
  if (if (0 <=? k)%Z then (b * 2 ^ k <=? a)%Z else (b <=? a * 2 ^ (- k))%Z)
  then k else (k - 1)%Z.

(** The integer nearest to [n / d], the even one of two *)
Definition nearest_even (n d : Z) : Z :=
  let m := (n / d)%Z in
  let r := (n mod d)%Z in
  if (2 * r <? d)%Z then m
  else if (d <? 2 * r)%Z then (m + 1)%Z
  else if Z.even m then m else (m + 1)%Z.

(** [a / b] for positive safe integers [a] and [b]: the binary64 value
    nearest to the quotient, the one with the even mantissa of two, as
    its mantissa [m] of 53 bits and its exponent [e]; the value is
    [m * 2 ^ e]. *)
Definition divide (a b : Z) : Z * Z :=
  let e := (log2_quotient a b - 52)%Z in
  let m := if (0 <=? e)%Z then nearest_even a (b * 2 ^ e)
           else nearest_even (a * 2 ^ (- e)) b in
  (m, e).

(** The integer [n] of [x.toFixed(2)] for [x = m * 2 ^ e >= 0]: the one
    for which [n / 100 - x] is nearest to zero, the larger of two. *)
Definition hundredths (x : Z * Z) : Z :=
  let '(m, e) := x in
  if (0 <=? e)%Z then (100 * m * 2 ^ e)%Z
  else ((200 * m + 2 ^ (- e)) / 2 ^ (- e + 1))%Z.

(** The digits of [toFixed(2)]: [n] in decimal with a point before its
    last two digits, after the sign of a negative Number. *)
Definition fixed2 (negative : bool) (n : Z) : string :=
  (if negative then "-" else "")
  +:+ JsString.of_nat (Z.to_nat (n / 100))
  +:+ "."
  +:+ JsString.of_nat (Z.to_nat (n / 10 mod 10))
  +:+ JsString.of_nat (Z.to_nat (n mod 10)).

(** [(d / 1000).toFixed(2)] for a safe integer [d] *)
Definition thousandth_toFixed2 (d : Z) : string :=
  if (d =? 0)%Z then fixed2 false 0
  else fixed2 (d <? 0)%Z (hundredths (divide (Z.abs d) 1000)).

End JsNumber.

(** ** Paths

    [path.join], [path.normalize], [path.dirname] and [path.extname] of
    Node's POSIX [path] module, on which [index.js] relies to place the
    report. *)
Module Path.

(** [path.isAbsolute(p)] *)
Definition isAbsolute (p : string) : bool := JsString.startsWith p "/".

(** The last character of [p] is a separator. *)

Fixpoint endsWithSlash (p : string) : bool :=
  match p with
  | EmptyString => false
  | String c EmptyString => bool_decide (c = "/"%char)
  | String _ p' => endsWithSlash p'
  end.

(** One segment of [normalizeString]; [stack] holds the segments kept so
    far, the last one first. *)
Definition normStep (allowAboveRoot : bool) (stack : list string) (seg : string)
  : list string :=
  if decide (seg = "" ∨ seg = ".") then stack
  else if decide (seg = "..") then
    match stack with
    | top :: rest =>
        if decide (top = "..")
        then (if allowAboveRoot then seg :: stack else stack)
        else rest
    | [] => if allowAboveRoot then [seg] else []
    end
  else seg :: stack.

(** [normalizeString] on the segments between the separators: [.] and
    empty segments are dropped, [..] takes back the segment before it. *)
Definition normalizeString (allowAboveRoot : bool) (segs : list string)
  : list string :=
  reverse (foldl (normStep allowAboveRoot) [] segs).

(** The segments that a path denotes once [.], [..] and repeated
    separators are resolved. *)
Definition components (p : string) : list string :=
  normalizeString (negb (isAbsolute p)) (JsString.split "/" p).

(** [path.normalize(p)] *)
Definition normalize (p : string) : string :=
  if decide (p = "") then "."
  else
    let body := JsString.join "/" (components p) in
    if decide (body = "")
    then (if isAbsolute p then "/" else if endsWithSlash p then "./" else ".")
    else (if isAbsolute p then "/" else "")
         +:+ body +:+ (if endsWithSlash p then "/" else "").

(** [path.join(a, b)] *)
Definition join (a b : string) : string :=
  match List.filter (λ s, negb (String.eqb s "")) [a; b] with
  | [] => "."
  | parts => normalize (JsString.join "/" parts)
  end.

Definition is_slash (c : ascii) : bool := bool_decide (c = "/"%char).

(** [l] without its longest prefix of elements that satisfy [f] *)
Fixpoint dropWhile {A} (f : A → bool) (l : list A) : list A :=
  match l with
  | [] => []
  | x :: l' => if f x then dropWhile f l' else l
  end.

(** [path.dirname(p)]: the scan runs from the end of the path down to
    index 1, past the trailing separators and past the last component. *)
Definition dirname (p : string) : string :=
  match p with
  | EmptyString => "."
  | String c0 rest =>
      let hasRoot := is_slash c0 in
      let back := reverse (String.list_ascii_of_string rest) in
      match dropWhile (λ c, negb (is_slash c)) (dropWhile is_slash back) with
      | [] => if hasRoot then "/" else "."
      | _ :: before =>
          match before with
          | [] => if hasRoot then "//" else String c0 EmptyString
          | _ => String c0 (String.string_of_list_ascii (reverse before))
          end
      end
  end.

(** [path.basename(p)] without trailing separators, as [extname] sees it *)
Definition lastComponent (p : string) : string :=
  let back := dropWhile is_slash (reverse (String.list_ascii_of_string p)) in
  String.string_of_list_ascii
    (reverse (take (length back - length (dropWhile (λ c, negb (is_slash c)) back)) back)).

(** The longest prefix of [l] whose elements satisfy [f] *)
Fixpoint takeWhile {A} (f : A → bool) (l : list A) : list A :=
  match l with
  | [] => []
  | x :: l' => if f x then x :: takeWhile f l' else []
  end.

Definition is_dot (c : ascii) : bool := bool_decide (c = "."%char).

(** [path.extname(p)]: from the last dot of the last component, empty when
    that component has no dot, only a leading dot, or is [..]. *)
Definition extname (p : string) : string :=
  let base := String.list_ascii_of_string (lastComponent p) in
  let back := reverse base in
  let ext := takeWhile (λ c, negb (is_dot c)) back in
  if bool_decide (length ext = length base) then ""
  else if bool_decide (S (length ext) = length base) then ""
  else if bool_decide (lastComponent p = "..") then ""
  else String.string_of_list_ascii ("."%char :: reverse ext).

(** [p] lies in the directory [dir] or below it. *)
Definition inside (dir p : string) : Prop :=
  components dir `prefix_of` components p.

(** A segment that stays on the stack of [normalizeString]: the stack
    holds such segments on top of a block of [..] segments, and that
    block is empty when the path may not leave its root. *)
Definition proper (seg : string) : Prop :=
  seg ≠ "" ∧ seg ≠ "." ∧ seg ≠ ".." ∧ JsString.no_char "/" seg.

(** The shape of every stack that [normalizeString] builds. *)
Definition stack_ok (allow : bool) (stack : list string) : Prop :=
  ∃ k segs, stack = segs ++ replicate k ".."
            ∧ Forall proper segs ∧ (allow = false → k = 0).

End Path.

(** ** The integration: options and the report path *)
Module Checker.

(** The fields of [AstroSeoCheckerOptions] that [index.js] itself reads;
    [None] stands for an absent ([undefined]) field. *)
Record Options := mkOptions {
  opt_reportFilePath : option string;
  opt_logFilePath : option string;
  opt_reportFormat : option string;
  opt_phases : option (list (string * bool));
}.

(** Truthiness of an optional string: [undefined] and [''] are falsy. *)
Definition truthy (v : option string) : bool :=
  match v with
  | Some s => negb (String.eqb s "")
  | None => false
  end.

(** [a || b] *)
Definition js_or (a b : option string) : option string :=
  if truthy a then a else b.

(** [options.reportFilePath || options.logFilePath || 'site-report.log'] *)
Definition reportFilePath (options : Options) : string :=
  default "site-report.log"
    (js_or (js_or (opt_reportFilePath options) (opt_logFilePath options))
           (Some "site-report.log")).

(** [const absoluteReportFilePath = join(distPath, reportFilePath)] *)
Definition absoluteReportFilePath (distPath : string) (options : Options)
  : string :=
  Path.join distPath (reportFilePath options).

End Checker.

(** ** The file system

    The part of Node's [fs] module that [index.js] calls: [readFileSync],
    [existsSync], [mkdirSync] with [recursive: true] and [writeFileSync].
    A file system maps resolved absolute paths to nodes; [denied] holds
    the paths the process has no permission on. The build output
    directory comes from a file URL, so every path handed to [fs] is
    absolute. *)
Module Fs.

Inductive Node := Dir | File (data : string).

Inductive Errno := ENOENT | EISDIR | ENOTDIR | EACCES.

Record t := mk {
  nodes : gmap (list string) Node;
  denied : gset (list string);
}.

(** The segments below the root that an absolute path denotes. *)
Definition resolve (p : string) : list string :=
  Path.normalizeString false (JsString.split "/" p).

(** The root is always a directory. *)
Definition lookup (fs : t) (p : list string) : option Node :=
  match p with
  | [] => Some Dir
  | _ => nodes fs !! p
  end.

(** The directory that holds [p]. *)
Definition parent (p : list string) : list string := removelast p.

(** [fs.existsSync(p)] *)
Definition existsSync (fs : t) (p : string) : bool :=
  match lookup fs (resolve p) with Some _ => true | None => false end.

(** [fs.readFileSync(p, 'utf8')] *)
Definition readFileSync (fs : t) (p : string) : Errno + string :=
  let r := resolve p in
  match lookup fs r with
  | None => inl ENOENT
  | Some Dir => inl EISDIR
  | Some (File data) =>
      if bool_decide (r ∈ denied fs) then inl EACCES
      else if Path.endsWithSlash p then inl ENOTDIR
      else inr data
  end.

(** The walk of [mkdirSync(p, { recursive: true })]: [reached] is the
    directory reached so far, [todo] the segments still to enter. *)
Fixpoint mkdir_walk (fs : t) (reached todo : list string) : Errno + t :=
  match todo with
  | [] => inr fs
  | seg :: todo' =>
      let d := reached ++ [seg] in
      match lookup fs d with
      | Some Dir => mkdir_walk fs d todo'
      | Some (File _) => inl ENOTDIR
      | None =>
          if bool_decide (reached ∈ denied fs) then inl EACCES
          else mkdir_walk (mk (<[d := Dir]> (nodes fs)) (denied fs)) d todo'
      end
  end.

(** [fs.mkdirSync(p, { recursive: true })] *)
Definition mkdirSync_recursive (fs : t) (p : string) : Errno + t :=
  mkdir_walk fs [] (resolve p).

(** [fs.writeFileSync(p, data, 'utf8')]: the file holds exactly [data]
    afterwards, whatever it held before. *)
Definition writeFileSync (fs : t) (p data : string) : Errno + t :=
  let r := resolve p in
  match lookup fs (parent r), lookup fs r with
  | Some Dir, Some Dir => inl EISDIR
  | Some Dir, Some (File _) =>
      if bool_decide (r ∈ denied fs) then inl EACCES
      else if Path.endsWithSlash p then inl ENOTDIR
      else inr (mk (<[r := File data]> (nodes fs)) (denied fs))
  | Some Dir, None =>
      if bool_decide (parent r ∈ denied fs) then inl EACCES
      else if Path.endsWithSlash p then inl ENOENT
      else inr (mk (<[r := File data]> (nodes fs)) (denied fs))
  | Some (File _), _ => inl ENOTDIR
  | None, _ => inl ENOENT
  end.

(** A file system given by its entries, everything accessible. *)
Definition of_list (entries : list (list string * Node)) : t :=
  mk (list_to_map entries) ∅.

End Fs.

(** ** The console summary of [generateReport] *)
Module Summary.

Import Registry.

(** One element of a [categoryGroups] array: [{ count, category }], where
    [count] is the result of [parseInt] ([None] for [NaN]). *)
Record Entry := mkEntry { count : option nat; category : string }.

(** [`${issuesMap.size} ${category}`] *)
Definition categoryLine (category : string) (issuesMap : Issues) : string :=
  JsString.of_nat (JsMap.size issuesMap) +:+ " " +:+ category.

(** The loop over [seoIssuesMap.entries()]: the running total and the
    [issueCategories] array. *)
Definition countIssues (seoIssuesMap : SeoIssues) : nat * list string :=
  foldl (λ acc e, (acc.1 + JsMap.size e.2, acc.2 ++ [categoryLine e.1 e.2]))
        (0, []) seoIssuesMap.

(** [totalSeoIssues] after the loop *)
Definition totalSeoIssues (seoIssuesMap : SeoIssues) : nat :=
  (countIssues seoIssuesMap).1.

(** [issueCategories] after the loop *)
Definition issueCategories (seoIssuesMap : SeoIssues) : list string :=
  (countIssues seoIssuesMap).2.

(** The [categoryGroups] object as first built, keys in literal order. *)
Definition emptyGroups : list (string * list Entry) :=
  [ ("performance", []); ("accessibility", []); ("metadata", []);
    ("semantic", []); ("crawlability", []); ("linking", []);
    ("content", []); ("privacy", []); ("technical", []) ].

(** The inner loop over [Object.keys(categoryGroups)], left by [break] at
    the first group name that prefixes the category. *)
Definition findGroup (groupNames : list string) (categoryString : string)
  : option string :=
  List.find (λ groupName, JsString.startsWith categoryString groupName)
    groupNames.

(** One round of the loop "Sort issues into category groups". *)
Definition sortIntoGroup (groups : list (string * list Entry)) (line : string)
  : list (string * list Entry) :=
  let pieces := JsString.split " " line in
  let count := hd "" pieces in
  let categoryString := JsString.join " " (tl pieces) in
  match findGroup (JsMap.keys groups) categoryString with
  | Some groupName =>
      JsMap.set groups groupName
        (default [] (JsMap.get groups groupName)
         ++ [mkEntry (JsString.parseInt count) categoryString])
  | None => groups
  end.

(** [categoryGroups] after the loop over [issueCategories] *)
Definition categoryGroups (issueCategories : list string)
  : list (string * list Entry) :=
  foldl sortIntoGroup emptyGroups issueCategories.

(** The display priority of the groups. *)
Definition groupDisplayOrder : list string :=
  [ "performance"; "accessibility"; "metadata";
    "crawlability"; "linking"; "technical";
    "content"; "privacy"; "semantic" ].

(** [sum + issue.count], where [NaN] absorbs *)
Definition addCount (sum : option nat) (issue : Entry) : option nat :=
  match sum, count issue with
  | Some a, Some b => Some (a + b)
  | _, _ => None
  end.

(** The comparator [(a, b) => b.count - a.count]; [None] for [NaN]. *)
Definition compareCount (a b : Entry) : option Z :=
  match count a, count b with
  | Some x, Some y => Some (Z.of_nat y - Z.of_nat x)%Z
  | _, _ => None
  end.

(** [a] may stay in front of [b]: the comparator is not positive (a [NaN]
    result counts as zero). *)
Definition keepsOrder (a b : Entry) : bool :=
  match compareCount a b with
  | Some d => (d <=? 0)%Z
  | None => true
  end.

(** [a] goes in front of the first entry that it need not follow. *)
Fixpoint insertSorted (a : Entry) (sorted : list Entry) : list Entry :=
  match sorted with
  | [] => [a]
  | b :: rest => if keepsOrder a b then a :: sorted else b :: insertSorted a rest
  end.

(** [issues.sort((a, b) => b.count - a.count)]: the sort is stable. *)
Definition sortByCount (issues : list Entry) : list Entry :=
  foldr insertSorted [] issues.

(** What the summary shows for one group. *)
Record Block := mkBlock {
  group : string;
  totalInGroup : option nat;
  issues : list Entry;
}.

(** The loop over [groupDisplayOrder]; groups without issues are passed
    over. *)
Definition blocks (groups : list (string * list Entry)) : list Block :=
  omap (λ g,
          match default [] (JsMap.get groups g) with
          | [] => None
          | found => Some (mkBlock g (foldl addCount (Some 0) found)
                                   (sortByCount found))
          end)
       groupDisplayOrder.

(** The breakdown that the console summary shows for an Issue Registry. *)
Definition breakdown (seoIssuesMap : SeoIssues) : list Block :=
  blocks (categoryGroups (issueCategories seoIssuesMap)).

(** The line feed of the template literals. *)
Definition nl : string := String "010"%char "".

(** The [groupEmojis] object *)
Definition groupEmojis : list (string * string) :=
  [ ("performance", "⚡"); ("accessibility", "♿"); ("metadata", "📄");
    ("crawlability", "🔍"); ("linking", "🔗"); ("technical", "🔧");
    ("content", "📝"); ("privacy", "🔒"); ("semantic", "🏗️") ].

(** [`${n}`] for a count *)
Definition showCount (n : option nat) : string :=
  match n with Some n => JsString.of_nat n | None => "NaN" end.

(** [category.split(': ')[1] || category] *)
Definition issueType (category : string) : string :=
  match JsString.split ": " category with
  | _ :: second :: _ => if String.eqb second "" then category else second
  | _ => category
  end.

(** The line of one category under its group header. *)
Definition renderIssue (issue : Entry) : string :=
  nl +:+ "      • " +:+ issueType (category issue) +:+ ": "
     +:+ showCount (count issue).

(** The header of a group and the lines of its categories. *)
Definition renderBlock (b : Block) : string :=
  nl +:+ "    " +:+ default "undefined" (JsMap.get groupEmojis (group b))
     +:+ " " +:+ JsString.capitalize (group b) +:+ ": "
     +:+ showCount (totalInGroup b) +:+ " issue"
     +:+ (if decide (totalInGroup b = Some 1) then "" else "s")
     +:+ String.concat "" (renderIssue <$> issues b).

(** The text [categoriesByGroup] *)
Definition categoriesByGroup (seoIssuesMap : SeoIssues) : string :=
  match issueCategories seoIssuesMap with
  | [] => ""
  | _ => nl +:+ nl +:+ "  Issue breakdown:"
         +:+ String.concat "" (renderBlock <$> breakdown seoIssuesMap)
  end.

(** An Issue Registry for examples: four categories, seven issues, three
    documents; the third category belongs to no group. *)
Definition sampleIssues : SeoIssues :=
  [ ("metadata: missing title", [("Missing title", ["/a"; "/b"])]);
    ("performance: large inline script",
       [("Inline script of 3KB", ["/a"]); ("Inline script of 4KB", ["/b"])]);
    ("ai: generated text", [("Looks generated", ["/c"])]);
    ("performance: render blocking",
       [("a.js", ["/a"]); ("b.js", ["/a"]); ("c.css", ["/a"; "/b"])]) ].

(** The names under which [categoryGroups] files categories. *)
Definition groupNames : list string := JsMap.keys emptyGroups.

(** The group a category is filed under, if any. *)
Definition groupOf (category : string) : option string :=
  findGroup groupNames category.

(** The entry that the summary keeps for a category of the registry. *)
Definition entryOf (e : string * Issues) : Entry :=
  mkEntry (Some (JsMap.size e.2)) e.1.

(** The categories of the registry filed under [g], in registry order. *)
Definition members (seoIssuesMap : SeoIssues) (g : string) : list Entry :=
  entryOf <$> filter (λ e, groupOf e.1 = Some g) seoIssuesMap.

(** [a] is listed with a count at least that of [b]. *)
Definition countGe (a b : Entry) : Prop :=
  ∃ x y, count a = Some x ∧ count b = Some y ∧ y ≤ x.

(** The block shown for a group, if any. *)
Definition blockOf (reg : SeoIssues) (g : string) : option Block :=
  match members reg g with
  | [] => None
  | found => Some (mkBlock g (foldl addCount (Some 0) found) (sortByCount found))
  end.

End Summary.

(** ** Effects: the world that the hook runs in

    The file system, the clock behind [Date.now()] and the sequence of
    observable events (calls into [fs], the call of the formatter, lines
    handed to the logger), oldest first. *)
Module World.

(** What the hook can throw. *)
Inductive Error :=
| ReadFailed (path : string) (e : Fs.Errno)
| PhaseFailed (reason : string)
| FormatFailed (reason : string)
| MkdirFailed (path : string) (e : Fs.Errno)
| WriteFailed (path : string) (e : Fs.Errno)
| DirFailed (reason : string)
| ScanFailed (reason : string).

(** What the console summary reports: the text of
    [elapsedTime.toFixed(2)], the two totals, the text of the breakdown,
    the text of [formatName] and the report path. [None] stands for a
    text that this development does not determine (time stamps that are
    no safe integers, a format with a character outside ASCII). *)
Record SummaryRecord := mkSummary {
  elapsedTime : option string;
  brokenLinkCount : nat;
  totalSeoIssues : nat;
  categoriesByGroup : string;
  formatName : option string;
  reportPath : string;
}.

(** What the logger is handed: the start message, a progress line, the
    console summary, or the report text itself. *)
Inductive LogEntry :=
| LogStart (pages enabledPhases : nat) (names : string)
| LogProgress (pagesProcessed totalPages : nat)
| LogSummary (summary : SummaryRecord)
| LogReport (reportData : string).

(** The calls that a run makes into its environment. *)
Inductive Event :=
| EvRead (path : string)
| EvExists (path : string)
| EvMkdir (path : string)
| EvWrite (path data : string)
| EvFormat (brokenLinksMap : Registry.BrokenLinks)
           (seoIssuesMap : Registry.SeoIssues)
| EvLog (entry : LogEntry).

Record t := mk {
  fs : Fs.t;
  clock : nat → Z;
  ticks : nat;
  events : list Event;
}.

(** A computation that may throw. *)
Definition M (A : Type) : Type := t → t * (Error + A).

Definition ret {A} (a : A) : M A := λ w, (w, inr a).

(** Sequencing: a throw skips what follows. *)

Definition bind {A B} (m : M A) (k : A → M B) : M B :=
  λ w, match m w with
       | (w', inr a) => k a w'
       | (w', inl e) => (w', inl e)
       end.

(** The world after one more event. *)
Definition emit (e : Event) (w : t) : t :=
  mk (fs w) (clock w) (ticks w) (events w ++ [e]).

(** The world on a changed file system. *)
Definition setFs (fs' : Fs.t) (w : t) : t :=
  mk fs' (clock w) (ticks w) (events w).

(** [Date.now()] *)
Definition dateNow : M Z :=
  λ w, (mk (fs w) (clock w) (S (ticks w)) (events w), inr (clock w (ticks w))).

(** [logger.info(entry)] *)
Definition loggerInfo (entry : LogEntry) : M unit :=
  λ w, (emit (EvLog entry) w, inr tt).

(** The calls into [fs], each recorded as an event. *)
Definition readFileSync (path : string) : M string :=
  λ w, match Fs.readFileSync (fs w) path with
       | inl e => (emit (EvRead path) w, inl (ReadFailed path e))
       | inr data => (emit (EvRead path) w, inr data)
       end.

Definition existsSync (path : string) : M bool :=
  λ w, (emit (EvExists path) w, inr (Fs.existsSync (fs w) path)).

Definition mkdirSync_recursive (path : string) : M unit :=
  λ w, match Fs.mkdirSync_recursive (fs w) path with
       | inl e => (emit (EvMkdir path) w, inl (MkdirFailed path e))
       | inr fs' => (emit (EvMkdir path) (setFs fs' w), inr tt)
       end.

Definition writeFileSync (path data : string) : M unit :=
  λ w, match Fs.writeFileSync (fs w) path data with
       | inl e => (emit (EvWrite path data) w, inl (WriteFailed path e))
       | inr fs' => (emit (EvWrite path data) (setFs fs' w), inr tt)
       end.

End World.

Notation "'let*' x ':=' m 'in' k" := (World.bind m (λ x, k))
  (at level 10, x name, m at level 100, k at level 200, only parsing).

Notation "'run' m 'then' k" := (World.bind m (λ _, k))
  (at level 10, m at level 100, k at level 200, only parsing).

(** ** [generateReport] *)
Module Report.

Import World.

(** The [options] argument of [generateReport] *)
Record ReportOptions := mkReportOptions {
  filePath : string;
  format : option string;
  startTime : Z;
}.

(** [((endTime - options.startTime) / 1000).toFixed(2)], for time stamps
    that are safe integers, as [Date.now()] gives them, and whose
    difference is one *)
Definition elapsedText (startTime endTime : Z) : option string :=
  if JsNumber.safe startTime && JsNumber.safe endTime
     && JsNumber.safe (endTime - startTime)
  then Some (JsNumber.thousandth_toFixed2 (endTime - startTime))
  else None.

(** [s.substring(1)] *)
Definition substring1 (s : string) : string :=
  match s with
  | EmptyString => EmptyString
  | String _ s' => s'
  end.

(** [options.format || path.extname(options.filePath).substring(1) || 'log'] *)
Definition formatOf (options : ReportOptions) : string :=
  default "log"
    (Checker.js_or
       (Checker.js_or (format options)
          (Some (substring1 (Path.extname (filePath options)))))
       (Some "log")).

Section GenerateReport.

(** [formatReport], imported from [src/formatters/index.js]: it returns
    the report text or throws. *)
Variable formatReport :
  Registry.BrokenLinks → Registry.SeoIssues → ReportOptions → string + string.

(** [formatReport(brokenLinksMap, seoIssuesMap, options)] *)
Definition callFormatReport (brokenLinksMap : Registry.BrokenLinks)
  (seoIssuesMap : Registry.SeoIssues) (options : ReportOptions) : M string :=
  λ w, match formatReport brokenLinksMap seoIssuesMap options with
       | inl reason =>
           (emit (EvFormat brokenLinksMap seoIssuesMap) w,
            inl (FormatFailed reason))
       | inr reportData =>
           (emit (EvFormat brokenLinksMap seoIssuesMap) w, inr reportData)
       end.

(** The data of [summaryForConsole] *)
Definition summaryForConsole (elapsedTime : option string)
  (brokenLinksMap : Registry.BrokenLinks) (seoIssuesMap : Registry.SeoIssues)
  (options : ReportOptions) : SummaryRecord :=
  mkSummary elapsedTime
    (JsMap.size brokenLinksMap)
    (Summary.totalSeoIssues seoIssuesMap)
    (Summary.categoriesByGroup seoIssuesMap)
    (JsString.toUpperCase (formatOf options))
    (filePath options).

(** [generateReport(brokenLinksMap, seoIssuesMap, options, logger)] *)
Definition generateReport (brokenLinksMap : Registry.BrokenLinks)
  (seoIssuesMap : Registry.SeoIssues) (options : ReportOptions) : M unit :=
  let* endTime := dateNow in
  let elapsedTime := elapsedText (startTime options) endTime in
  let* reportData := callFormatReport brokenLinksMap seoIssuesMap options in
  if negb (String.eqb (filePath options) "") then
    let reportDir := Path.dirname (filePath options) in
    let* present := existsSync reportDir in
    run (if negb present then mkdirSync_recursive reportDir else ret tt) then
    run writeFileSync (filePath options) reportData then
    loggerInfo
      (LogSummary
         (summaryForConsole elapsedTime brokenLinksMap seoIssuesMap options))
  else
    loggerInfo (LogReport reportData).

End GenerateReport.

(** The events of a successful [generateReport] with a report path. *)
Definition reportEvents (b : Registry.BrokenLinks) (i : Registry.SeoIssues)
  (options : ReportOptions) (w : World.t) (reportData : string) : list Event :=
  [EvFormat b i; EvExists (Path.dirname (filePath options))]
  ++ (if Fs.existsSync (fs w) (Path.dirname (filePath options)) then []
      else [EvMkdir (Path.dirname (filePath options))])
  ++ [EvWrite (filePath options) reportData;
      EvLog (LogSummary
               (summaryForConsole
                  (elapsedText (startTime options) (clock w (ticks w)))
                  b i options))].

(** The file system on which the report file is written. *)
Definition afterMkdir (options : ReportOptions) (w : World.t) (fs1 : Fs.t) : Prop :=
  if Fs.existsSync (fs w) (Path.dirname (filePath options))
  then fs1 = fs w
  else Fs.mkdirSync_recursive (fs w) (Path.dirname (filePath options)) = inr fs1.

End Report.

(** ** The [astro:build:done] hook

    The hook starts one asynchronous task per HTML file, waits for all of
    them with [await Promise.all(...)] and then calls [generateReport].
    JavaScript runs one task at a time and switches between tasks only at
    an [await], so a run is an interleaving of task segments. *)
Module Hook.

Import World.

(** The state that all document analyses share. *)
Record Shared := mkShared {
  brokenLinksMap : Registry.BrokenLinks;
  checkedLinks : list (string * bool);
  seoIssuesMap : Registry.SeoIssues;
}.

(** What is left of one call of [runPhases]: it has resolved, it has
    rejected, or it runs a segment up to its next [await]; the segment
    updates the shared state and decides, from the state it found, how
    the call goes on. *)
Inductive Analysis :=
| Resolved
| Rejects (reason : string)
| Await (update : Shared → Shared) (next : Shared → Analysis).

(** The promise of one element of [checkHtmlPromises]. *)
Inductive Task :=
| Running (rest : Analysis)
| Fulfilled
| Rejected (e : Error).

(** The promise that the hook returns. *)
Inductive Status :=
| Awaiting
| Completed
| Failed (e : Error).

(** The hook while it waits in [await Promise.all(checkHtmlPromises)] and
    afterwards. [firstRejected] is the task that was rejected before every
    other, if any was: [Promise.all] rejects with its reason. *)
Record State := mkState {
  world : World.t;
  shared : Shared;
  tasks : list Task;
  pagesProcessed : nat;
  status : Status;
  firstRejected : option nat;
}.

(** What [astroBrokenLinksChecker] closes over. *)
Record Integration := mkIntegration {
  reportFilePath : string;
  reportFormat : option string;
  registries : Shared;
  phases : Phases.Catalogue;
}.

(** [astroBrokenLinksChecker(options)], on the catalogue [phases] *)
Definition astroBrokenLinksChecker (phases : Phases.Catalogue)
  (options : Checker.Options) : Integration :=
  mkIntegration
    (Checker.reportFilePath options)
    (Checker.opt_reportFormat options)
    (mkShared Registry.newBrokenLinks JsMap.empty Registry.newSeoIssues)
    (Phases.configurePhases phases (Checker.opt_phases options)).

(** The steps of a run: a task runs a segment, resolves or rejects, the
    awaited [Promise.all] rejects with a rejected task, or it resolves
    and the report is generated. *)
Inductive Label :=
| LSegment (i : nat)
| LResolved (i : nat)
| LRejected (i : nat)
| LPromiseAllRejected (i : nat)
| LReport.

(** The first of the tasks that the [map] callback left rejected: these
    are rejected when [Promise.all] gets them, and it hears of them in
    the order of the list. *)
Fixpoint firstRejectedFrom (k : nat) (started : list Task) : option nat :=
  match started with
  | [] => None
  | Rejected _ :: _ => Some k
  | _ :: rest => firstRejectedFrom (S k) rest
  end.

Definition firstRejectedOf (started : list Task) : option nat :=
  firstRejectedFrom 0 started.

Section Hook.

(** [fileURLToPath], from Node's [url], on the URL of the output
    directory: the path, or the reason of its throw. *)
Variable fileURLToPath : string → string + string.

(** [fastGlob('**/*.html', { cwd })], from the package [fast-glob], on a
    file system: the files found, or the reason of its rejection. *)
Variable fastGlob : Fs.t → string → string + list string.

(** [runPhases] and [normalizeHtmlFilePath], imported from [src/phases].
    [runPhases] gets the HTML text, the base URL, the absolute file path
    and the output directory; the registries are the shared state. *)
Variable runPhases : string → string → string → string → Analysis.

Variable normalizeHtmlFilePath : string → string → string.

Variable formatReport :
  Registry.BrokenLinks → Registry.SeoIssues → Report.ReportOptions
  → string + string.

(** The body of the [htmlFiles.map] callback up to [runPhases]. *)
Definition startTask (distPath htmlFile : string) (w : World.t)
  : World.t * Task :=
  let absoluteHtmlFilePath := Path.join distPath htmlFile in
  match World.readFileSync absoluteHtmlFilePath w with
  | (w', inl e) => (w', Rejected e)
  | (w', inr htmlContent) =>
      let baseUrl := normalizeHtmlFilePath absoluteHtmlFilePath distPath in
      (w', Running (runPhases htmlContent baseUrl absoluteHtmlFilePath distPath))
  end.

(** [htmlFiles.map(async (htmlFile) => ...)] *)
Fixpoint startTasks (distPath : string) (htmlFiles : list string) (w : World.t)
  : World.t * list Task :=
  match htmlFiles with
  | [] => (w, [])
  | htmlFile :: rest =>
      let '(w1, task) := startTask distPath htmlFile w in
      let '(w2, others) := startTasks distPath rest w1 in
      (w2, task :: others)
  end.

(** The hook from the start message to
    [await Promise.all(checkHtmlPromises)], for the files that the scan
    of the output directory has found: the start message, the start
    time, the report path and the tasks. *)
Definition start (integration : Integration) (distPath : string)
  (htmlFiles : list string) (w : World.t) : State * Report.ReportOptions :=
  let started :=
    LogStart (length htmlFiles)
      (Phases.enabledPhases (phases integration))
      (JsString.join ", " (Phases.enabledPhaseNames (phases integration))) in
  let w1 := emit (EvLog started) w in
  let startTime := clock w1 (ticks w1) in
  let w2 := World.mk (fs w1) (clock w1) (S (ticks w1)) (events w1) in
  let absoluteReportFilePath := Path.join distPath (reportFilePath integration) in
  let '(w3, started_tasks) := startTasks distPath htmlFiles w2 in
  (mkState w3 (registries integration) started_tasks 0 Awaiting
     (firstRejectedOf started_tasks),
   Report.mkReportOptions absoluteReportFilePath (reportFormat integration)
     startTime).

(** The progress line for large sites *)
Definition progress (totalPages processed : nat) (w : World.t) : World.t :=
  if (50 <? totalPages)%nat && (processed mod 10 =? 0)%nat
  then emit (EvLog (LogProgress processed totalPages)) w
  else w.

(** One step of a run. The awaited [Promise.all] rejects with the task
    that was rejected first, some time after that rejection. *)
Inductive step (options : Report.ReportOptions) (totalPages : nat)
  : State → Label → State → Prop :=
| step_segment s i update next :
    tasks s !! i = Some (Running (Await update next)) →
    step options totalPages s (LSegment i)
      (mkState (world s) (update (shared s))
         (<[i := Running (next (shared s))]> (tasks s))
         (pagesProcessed s) (status s) (firstRejected s))
| step_resolved s i :
    tasks s !! i = Some (Running Resolved) →
    step options totalPages s (LResolved i)
      (mkState (progress totalPages (S (pagesProcessed s)) (world s))
         (shared s) (<[i := Fulfilled]> (tasks s))
         (S (pagesProcessed s)) (status s) (firstRejected s))
| step_rejected s i reason :
    tasks s !! i = Some (Running (Rejects reason)) →
    step options totalPages s (LRejected i)
      (mkState (world s) (shared s)
         (<[i := Rejected (PhaseFailed reason)]> (tasks s))
         (pagesProcessed s) (status s)
         (match firstRejected s with Some j => Some j | None => Some i end))
| step_all_rejected s i e :
    status s = Awaiting →
    firstRejected s = Some i →
    tasks s !! i = Some (Rejected e) →
    step options totalPages s (LPromiseAllRejected i)
      (mkState (world s) (shared s) (tasks s) (pagesProcessed s) (Failed e)
         (firstRejected s))
| step_report s w' outcome :
    status s = Awaiting →
    Forall (λ task, task = Fulfilled) (tasks s) →
    Report.generateReport formatReport
      (brokenLinksMap (shared s)) (seoIssuesMap (shared s)) options (world s)
      = (w', outcome) →
    step options totalPages s LReport
      (mkState w' (shared s) (tasks s) (pagesProcessed s)
         (match outcome with inl e => Failed e | inr _ => Completed end)
         (firstRejected s)).

(** A run: the labels of its steps, oldest first. *)
Inductive steps (options : Report.ReportOptions) (totalPages : nat)
  : State → list Label → State → Prop :=
| steps_nil s : steps options totalPages s [] s
| steps_snoc s ls s1 l s2 :
    steps options totalPages s ls s1 →
    step options totalPages s1 l s2 →
    steps options totalPages s (ls ++ [l]) s2.

(** The runs of the hook of an integration on a build output, from the
    files that the scan has found. *)
Definition runs (integration : Integration) (distPath : string)
  (htmlFiles : list string) (w : World.t) (ls : list Label) (s : State)
  : Prop :=
  steps (start integration distPath htmlFiles w).2 (length htmlFiles)
    (start integration distPath htmlFiles w).1 ls s.

(** The hook rejected before its start message, by a throw of
    [fileURLToPath] or a rejection of the awaited [fastGlob]: nothing was
    logged, read or written. *)
Definition failedAtStart (integration : Integration) (w : World.t)
  (e : Error) : State :=
  mkState w (registries integration) [] 0 (Failed e) None.

(** The runs of the hook ['astro:build:done'] from its first statement,
    on the URL [dir] of the output directory: the directory is resolved
    and scanned, and the run goes on with the files found. *)
Inductive hookRuns (integration : Integration) (dir : string) (w : World.t)
  : list Label → State → Prop :=
| hook_dir_failed reason :
    fileURLToPath dir = inl reason →
    hookRuns integration dir w []
      (failedAtStart integration w (DirFailed reason))
| hook_scan_failed distPath reason :
    fileURLToPath dir = inr distPath →
    fastGlob (fs w) distPath = inl reason →
    hookRuns integration dir w []
      (failedAtStart integration w (ScanFailed reason))
| hook_scanned distPath htmlFiles ls s :
    fileURLToPath dir = inr distPath →
    fastGlob (fs w) distPath = inr htmlFiles →
    runs integration distPath htmlFiles w ls s →
    hookRuns integration dir w ls s.

(** What a completed run leaves behind. *)
Definition reported (options : Report.ReportOptions) (s : State) : Prop :=
  ∃ reportData summary,
    formatReport (brokenLinksMap (shared s)) (seoIssuesMap (shared s)) options
      = inr reportData
    ∧ Fs.lookup (fs (world s)) (Fs.resolve (Report.filePath options))
      = Some (Fs.File reportData)
    ∧ last (events (world s)) = Some (EvLog (LogSummary summary)).

End Hook.

(** A failure of the hook that comes from creating the report directory
    or from writing the report file. *)
Definition reportWriteFailure (e : Error) : Prop :=
  ∃ path errno, e = MkdirFailed path errno ∨ e = WriteFailed path errno.

(** A task has come to its end. *)
Definition ended (task : Task) : Prop :=
  task = Fulfilled ∨ ∃ e, task = Rejected e.

(** The run is over: every task is fulfilled and the hook has settled. *)
Definition settled (s : State) : Prop :=
  Forall (λ task, task = Fulfilled) (tasks s) ∧ status s ≠ Awaiting.

(** [firstRejected] names a rejected task as soon as there is one. *)
Definition rejectionKept (s : State) : Prop :=
  match firstRejected s with
  | Some i => ∃ e, tasks s !! i = Some (Rejected e)
  | None => Forall (λ task, ∀ e, task ≠ Rejected e) (tasks s)
  end.

(** The number of fulfilled tasks. *)
Definition fulfilledCount (tasks : list Task) : nat :=
  sum_list_with (λ task, match task with Fulfilled => 1 | _ => 0 end) tasks.

(** The progress lines among the events: pages scanned and pages in all. *)
Definition progressLines (evs : list Event) : list (nat * nat) :=
  omap (λ ev, match ev with
              | EvLog (LogProgress processed total) => Some (processed, total)
              | _ => None
              end) evs.

(** What the hook does to its environment once the pages are read: it
    logs, calls the formatter, and looks at, creates and writes nothing
    but the report directory and the report file. *)
Definition reportOnly (reportPath : string) (ev : Event) : Prop :=
  match ev with
  | EvRead _ => False
  | EvExists path | EvMkdir path => path = Path.dirname reportPath
  | EvWrite path _ => path = reportPath
  | EvFormat _ _ | EvLog _ => True
  end.

(** The progress lines that are due once [processed] of [totalPages]
    pages are scanned: one at every tenth page of a site of more than
    fifty. *)
Definition progressDue (totalPages processed : nat) : list (nat * nat) :=
  if (50 <? totalPages)%nat
  then (λ k, (10 * k, totalPages)%nat) <$> seq 1 (processed / 10)
  else [].

(** The analysis resolves, after finitely many segments, whatever the
    shared state holds when a segment starts. *)
Inductive resolves : Analysis → Prop :=
| resolves_now : resolves Resolved
| resolves_later update next :
    (∀ sh, resolves (next sh)) → resolves (Await update next).

(** A task that is fulfilled or on its way to be. *)
Definition promising (task : Task) : Prop :=
  task = Fulfilled ∨ ∃ rest, task = Running rest ∧ resolves rest.

End Hook.

(** * Auxiliary facts *)

Module JsSetFacts.

Import JsSet.

Section JsSetFacts.

Context {A : Type} `{EqDecision A}.

Implicit Types (s : list A) (x y : A).

Lemma elem_of_add s x y : y ∈ add s x ↔ y ∈ s ∨ y = x.
Proof.
  unfold add, has. case_bool_decide as Hx.
  - split; [by left | intros [?| ->]; done].
  - rewrite elem_of_app, list_elem_of_singleton. done.
Qed.

Lemma NoDup_add s x : NoDup s → NoDup (add s x).
Proof.
  intros Hs. unfold add, has. case_bool_decide as Hx; [done |].
  apply NoDup_app. split_and!; [done | | apply NoDup_singleton].
  intros y Hy ->%list_elem_of_singleton. done.
Qed.

Lemma add_idemp s x : add (add s x) x = add s x.
Proof.
  unfold add at 1. unfold has.
  rewrite bool_decide_eq_true_2; [done |].
  apply elem_of_add. by right.
Qed.

End JsSetFacts.

End JsSetFacts.

Module JsMapFacts.

Import JsMap.

Section JsMapFacts.

Context {K V : Type} `{EqDecision K}.

Implicit Types (m : list (K * V)) (k : K) (v : V).

Lemma get_set_eq m k v : get (set m k v) k = Some v.
Proof.
  induction m as [|[k' v'] m IH]; simpl.
  - by rewrite decide_True.
  - destruct (decide (k = k')) as [->|Hne]; simpl.
    + by rewrite decide_True.
    + by rewrite decide_False.
Qed.

Lemma get_set_ne m k k' v : k ≠ k' → get (set m k v) k' = get m k'.
Proof.
  intros Hne. induction m as [|[k0 v0] m IH]; simpl.
  - by rewrite decide_False.
  - destruct (decide (k = k0)) as [->|Hne0]; simpl.
    + by rewrite !decide_False.
    + by rewrite IH.
Qed.

Lemma get_None m k : get m k = None ↔ k ∉ keys m.
Proof.
  unfold keys. induction m as [|[k' v'] m IH]; csimpl.
  - split; [intros _; apply not_elem_of_nil | done].
  - rewrite not_elem_of_cons. destruct (decide (k = k')) as [->|Hne].
    + split; [done | intros [? _]; done].
    + rewrite IH. tauto.
Qed.

Lemma get_Some_keys m k : is_Some (get m k) ↔ k ∈ keys m.
Proof.
  destruct (get m k) as [v|] eqn:Hg.
  - split; [intros _ | by eauto].
    destruct (decide (k ∈ keys m)) as [|Hn]; [done |].
    apply get_None in Hn. congruence.
  - apply get_None in Hg. split; [by intros [? ?] | done].
Qed.

Lemma keys_set m k v :
  keys (set m k v) = if has m k then keys m else keys m ++ [k].
Proof.
  unfold keys, has. induction m as [|[k' v'] m IH]; csimpl; [done |].
  destruct (decide (k = k')) as [->|Hne]; csimpl; [done |].
  rewrite IH. by destruct (get m k).
Qed.

Lemma NoDup_keys_set m k v : NoDup (keys m) → NoDup (keys (set m k v)).
Proof.
  intros Hm. rewrite keys_set. unfold has.
  destruct (get m k) eqn:Hg; [done |].
  apply get_None in Hg. apply NoDup_app.
  split_and!; [done | | apply NoDup_singleton].
  intros y Hy ->%list_elem_of_singleton. done.
Qed.

Lemma size_set m k v :
  size (set m k v) = if has m k then size m else S (size m).
Proof.
  unfold size. rewrite <-!(length_fmap fst). fold (keys (set m k v)).
  rewrite keys_set. fold (keys m).
  destruct (has m k); [done |]. rewrite length_app. simpl. lia.
Qed.

Lemma get_elem_of m k v : NoDup (keys m) → get m k = Some v ↔ (k, v) ∈ m.
Proof.
  unfold keys. induction m as [|[k' v'] m IH]; csimpl; intros Hnd.
  - split; [done | by intros ?%elem_of_nil].
  - apply NoDup_cons in Hnd as [Hk' Hnd]. rewrite elem_of_cons.
    destruct (decide (k = k')) as [->|Hne].
    + split; [intros [= ->]; by left |].
      intros [[= ->]|Hin]; [done |].
      exfalso. apply Hk'. apply list_elem_of_fmap. by exists (k', v).
    + rewrite IH by done. split; [by right |].
      intros [[= -> ->]|?]; done.
Qed.

(** With unique keys the lookup does not depend on the order of entries. *)
Lemma get_reverse (m : list (K * V)) k :
  NoDup (JsMap.keys m) → JsMap.get (reverse m) k = JsMap.get m k.
Proof.
  intros Hnd.
  assert (Hnd' : NoDup (JsMap.keys (reverse m))).
  { unfold JsMap.keys. rewrite fmap_reverse. by rewrite reverse_Permutation. }
  destruct (JsMap.get m k) as [v|] eqn:Hg.
  - apply JsMapFacts.get_elem_of; [done |]. apply elem_of_reverse.
    by apply JsMapFacts.get_elem_of.
  - apply JsMapFacts.get_None. apply JsMapFacts.get_None in Hg.
    unfold JsMap.keys in *. by rewrite fmap_reverse, elem_of_reverse.
Qed.

Lemma has_false_get (m : list (K * V)) k :
  JsMap.has m k = false ↔ JsMap.get m k = None.
Proof. unfold JsMap.has. destruct (JsMap.get m k); split; done. Qed.

End JsMapFacts.

End JsMapFacts.

Module RegistryFacts.

Import Registry.

Lemma referrers_add reg link doc l :
  referrers (addBrokenLink reg link doc) l =
  if decide (link = l) then JsSet.add (referrers reg link) doc
  else referrers reg l.
Proof.
  unfold referrers, addBrokenLink.
  destruct (decide (link = l)) as [<-|Hne].
  - destruct (JsMap.get reg link); by rewrite JsMapFacts.get_set_eq.
  - destruct (JsMap.get reg link); by rewrite JsMapFacts.get_set_ne.
Qed.

Lemma keys_add reg link doc l :
  l ∈ JsMap.keys (addBrokenLink reg link doc) ↔ l ∈ JsMap.keys reg ∨ l = link.
Proof.
  unfold addBrokenLink.
  destruct (JsMap.get reg link) as [docs|] eqn:Hg;
    rewrite JsMapFacts.keys_set; unfold JsMap.has; rewrite Hg.
  - split; [by left | intros [?| ->]; [done |]].
    apply JsMapFacts.get_Some_keys. by rewrite Hg.
  - by rewrite elem_of_app, list_elem_of_singleton.
Qed.

Lemma NoDup_keys_add reg link doc :
  NoDup (JsMap.keys reg) → NoDup (JsMap.keys (addBrokenLink reg link doc)).
Proof.
  intros. unfold addBrokenLink.
  destruct (JsMap.get reg link); by apply JsMapFacts.NoDup_keys_set.
Qed.

Lemma sets_wf_add reg link doc : sets_wf reg → sets_wf (addBrokenLink reg link doc).
Proof.
  intros Hwf l docs. unfold addBrokenLink.
  destruct (JsMap.get reg link) as [ds|] eqn:Hg;
    (destruct (decide (link = l)) as [<-|Hne];
     [rewrite JsMapFacts.get_set_eq; intros [= <-]; apply JsSetFacts.NoDup_add
     |rewrite JsMapFacts.get_set_ne by done; apply Hwf]).
  - by apply (Hwf link).
  - apply NoDup_nil_2.
Qed.

(** The document set of a link only grows. *)
Lemma referrers_grow reg link doc l d :
  d ∈ referrers reg l → d ∈ referrers (addBrokenLink reg link doc) l.
Proof.
  rewrite referrers_add. case_decide as Hl; [subst l | done].
  intros. apply JsSetFacts.elem_of_add. by left.
Qed.

Lemma referrers_keys reg l d : d ∈ referrers reg l → l ∈ JsMap.keys reg.
Proof.
  unfold referrers. intros Hd. apply JsMapFacts.get_Some_keys.
  destruct (JsMap.get reg l); [by eauto | by apply elem_of_nil in Hd].
Qed.

Section RecordAll.

Implicit Types (reg : BrokenLinks) (findings : list (string * string)).

Lemma recordAll_snoc reg findings f :
  recordAll reg (findings ++ [f]) = addBrokenLink (recordAll reg findings) f.1 f.2.
Proof. unfold recordAll. by rewrite foldl_app. Qed.

Lemma recordAll_app reg fs1 fs2 :
  recordAll reg (fs1 ++ fs2) = recordAll (recordAll reg fs1) fs2.
Proof. unfold recordAll. by rewrite foldl_app. Qed.

Lemma NoDup_keys_recordAll reg findings :
  NoDup (JsMap.keys reg) → NoDup (JsMap.keys (recordAll reg findings)).
Proof.
  revert reg. induction findings as [|f fs IH]; intros reg Hreg; [done |].
  apply IH. by apply NoDup_keys_add.
Qed.

Lemma sets_wf_recordAll reg findings :
  sets_wf reg → sets_wf (recordAll reg findings).
Proof.
  revert reg. induction findings as [|f fs IH]; intros reg Hreg; [done |].
  apply IH. by apply sets_wf_add.
Qed.

Lemma referrers_recordAll reg findings l d :
  d ∈ referrers (recordAll reg findings) l ↔
  d ∈ referrers reg l ∨ (l, d) ∈ findings.
Proof.
  revert reg. induction findings as [|[link doc] fs IH]; intros reg.
  - simpl. rewrite elem_of_nil. tauto.
  - simpl. rewrite IH, referrers_add, elem_of_cons. simpl.
    case_decide as Hl.
    + subst l. rewrite JsSetFacts.elem_of_add.
      split; [intros [[?| ->]|?] | intros [?|[[= ->]|?]]]; auto.
    + split; [intros [?|?]; auto | intros [?|[[= -> ->]|?]]; auto].
      done.
Qed.

Lemma keys_recordAll reg findings l :
  l ∈ JsMap.keys (recordAll reg findings) ↔
  l ∈ JsMap.keys reg ∨ ∃ d, (l, d) ∈ findings.
Proof.
  revert reg. induction findings as [|[link doc] fs IH]; intros reg.
  - simpl. split; [by left | intros [?|[d ?%elem_of_nil]]; done].
  - simpl. rewrite IH, keys_add. split.
    + intros [[?| ->]|[d Hd]]; [by left | |].
      * right. exists doc. by left.
      * right. exists d. by right.
    + intros [?|[d [[= -> ->]|Hd]%elem_of_cons]]; [by left; left | by left; right |].
      right. by exists d.
Qed.

End RecordAll.

End RegistryFacts.

Module PhasesFacts.

Import Phases.

Lemma get_setEnabled phases phaseId flag id :
  JsMap.get (setEnabled phases phaseId flag) id =
  if decide (phaseId = id)
  then (λ ph, mkPhase (name ph) flag) <$> JsMap.get phases id
  else JsMap.get phases id.
Proof.
  unfold setEnabled. destruct (decide (phaseId = id)) as [<-|Hne].
  - destruct (JsMap.get phases phaseId) as [ph|] eqn:Hg; simpl.
    + by rewrite JsMapFacts.get_set_eq.
    + by rewrite Hg.
  - destruct (JsMap.get phases phaseId); [by rewrite JsMapFacts.get_set_ne | done].
Qed.

Lemma setEnabled_unknown phases phaseId flag :
  JsMap.get phases phaseId = None → setEnabled phases phaseId flag = phases.
Proof. unfold setEnabled. by intros ->. Qed.

Lemma keys_setEnabled phases phaseId flag :
  JsMap.keys (setEnabled phases phaseId flag) = JsMap.keys phases.
Proof.
  unfold setEnabled. destruct (JsMap.get phases phaseId) eqn:Hg; [|done].
  rewrite JsMapFacts.keys_set. unfold JsMap.has. by rewrite Hg.
Qed.

Lemma keys_configure phases entries :
  JsMap.keys (configurePhases phases (Some entries)) = JsMap.keys phases.
Proof.
  simpl. revert phases. induction entries as [|e es IH]; intros phases; [done |].
  simpl. by rewrite IH, keys_setEnabled.
Qed.

(** After the loop a phase carries the flag of the last entry naming it,
    and its own flag when no entry names it. *)
Lemma get_configure phases entries id :
  JsMap.get (configurePhases phases (Some entries)) id =
  (λ ph, mkPhase (name ph)
           (default (enabled ph) (JsMap.get (reverse entries) id)))
  <$> JsMap.get phases id.
Proof.
  simpl. induction entries as [|[k v] es IH] using rev_ind.
  - simpl. destruct (JsMap.get phases id) as [[n e]|]; done.
  - rewrite foldl_app, reverse_app. simpl.
    rewrite get_setEnabled, IH.
    destruct (decide (k = id)) as [->|Hne]; rewrite ?decide_True by done.
    + destruct (JsMap.get phases id) as [[n e]|]; done.
    + rewrite decide_False by done. done.
Qed.

Lemma has_keys (m m' : Catalogue) id :
  JsMap.keys m = JsMap.keys m' → JsMap.has m id = JsMap.has m' id.
Proof.
  intros Hk. unfold JsMap.has.
  destruct (JsMap.get m id) eqn:Hm, (JsMap.get m' id) eqn:Hm'; try done.
  - apply JsMapFacts.get_None in Hm'. rewrite <-Hk in Hm'.
    apply JsMapFacts.get_None in Hm'. congruence.
  - apply JsMapFacts.get_None in Hm. rewrite Hk in Hm.
    apply JsMapFacts.get_None in Hm. congruence.
Qed.

Lemma foldl_setEnabled_filter (phases cur : Catalogue) entries :
  JsMap.keys phases = JsMap.keys cur →
  foldl (λ c e, setEnabled c e.1 e.2) cur entries =
  foldl (λ c e, setEnabled c e.1 e.2) cur
    (List.filter (λ e, JsMap.has phases e.1) entries).
Proof.
  revert cur. induction entries as [|[k v] es IH]; intros cur Hk; [done |].
  simpl. rewrite (has_keys phases cur k) by done. unfold JsMap.has.
  destruct (JsMap.get cur k) as [ph|] eqn:Hg; simpl.
  - apply IH. by rewrite keys_setEnabled.
  - rewrite setEnabled_unknown by done. by apply IH.
Qed.

(** Entries whose key names no phase can be dropped from the map without
    changing the outcome of the loop. *)
Lemma configure_skip_unknown phases entries :
  configurePhases phases (Some entries) =
  configurePhases phases
    (Some (List.filter (λ e, JsMap.has phases e.1) entries)).
Proof. simpl. by apply foldl_setEnabled_filter. Qed.

End PhasesFacts.

Module JsStringFacts.

Import JsString.

Example split_words :
  split " " "3 metadata: missing title" = ["3"; "metadata:"; "missing"; "title"].
Proof. reflexivity. Qed.

Example split_colon :
  split ": " "metadata: missing title: x" = ["metadata"; "missing title"; "x"].
Proof. reflexivity. Qed.

Example split_empty : split " " "" = [""].
Proof. reflexivity. Qed.

Example split_edges : split "/" "/a//b/" = [""; "a"; ""; "b"; ""].
Proof. reflexivity. Qed.

Example parseInt_count : parseInt "42" = Some 42 ∧ parseInt "x" = None.
Proof. split; reflexivity. Qed.

Example upper_md :
  toUpperCase "md" = Some "MD" ∧ capitalize "linking" = "Linking".
Proof. split; reflexivity. Qed.

Lemma append_nil_l s : "" +:+ s = s.
Proof. reflexivity. Qed.

Lemma startsWith_char c a s :
  startsWith (String a s) (String c "") = bool_decide (a = c).
Proof.
  unfold startsWith. simpl. destruct (ascii_dec c a) as [->|Hne].
  - rewrite bool_decide_eq_true_2 by done. by destruct s.
  - by rewrite bool_decide_eq_false_2.
Qed.

Lemma append_nil_r s : s +:+ "" = s.
Proof. induction s as [|a s IH]; [done |]. by rewrite <-IH at 2. Qed.

Lemma append_cons a s t : String a s +:+ t = String a (s +:+ t).
Proof. reflexivity. Qed.

Lemma split_char_cons c a s :
  split (String c "") (String a s) =
  if decide (a = c) then "" :: split (String c "") s
  else String a (hd "" (split (String c "") s)) :: tl (split (String c "") s).
Proof.
  unfold split. simpl. destruct (ascii_dec c a) as [->|Hne].
  - rewrite decide_True by done. by destruct s.
  - rewrite decide_False by done.
    by destruct (split_from (String c "") 0 s).
Qed.

Lemma split_char_nil c : split (String c "") "" = [""].
Proof. done. Qed.

Lemma split_nonempty c s : split (String c "") s ≠ [].
Proof.
  destruct s as [|a s]; [done |]. rewrite split_char_cons. by case_decide.
Qed.

Lemma split_hd_tl c s :
  split (String c "") s = hd "" (split (String c "") s) :: tl (split (String c "") s).
Proof. pose proof (split_nonempty c s). by destruct (split (String c "") s). Qed.

Lemma split_app_sep c a b :
  split (String c "") (a +:+ String c b) =
  split (String c "") a ++ split (String c "") b.
Proof.
  induction a as [|x a IH]; rewrite ?append_nil_l, ?append_cons.
  - rewrite split_char_cons, decide_True by done. done.
  - rewrite !split_char_cons, IH. case_decide; [done |].
    rewrite (split_hd_tl c a) at 1 2. done.
Qed.

Lemma concat_cons_cons sep x y l :
  String.concat sep (x :: y :: l) = x +:+ sep +:+ String.concat sep (y :: l).
Proof. reflexivity. Qed.

Lemma join_split c s : join (String c "") (split (String c "") s) = s.
Proof.
  unfold join. induction s as [|a s IH]; [done |].
  rewrite split_char_cons.
  destruct (split (String c "") s) as [|h t] eqn:E;
    [by apply split_nonempty in E |].
  case_decide as Ha.
  - subst a. rewrite concat_cons_cons, append_nil_l, append_cons, append_nil_l.
    by rewrite IH.
  - simpl hd. simpl tl. destruct t as [|y l].
    + simpl in *. by rewrite IH.
    + rewrite concat_cons_cons, append_cons, <-concat_cons_cons. by rewrite IH.
Qed.

Lemma split_no_char c s : Forall (no_char c) (split (String c "") s).
Proof.
  induction s as [|a s IH]; [by repeat constructor |].
  rewrite split_char_cons. rewrite (split_hd_tl c s) in IH.
  apply Forall_cons in IH as [Hh Ht].
  case_decide; constructor; simpl; auto.
  rewrite split_hd_tl. by constructor.
Qed.

Lemma split_whole c s : no_char c s → split (String c "") s = [s].
Proof.
  induction s as [|a s IH]; [done |]. intros [Ha Hs].
  rewrite split_char_cons, decide_False by done. by rewrite IH.
Qed.

Lemma split_join c pieces :
  pieces ≠ [] → Forall (no_char c) pieces →
  split (String c "") (join (String c "") pieces) = pieces.
Proof.
  unfold join. induction pieces as [|p ps IH]; [done |]. intros _ Hall.
  apply Forall_cons in Hall as [Hp Hps].
  destruct ps as [|q ps]; [by apply split_whole |].
  change (String.concat (String c "") (p :: q :: ps))
    with (p +:+ String c (String.concat (String c "") (q :: ps))).
  rewrite split_app_sep, IH by done. by rewrite split_whole.
Qed.

(** ** The count and the category survive the summary encoding *)
Lemma is_digit_spec a :
  is_digit a = true →
  a ∈ ["0"; "1"; "2"; "3"; "4"; "5"; "6"; "7"; "8"; "9"]%char.
Proof.
  destruct a as [[] [] [] [] [] [] [] []]; vm_compute; intros H;
    try discriminate H; set_solver.
Qed.

Lemma string_of_uint_digits d : all_digits (NilEmpty.string_of_uint d).
Proof. induction d; simpl; auto. Qed.

Lemma to_uint_nonnil n : Nat.to_uint n ≠ Decimal.Nil.
Proof.
  intros Hnil. pose proof (DecimalNat.Unsigned.of_to n) as Hn.
  rewrite Hnil in Hn. simpl in Hn. subst n. discriminate Hnil.
Qed.

Lemma of_nat_digits n : all_digits (of_nat n).
Proof. apply string_of_uint_digits. Qed.

Lemma of_nat_nonempty n : of_nat n ≠ "".
Proof.
  unfold of_nat. pose proof (to_uint_nonnil n).
  by destruct (Nat.to_uint n).
Qed.

Lemma all_digits_no_space s : all_digits s → no_char " " s.
Proof.
  induction s as [|a s IH]; [done |]. intros [Ha Hs]. split; [|by apply IH].
  by intros ->.
Qed.

Lemma digits_all s : all_digits s → digits s = s.
Proof.
  induction s as [|a s IH]; [done |]. intros [Ha Hs].
  simpl. rewrite Ha. by rewrite IH.
Qed.

Lemma parseInt_of_nat n : parseInt (of_nat n) = Some n.
Proof.
  unfold parseInt. rewrite digits_all by apply of_nat_digits.
  pose proof (of_nat_nonempty n) as Hne.
  destruct (of_nat n) as [|a s] eqn:E; [done |]. rewrite <-E.
  unfold of_nat. rewrite NilEmpty.usu. simpl.
  by rewrite DecimalNat.Unsigned.of_to.
Qed.

(** Splitting ["<count> <category>"] at blanks and joining the tail again
    gives the count text and the category back. *)
Lemma split_count_line n category :
  split " " (of_nat n +:+ " " +:+ category) = of_nat n :: split " " category.
Proof.
  change (" " +:+ category) with (String " " category).
  rewrite split_app_sep, split_whole; [done |].
  apply all_digits_no_space, of_nat_digits.
Qed.

(** ** Splitting a category at its first colon *)

Lemma split_pair_cons c1 c2 c s :
  c ≠ c1 →
  split (String c1 (String c2 "")) (String c s)
  = String c (hd "" (split (String c1 (String c2 "")) s))
    :: tl (split (String c1 (String c2 "")) s).
Proof.
  intros Hc. unfold split. simpl.
  destruct (ascii_dec c1 c) as [->|_]; [done |].
  by destruct (split_from (String c1 (String c2 "")) 0 s).
Qed.

Lemma split_colon_cons c s :
  c ≠ ":"%char →
  split ": " (String c s)
  = String c (hd "" (split ": " s)) :: tl (split ": " s).
Proof. apply (split_pair_cons ":" " "). Qed.

Lemma split_pair_here c1 c2 t :
  split (String c1 (String c2 "")) (String c1 (String c2 t))
  = "" :: split (String c1 (String c2 "")) t.
Proof.
  unfold split. simpl.
  destruct (ascii_dec c1 c1); [|done]. destruct (ascii_dec c2 c2); [|done].
  by destruct t.
Qed.

Lemma split_colon_piece a t :
  no_char ":" a → split ": " (a +:+ ": " +:+ t) = a :: split ": " t.
Proof.
  induction a as [|c a IH]; [intros _; apply (split_pair_here ":" " ") |].
  intros [Hc Ha].
  rewrite append_cons, split_colon_cons by done. by rewrite IH.
Qed.

Lemma split_colon_whole a : no_char ":" a → split ": " a = [a].
Proof.
  induction a as [|c a IH]; [done |]. intros [Hc Ha].
  rewrite split_colon_cons by done. by rewrite IH.
Qed.

End JsStringFacts.

(** ** Numbers *)
Module JsNumberFacts.
Import JsNumber.

Local Open Scope Z_scope.

Lemma nearest_even_close n d :
  0 < d → 0 ≤ n →
  0 ≤ nearest_even n d ∧ 2 * Z.abs (d * nearest_even n d - n) ≤ d.
Proof.
  intros Hd Hn. unfold nearest_even.
  pose proof (Z.div_mod n d ltac:(lia)) as Hdm.
  pose proof (Z.mod_pos_bound n d Hd) as Hr.
  pose proof (Z.div_pos n d Hn Hd) as Hq.
  destruct (2 * (n mod d) <? d) eqn:H1; [apply Z.ltb_lt in H1; lia |].
  apply Z.ltb_ge in H1.
  destruct (d <? 2 * (n mod d)) eqn:H2; [apply Z.ltb_lt in H2; lia |].
  apply Z.ltb_ge in H2.
  destruct (Z.even (n / d)); lia.
Qed.

Lemma log2_quotient_1000 a :
  0 < a < 2 ^ 53 → -10 ≤ log2_quotient a 1000 ≤ 43.
Proof.
  intros [Ha Hlt]. unfold log2_quotient.
  assert (H1000 : Z.log2 1000 = 9) by reflexivity. rewrite H1000.
  pose proof (Z.log2_nonneg a) as Hnn.
  assert (Hlog : Z.log2 a < 53) by (by apply Z.log2_lt_pow2).
  destruct (if 0 <=? Z.log2 a - 9 then _ else _); lia.
Qed.

(** The hundredths that [toFixed(2)] shows for [a / 1000] are those
    nearest to the quotient. *)
Lemma hundredths_thousandth a :
  0 < a < 2 ^ 53 →
  let n := hundredths (divide a 1000) in
  0 ≤ n ∧ Z.abs (10 * n - a) ≤ 5.
Proof.
  intros Ha. unfold divide, hundredths.
  pose proof (log2_quotient_1000 a Ha) as Hfl.
  set (e := log2_quotient a 1000 - 52) in *.
  assert (He : e ≤ -9) by (unfold e; lia).
  rewrite !(proj2 (Z.leb_gt 0 e)) by lia.
  assert (Hpow : 2 ^ (- e + 1) = 2 * 2 ^ (- e)).
  { rewrite Z.pow_add_r by lia. lia. }
  rewrite Hpow.
  assert (HP : 512 ≤ 2 ^ (- e)).
  { change 512 with (2 ^ 9). apply Z.pow_le_mono_r; lia. }
  generalize dependent (2 ^ (- e)). intros P _ HP.
  destruct (nearest_even_close (a * P) 1000 ltac:(lia) ltac:(nia)) as [Hm0 Hm].
  generalize dependent (nearest_even (a * P) 1000). intros m Hm0 Hm.
  pose proof (Z.div_mod (200 * m + P) (2 * P) ltac:(lia)) as Hdm.
  pose proof (Z.mod_pos_bound (200 * m + P) (2 * P) ltac:(lia)) as Hr.
  pose proof (Z.div_pos (200 * m + P) (2 * P) ltac:(lia) ltac:(lia)) as Hq.
  generalize dependent ((200 * m + P) / (2 * P)). intros n Hdm Hq.
  generalize dependent ((200 * m + P) mod (2 * P)). intros r Hr Hdm.
  split; [done |]. nia.
Qed.

(** What [toFixed(2)] prints for a thousandth of a safe integer. *)
Lemma thousandth_toFixed2_spec d :
  safe d = true →
  ∃ n, 0 ≤ n
       ∧ Z.abs (10 * n - Z.abs d) ≤ 5
       ∧ thousandth_toFixed2 d = fixed2 (d <? 0) n.
Proof.
  unfold safe, thousandth_toFixed2. intros Hsafe%Z.ltb_lt.
  destruct (d =? 0) eqn:Hd.
  - apply Z.eqb_eq in Hd. subst d. exists 0. by split_and!.
  - apply Z.eqb_neq in Hd.
    destruct (hundredths_thousandth (Z.abs d) ltac:(lia)) as [Hn Hclose].
    exists (hundredths (divide (Z.abs d) 1000)). by split_and!.
Qed.

(** Off the middle between two hundredths the rounding is the usual one. *)
Lemma nearest_hundredth a n :
  0 ≤ a → Z.abs (10 * n - a) ≤ 5 → a mod 10 ≠ 5 → n = (a + 5) / 10.
Proof.
  intros Ha Hclose Hmid.
  pose proof (Z.div_mod a 10 ltac:(lia)) as Hdm.
  pose proof (Z.mod_pos_bound a 10 ltac:(lia)) as Hr.
  pose proof (Z.div_mod (a + 5) 10 ltac:(lia)) as Hdm'.
  pose proof (Z.mod_pos_bound (a + 5) 10 ltac:(lia)) as Hr'.
  lia.
Qed.

Example toFixed2_samples :
  thousandth_toFixed2 1005 = "1.00" ∧ thousandth_toFixed2 125 = "0.13"
  ∧ thousandth_toFixed2 2500 = "2.50" ∧ thousandth_toFixed2 0 = "0.00"
  ∧ thousandth_toFixed2 (-4) = "-0.00" ∧ thousandth_toFixed2 61234 = "61.23".
Proof. repeat split; reflexivity. Qed.

End JsNumberFacts.

Module PathFacts.

Import JsString JsStringFacts Path.

Example normalize_doc :
  normalize "/foo/bar//baz/asdf/quux/.." = "/foo/bar/baz/asdf"
  ∧ normalize "./a/../../b/" = "../b/" ∧ normalize "/.." = "/"
  ∧ normalize "a/.." = "." ∧ normalize "" = ".".
Proof. repeat split; reflexivity. Qed.

Example join_doc :
  join "/site/dist/" "site-report.log" = "/site/dist/site-report.log"
  ∧ join "/site/dist" "reports/seo.md" = "/site/dist/reports/seo.md"
  ∧ join "/site/dist/" "/tmp/abs.json" = "/site/dist/tmp/abs.json"
  ∧ join "/site/dist/" "../seo-report.md" = "/site/seo-report.md"
  ∧ join "" "" = ".".
Proof. repeat split; reflexivity. Qed.

Example dirname_doc :
  dirname "/foo/bar/baz/asdf/quux" = "/foo/bar/baz/asdf"
  ∧ dirname "/site/dist/site-report.log" = "/site/dist"
  ∧ dirname "/a" = "/" ∧ dirname "a" = "." ∧ dirname "/a/b/" = "/a"
  ∧ dirname "//a" = "//" ∧ dirname "/" = "/" ∧ dirname "a/b" = "a".
Proof. repeat split; reflexivity. Qed.

Example extname_doc :
  extname "index.html" = ".html" ∧ extname "index.coffee.md" = ".md"
  ∧ extname "index." = "." ∧ extname "index" = "" ∧ extname ".index" = ""
  ∧ extname ".index.md" = ".md" ∧ extname "/site/dist/site-report.log" = ".log"
  ∧ extname "/a.b/c" = "" ∧ extname ".." = "".
Proof. repeat split; reflexivity. Qed.

Lemma normStep_ok allow stack seg :
  no_char "/" seg → stack_ok allow stack → stack_ok allow (normStep allow stack seg).
Proof.
  intros Hseg (k & segs & -> & Hsegs & Hk). unfold normStep.
  case_decide as H1; [by exists k, segs |].
  case_decide as H2.
  - subst seg. destruct segs as [|top rest]; simpl.
    + destruct k as [|k]; simpl.
      * destruct allow; [by exists 1, [] | by exists 0, []].
      * destruct allow.
        -- exists (S (S k)), []. done.
        -- by specialize (Hk eq_refl).
    + apply Forall_cons in Hsegs as [(? & ? & ? & ?) Hrest].
      rewrite decide_False by done. by exists k, rest.
  - exists k, (seg :: segs). split_and!; [done | | done].
    constructor; [|done]. unfold proper. tauto.
Qed.

Lemma foldl_normStep_ok allow stack segs :
  Forall (no_char "/") segs → stack_ok allow stack →
  stack_ok allow (foldl (normStep allow) stack segs).
Proof.
  revert stack. induction segs as [|seg segs IH]; intros stack Hs Hst; [done |].
  apply Forall_cons in Hs as [Hseg Hs]. simpl.
  apply IH; [done |]. by apply normStep_ok.
Qed.

(** Without a [..] segment the scan only ever pushes. *)
Lemma foldl_normStep_push allow stack segs :
  ".." ∉ segs →
  ∃ pushed, foldl (normStep allow) stack segs = pushed ++ stack.
Proof.
  revert stack. induction segs as [|seg segs IH]; intros stack Hdd.
  - by exists [].
  - apply not_elem_of_cons in Hdd as [Hseg Hdd]. simpl.
    destruct (IH (normStep allow stack seg) Hdd) as [pushed ->].
    unfold normStep. case_decide; [by exists pushed |].
    rewrite decide_False by done.
    exists (pushed ++ [seg]). by rewrite <-app_assoc.
Qed.

(** Scanning an already resolved list of segments changes nothing. *)
Lemma foldl_normStep_resolved allow k segs :
  Forall proper segs → (allow = false → k = 0) →
  foldl (normStep allow) [] (replicate k ".." ++ reverse segs)
  = segs ++ replicate k "..".
Proof.
  intros Hsegs Hk. rewrite foldl_app.
  assert (Hdd : foldl (normStep allow) [] (replicate k "..") = replicate k "..").
  { destruct allow; [|by rewrite Hk].
    clear Hk. induction k as [|k IH] using nat_ind; [done |].
    rewrite replicate_S_end, foldl_app, IH. simpl.
    unfold normStep. rewrite decide_False by (intros [?|?]; done).
    rewrite decide_True by done.
    destruct k as [|k']; [done |]. simpl. f_equal.
    exact (replicate_S_end k' ".."). }
  rewrite Hdd. clear Hdd.
  induction Hsegs as [|seg segs (? & ? & ? & ?) Hsegs IH]; [done |].
  rewrite reverse_cons, foldl_app, IH. simpl. unfold normStep.
  rewrite decide_False by (intros [?|?]; done). by rewrite decide_False.
Qed.

Lemma normalizeString_idemp allow segs :
  Forall (no_char "/") segs →
  normalizeString allow (normalizeString allow segs) = normalizeString allow segs.
Proof.
  intros Hs. unfold normalizeString.
  destruct (foldl_normStep_ok allow [] segs Hs) as (k & ss & Heq & Hss & Hk).
  { by exists 0, []. }
  rewrite Heq, reverse_app, reverse_replicate.
  by rewrite foldl_normStep_resolved, reverse_app, reverse_replicate.
Qed.

Lemma normalizeString_proper allow segs :
  Forall (no_char "/") segs →
  Forall (λ seg, seg ≠ "" ∧ seg ≠ "." ∧ no_char "/" seg)
    (normalizeString allow segs).
Proof.
  intros Hs. unfold normalizeString.
  destruct (foldl_normStep_ok allow [] segs Hs) as (k & ss & -> & Hss & Hk).
  { by exists 0, []. }
  apply Forall_reverse, Forall_app. split.
  - eapply Forall_impl; [exact Hss |]. intros seg (? & ? & ? & ?). done.
  - apply Forall_replicate. done.
Qed.

Lemma normalizeString_skip allow segs :
  normalizeString allow ("" :: segs) = normalizeString allow segs.
Proof. done. Qed.

Lemma normalizeString_skip_end allow segs :
  normalizeString allow (segs ++ [""]) = normalizeString allow segs.
Proof. unfold normalizeString. by rewrite foldl_app. Qed.

Lemma join_empty (pieces : list string) :
  Forall (λ seg, seg ≠ "" ∧ seg ≠ "." ∧ no_char "/" seg) pieces →
  JsString.join "/" pieces = "" → pieces = [].
Proof.
  unfold JsString.join. destruct pieces as [|x [|y l]]; [done | |].
  - intros [[? _] _]%Forall_cons. simpl. done.
  - intros [[Hx _] _]%Forall_cons. rewrite concat_cons_cons.
    destruct x; [done |]. by rewrite append_cons.
Qed.

Lemma isAbsolute_body (pieces : list string) rest :
  Forall (λ seg, seg ≠ "" ∧ seg ≠ "." ∧ no_char "/" seg) pieces →
  JsString.join "/" pieces ≠ "" →
  isAbsolute (JsString.join "/" pieces +:+ rest) = false.
Proof.
  unfold JsString.join, isAbsolute.
  destruct pieces as [|x l]; [by intros _ [] |].
  intros [(Hx & _ & Hns) _]%Forall_cons _.
  destruct x as [|a x]; [done |]. destruct Hns as [Ha _].
  destruct l; simpl String.concat; rewrite ?append_cons;
    by rewrite startsWith_char, bool_decide_eq_false_2.
Qed.

Lemma split_components_no_slash p : Forall (no_char "/") (split "/" p).
Proof. apply split_no_char. Qed.

(** [normalize] keeps what a path denotes. *)
Lemma components_normalize p : components (normalize p) = components p.
Proof.
  unfold normalize. case_decide as Hp; [by subst p |].
  pose proof (normalizeString_proper (negb (isAbsolute p)) (split "/" p)
                (split_components_no_slash p)) as Hprop.
  fold (components p) in Hprop.
  case_decide as Hbody.
  - rewrite (join_empty _ Hprop Hbody).
    by destruct (isAbsolute p), (endsWithSlash p).
  - assert (Hne : components p ≠ []) by (by intros Hnil; rewrite Hnil in Hbody).
    assert (Hns : Forall (no_char "/") (components p)).
    { eapply Forall_impl; [exact Hprop |]. by intros seg (_ & _ & ?). }
    assert (Hsplit : split "/" (JsString.join "/" (components p)) = components p)
      by (by apply split_join).
    unfold components at 1.
    destruct (isAbsolute p) eqn:Habs.
    + rewrite append_cons, append_nil_l.
      assert (isAbsolute (String "/" (JsString.join "/" (components p)
                +:+ (if endsWithSlash p then "/" else ""))) = true) as ->
        by (unfold isAbsolute; by rewrite startsWith_char).
      rewrite split_char_cons, decide_True, normalizeString_skip by done.
      destruct (endsWithSlash p).
      * rewrite split_app_sep, split_char_nil, normalizeString_skip_end, Hsplit.
        unfold components. rewrite Habs. apply normalizeString_idemp, split_no_char.
      * rewrite append_nil_r, Hsplit.
        unfold components. rewrite Habs. apply normalizeString_idemp, split_no_char.
    + rewrite append_nil_l, isAbsolute_body by done.
      destruct (endsWithSlash p).
      * rewrite split_app_sep, split_char_nil, normalizeString_skip_end, Hsplit.
        unfold components. rewrite Habs. apply normalizeString_idemp, split_no_char.
      * rewrite append_nil_r, Hsplit.
        unfold components. rewrite Habs. apply normalizeString_idemp, split_no_char.
Qed.

(** Joining a path without [..] segments under a directory stays inside
    that directory. *)
Lemma join_inside d r :
  r ≠ "" → ".." ∉ split "/" r → inside d (Path.join d r).
Proof.
  intros Hr Hdd. unfold inside, Path.join.
  destruct d as [|a d].
  { apply prefix_nil. }
  destruct r as [|b r]; [done |].
  cbn [List.filter String.eqb negb].
  change (JsString.join "/" [String a d; String b r])
    with (String a d +:+ String "/" (String b r)).
  rewrite components_normalize. unfold components.
  assert (isAbsolute (String a d +:+ String "/" (String b r))
          = isAbsolute (String a d)) as ->.
  { unfold isAbsolute. by rewrite append_cons, !startsWith_char. }
  rewrite split_app_sep. unfold normalizeString. rewrite foldl_app.
  destruct (foldl_normStep_push (negb (isAbsolute (String a d)))
              (foldl (normStep (negb (isAbsolute (String a d)))) []
                 (split "/" (String a d)))
              (split "/" (String b r)) Hdd) as [pushed ->].
  rewrite reverse_app. by apply prefix_app_r.
Qed.

(** Strings as lists of characters. *)
Lemma list_of_append s t :
  String.list_ascii_of_string (s +:+ t)
  = String.list_ascii_of_string s ++ String.list_ascii_of_string t.
Proof.
  induction s as [|a s IH]; [done |].
  rewrite append_cons. simpl. by rewrite IH.
Qed.

Lemma no_char_list c s :
  no_char c s ↔ Forall (λ a, a ≠ c) (String.list_ascii_of_string s).
Proof.
  induction s as [|a s IH]; simpl; [by split; [constructor |] |].
  rewrite Forall_cons, IH. done.
Qed.

Lemma dropWhile_all {A} (f : A → bool) l1 l2 :
  Forall (λ x, f x = true) l1 → dropWhile f (l1 ++ l2) = dropWhile f l2.
Proof. induction 1 as [|x l1 Hx _ IH]; simpl; [done |]. by rewrite Hx. Qed.

Lemma dropWhile_stop {A} (f : A → bool) x l :
  f x = false → dropWhile f (x :: l) = x :: l.
Proof. simpl. by intros ->. Qed.

Lemma takeWhile_all {A} (f : A → bool) l1 l2 :
  Forall (λ x, f x = true) l1 → takeWhile f (l1 ++ l2) = l1 ++ takeWhile f l2.
Proof. induction 1 as [|x l1 Hx _ IH]; simpl; [done |]. by rewrite Hx, IH. Qed.

Lemma length_dropWhile {A} (f : A → bool) l :
  length (dropWhile f l) ≤ length l.
Proof. induction l as [|x l IH]; simpl; [done |]. destruct (f x); simpl; lia. Qed.

Lemma take_dropWhile {A} (f : A → bool) l :
  take (length l - length (dropWhile f l)) l = takeWhile f l.
Proof.
  induction l as [|x l IH]; [done |]. simpl. destruct (f x) eqn:Hx.
  - pose proof (length_dropWhile f l).
    replace (S (length l) - length (dropWhile f l))
      with (S (length l - length (dropWhile f l))) by lia.
    simpl. by rewrite IH.
  - simpl. by rewrite Nat.sub_diag.
Qed.

Lemma Forall_dropWhile {A} (P : A → Prop) (f : A → bool) l :
  Forall P l → Forall P (dropWhile f l).
Proof.
  induction 1 as [|x l Hx Hl IH]; simpl; [constructor |].
  destruct (f x); [done | by constructor].
Qed.

Lemma Forall_takeWhile {A} (P : A → Prop) (f : A → bool) l :
  Forall P l → Forall P (takeWhile f l).
Proof.
  induction 1 as [|x l Hx Hl IH]; simpl; [constructor |].
  destruct (f x); by constructor.
Qed.

Lemma takeWhile_holds {A} (f : A → bool) l :
  Forall (λ x, f x = true) (takeWhile f l).
Proof.
  induction l as [|x l IH]; simpl; [constructor |].
  destruct (f x) eqn:Hx; by constructor.
Qed.

Lemma not_slash a : negb (is_slash a) = true ↔ a ≠ "/"%char.
Proof.
  unfold is_slash. case_bool_decide; simpl; split; try done.
Qed.

Lemma not_dot a : negb (is_dot a) = true ↔ a ≠ "."%char.
Proof.
  unfold is_dot. case_bool_decide; simpl; split; try done.
Qed.

(** The last component of a path that ends in a file name. *)
Lemma lastComponent_file dir file :
  file ≠ "" → no_char "/" file →
  ∃ before,
    String.list_ascii_of_string (lastComponent (dir +:+ file))
    = before ++ String.list_ascii_of_string file
    ∧ Forall (λ a, a ≠ "/"%char) before.
Proof.
  intros Hne Hfile. apply no_char_list in Hfile.
  unfold lastComponent. rewrite list_of_append, reverse_app.
  assert (Hrev : Forall (λ c, negb (is_slash c) = true)
                   (reverse (String.list_ascii_of_string file))).
  { apply Forall_reverse. eapply Forall_impl; [exact Hfile |].
    intros a Ha. by apply not_slash. }
  destruct (reverse (String.list_ascii_of_string file)) as [|c back] eqn:Hback.
  { apply (f_equal reverse) in Hback. rewrite reverse_involutive in Hback.
    destruct file; done. }
  assert (Hc : is_slash c = false).
  { apply Forall_cons in Hrev as [Hc _]. by apply negb_true_iff in Hc. }
  rewrite <-app_comm_cons, dropWhile_stop by done.
  rewrite take_dropWhile, app_comm_cons, takeWhile_all by done.
  rewrite String.list_ascii_of_string_of_list_ascii, reverse_app, <-Hback.
  rewrite reverse_involutive. eexists. split; [done |].
  apply Forall_reverse. eapply Forall_impl; [apply takeWhile_holds |].
  intros a Ha. by apply not_slash.
Qed.

(** [extname] of a path whose file name has a stem and an extension. *)
Lemma extname_file dir stem ext :
  stem ≠ "" → no_char "/" stem →
  ext ≠ "" → no_char "/" ext → no_char "." ext →
  extname (dir +:+ stem +:+ "." +:+ ext) = "." +:+ ext.
Proof.
  intros Hstem Hs Hext He Hdot.
  assert (Hfile : no_char "/" (stem +:+ "." +:+ ext)).
  { apply no_char_list. rewrite !list_of_append. rewrite !Forall_app.
    split_and!; [by apply no_char_list | by repeat constructor
                | by apply no_char_list]. }
  assert (Hne : stem +:+ "." +:+ ext ≠ "") by (by destruct stem).
  destruct (lastComponent_file dir _ Hne Hfile) as (before & Hbase & _).
  rewrite !list_of_append in Hbase. simpl in Hbase.
  apply no_char_list in Hdot.
  assert (Hlen_stem : 0 < length (String.list_ascii_of_string stem))
    by (destruct stem; [done | simpl; lia]).
  assert (Hlen_ext : 0 < length (String.list_ascii_of_string ext))
    by (destruct ext; [done | simpl; lia]).
  unfold extname. rewrite Hbase.
  rewrite !reverse_app, reverse_cons, <-!app_assoc.
  rewrite takeWhile_all.
  2:{ apply Forall_reverse. eapply Forall_impl; [exact Hdot |].
      intros a Ha. by apply not_dot. }
  assert (takeWhile (λ c, negb (is_dot c))
            (["."%char] ++ reverse (String.list_ascii_of_string stem)
             ++ reverse before) = []) as -> by done.
  rewrite app_nil_r, length_reverse, !length_app. simpl length.
  rewrite bool_decide_false by lia.
  rewrite bool_decide_false by lia.
  rewrite bool_decide_false.
  2:{ intros Hdd. apply (f_equal String.list_ascii_of_string) in Hdd.
      rewrite Hbase in Hdd. apply (f_equal length) in Hdd.
      rewrite !length_app in Hdd. simpl in Hdd. lia. }
  rewrite reverse_involutive. simpl.
  by rewrite String.string_of_list_ascii_of_string.
Qed.

(** A path without a dot has no extension. *)
Lemma extname_no_dot p : no_char "." p → extname p = "".
Proof.
  intros Hp. apply no_char_list in Hp.
  assert (Hbase : Forall (λ a, a ≠ "."%char)
                    (String.list_ascii_of_string (lastComponent p))).
  { unfold lastComponent. rewrite String.list_ascii_of_string_of_list_ascii.
    by apply Forall_reverse, Forall_take, Forall_dropWhile, Forall_reverse. }
  unfold extname.
  rewrite <-(app_nil_r (reverse (String.list_ascii_of_string (lastComponent p)))).
  rewrite takeWhile_all.
  2:{ apply Forall_reverse. eapply Forall_impl; [exact Hbase |].
      intros a Ha. by apply not_dot. }
  simpl. rewrite !app_nil_r, length_reverse.
  by rewrite bool_decide_true.
Qed.

Lemma append_assoc (a b c : string) : (a +:+ b) +:+ c = a +:+ b +:+ c.
Proof. induction a as [|x a IH]; [done |]. by rewrite !append_cons, IH. Qed.

Lemma join_snoc sep (pieces : list string) piece :
  JsString.join sep (pieces ++ [piece])
  = (match pieces with [] => "" | _ => JsString.join sep pieces +:+ sep end)
    +:+ piece.
Proof.
  unfold JsString.join. induction pieces as [|a pieces IH]; [done |].
  destruct pieces as [|b pieces].
  - simpl. by rewrite append_assoc.
  - change (String.concat sep ((a :: b :: pieces) ++ [piece]))
      with (a +:+ sep +:+ String.concat sep ((b :: pieces) ++ [piece])).
    rewrite IH.
    change (String.concat sep (a :: b :: pieces))
      with (a +:+ sep +:+ String.concat sep (b :: pieces)).
    by rewrite !append_assoc.
Qed.

Lemma proper_pieces comps :
  Forall proper comps →
  Forall (λ seg, seg ≠ "" ∧ seg ≠ "." ∧ no_char "/" seg) comps.
Proof.
  intros Hall. eapply Forall_impl; [exact Hall |].
  by intros seg (? & ? & _ & ?).
Qed.

(** An absolute path in normal form denotes its segments. *)
Lemma components_absolute comps :
  Forall proper comps →
  normalizeString false (split "/" ("/" +:+ JsString.join "/" comps)) = comps.
Proof.
  intros Hall.
  assert (Hnorm : normalizeString false comps = comps).
  { unfold normalizeString.
    pose proof (foldl_normStep_resolved false 0 (reverse comps)) as Hres.
    simpl in Hres. rewrite reverse_involutive, app_nil_r in Hres.
    rewrite Hres; [by rewrite reverse_involutive | by apply Forall_reverse | done]. }
  change ("/" +:+ JsString.join "/" comps)
    with (String "/" (JsString.join "/" comps)).
  rewrite split_char_cons, decide_True by done.
  rewrite normalizeString_skip.
  destruct comps as [|c comps]; [done |].
  rewrite split_join; [done | done |].
  eapply Forall_impl; [exact Hall |]. by intros seg (_ & _ & _ & ?).
Qed.

Lemma endsWithSlash_append s t :
  t ≠ "" → endsWithSlash (s +:+ t) = endsWithSlash t.
Proof.
  intros Ht. induction s as [|a s IH]; [done |].
  rewrite append_cons. simpl. rewrite IH.
  destruct (s +:+ t) eqn:E; [|done].
  destruct s; [by rewrite append_nil_l in E | done].
Qed.

Lemma endsWithSlash_no_slash s : no_char "/" s → endsWithSlash s = false.
Proof.
  induction s as [|a s IH]; [done |]. intros [Ha Hs]. simpl.
  destruct s; [by rewrite bool_decide_false | by apply IH].
Qed.

Lemma endsWithSlash_absolute comps file :
  proper file →
  endsWithSlash ("/" +:+ JsString.join "/" (comps ++ [file])) = false.
Proof.
  intros (Hne & _ & _ & Hfile).
  rewrite join_snoc, <-append_assoc, endsWithSlash_append by done.
  by apply endsWithSlash_no_slash.
Qed.

(** [dirname] of an absolute path in normal form drops the last segment. *)
Lemma dirname_absolute comps file :
  Forall proper comps → proper file →
  dirname ("/" +:+ JsString.join "/" (comps ++ [file]))
  = "/" +:+ JsString.join "/" comps.
Proof.
  intros Hall (Hne & _ & _ & Hfile).
  apply no_char_list in Hfile.
  assert (Hrev : Forall (λ c, negb (is_slash c) = true)
                   (reverse (String.list_ascii_of_string file))).
  { apply Forall_reverse. eapply Forall_impl; [exact Hfile |].
    intros a Ha. by apply not_slash. }
  destruct (reverse (String.list_ascii_of_string file)) as [|c back] eqn:Hback.
  { apply (f_equal reverse) in Hback. rewrite reverse_involutive in Hback.
    destruct file; done. }
  assert (Hc : is_slash c = false).
  { apply Forall_cons in Hrev as [Hc _]. by apply negb_true_iff in Hc. }
  change ("/" +:+ JsString.join "/" (comps ++ [file]))
    with (String "/" (JsString.join "/" (comps ++ [file]))).
  unfold dirname. rewrite join_snoc, list_of_append, reverse_app, Hback.
  rewrite <-app_comm_cons, dropWhile_stop by done.
  rewrite app_comm_cons, dropWhile_all by done.
  destruct comps as [|d comps]; [done |].
  remember (JsString.join "/" (d :: comps)) as body eqn:Hbody.
  cbv iota. rewrite list_of_append, reverse_app.
  change (reverse (String.list_ascii_of_string "/")) with ["/"%char].
  rewrite <-app_comm_cons, app_nil_l, dropWhile_stop by done.
  destruct (reverse (String.list_ascii_of_string body)) as [|x before]
    eqn:Hbefore.
  { apply (f_equal reverse) in Hbefore. rewrite reverse_involutive in Hbefore.
    assert (body = "") as Hempty by (by destruct body).
    rewrite Hbody in Hempty.
    by apply join_empty in Hempty; [|apply proper_pieces]. }
  rewrite <-Hbefore, reverse_involutive.
  by rewrite String.string_of_list_ascii_of_string.
Qed.

End PathFacts.

Module SummaryFacts.

Import Registry Summary JsStringFacts.

Example sample_breakdown :
  breakdown sampleIssues =
  [ mkBlock "performance" (Some 5)
      [ mkEntry (Some 3) "performance: render blocking";
        mkEntry (Some 2) "performance: large inline script" ];
    mkBlock "metadata" (Some 1) [ mkEntry (Some 1) "metadata: missing title" ] ]
  ∧ totalSeoIssues sampleIssues = 7.
Proof. split; vm_compute; reflexivity. Qed.

Lemma countIssues_from (acc : nat * list string) (reg : SeoIssues) :
  foldl (λ acc e, (acc.1 + JsMap.size e.2, acc.2 ++ [categoryLine e.1 e.2]))
        acc reg
  = (acc.1 + sum_list_with (λ e, JsMap.size e.2) reg,
     acc.2 ++ ((λ e, categoryLine e.1 e.2) <$> reg)).
Proof.
  revert acc. induction reg as [|e reg IH]; intros [t cs]; csimpl.
  - by rewrite Nat.add_0_r, app_nil_r.
  - rewrite IH. csimpl. f_equal; [lia | by rewrite <-app_assoc].
Qed.

Lemma totalSeoIssues_sum reg :
  totalSeoIssues reg = sum_list_with (λ e, JsMap.size e.2) reg.
Proof. unfold totalSeoIssues, countIssues. by rewrite countIssues_from. Qed.

Lemma issueCategories_lines reg :
  issueCategories reg = (λ e, categoryLine e.1 e.2) <$> reg.
Proof. unfold issueCategories, countIssues. by rewrite countIssues_from. Qed.

Lemma sortIntoGroup_line groups category issuesMap :
  sortIntoGroup groups (categoryLine category issuesMap) =
  match findGroup (JsMap.keys groups) category with
  | Some g =>
      JsMap.set groups g
        (default [] (JsMap.get groups g) ++ [entryOf (category, issuesMap)])
  | None => groups
  end.
Proof.
  unfold sortIntoGroup, categoryLine. rewrite split_count_line.
  simpl hd. simpl tl. by rewrite join_split, parseInt_of_nat.
Qed.

Lemma findGroup_keys names category g :
  findGroup names category = Some g → g ∈ names.
Proof.
  unfold findGroup. intros [Hin _]%List.find_some. by apply list_elem_of_In.
Qed.

Lemma sortIntoGroup_keys groups category issuesMap :
  JsMap.keys (sortIntoGroup groups (categoryLine category issuesMap))
  = JsMap.keys groups.
Proof.
  rewrite sortIntoGroup_line.
  destruct (findGroup (JsMap.keys groups) category) as [g|] eqn:Hg; [|done].
  rewrite JsMapFacts.keys_set. apply findGroup_keys, JsMapFacts.get_Some_keys in Hg.
  unfold JsMap.has. by destruct Hg as [v ->].
Qed.

Lemma sortIntoGroup_get groups e g :
  JsMap.keys groups = groupNames →
  default [] (JsMap.get (sortIntoGroup groups (categoryLine e.1 e.2)) g)
  = default [] (JsMap.get groups g)
    ++ (if decide (groupOf e.1 = Some g) then [entryOf e] else []).
Proof.
  intros Hk. rewrite sortIntoGroup_line, Hk. fold (groupOf e.1).
  destruct (groupOf e.1) as [g'|] eqn:Hg.
  - destruct (decide (g' = g)) as [->|Hne].
    + rewrite decide_True by done. rewrite JsMapFacts.get_set_eq. by destruct e.
    + rewrite decide_False by congruence.
      by rewrite JsMapFacts.get_set_ne, app_nil_r.
  - rewrite decide_False by done. by rewrite app_nil_r.
Qed.

Lemma members_cons e reg g :
  members (e :: reg) g =
  (if decide (groupOf e.1 = Some g) then [entryOf e] else []) ++ members reg g.
Proof. unfold members. rewrite filter_cons. by case_decide. Qed.

Lemma members_app reg1 reg2 g :
  members (reg1 ++ reg2) g = members reg1 g ++ members reg2 g.
Proof. unfold members. by rewrite filter_app, fmap_app. Qed.

Lemma categoryGroups_from groups (reg : SeoIssues) :
  JsMap.keys groups = groupNames →
  ∀ g,
    default []
      (JsMap.get (foldl sortIntoGroup groups
                    ((λ e, categoryLine e.1 e.2) <$> reg)) g)
    = default [] (JsMap.get groups g) ++ members reg g.
Proof.
  revert groups. induction reg as [|e reg IH]; intros groups Hk g.
  - unfold members. simpl. by rewrite app_nil_r.
  - rewrite members_cons. csimpl.
    rewrite IH by (by rewrite sortIntoGroup_keys).
    rewrite sortIntoGroup_get by done. by rewrite <-app_assoc.
Qed.

Lemma categoryGroups_members reg g :
  default [] (JsMap.get (categoryGroups (issueCategories reg)) g)
  = members reg g.
Proof.
  unfold categoryGroups. rewrite issueCategories_lines.
  rewrite categoryGroups_from by done.
  assert (default [] (JsMap.get emptyGroups g) = []) as ->; [|done].
  unfold emptyGroups. simpl. repeat case_decide; done.
Qed.

(** The breakdown, read off the registry. *)
Lemma breakdown_members reg :
  breakdown reg =
  omap (λ g,
          match members reg g with
          | [] => None
          | found => Some (mkBlock g (foldl addCount (Some 0) found)
                                   (sortByCount found))
          end)
       groupDisplayOrder.
Proof.
  unfold breakdown, blocks. apply list_omap_ext, Forall2_same_length_lookup.
  split; [done |]. intros i g g' Hg Hg'. assert (g' = g) as -> by congruence.
  by rewrite categoryGroups_members.
Qed.

Lemma insertSorted_perm a l : insertSorted a l ≡ₚ a :: l.
Proof.
  induction l as [|b l IH]; simpl; [done |].
  destruct (keepsOrder a b); [done |]. rewrite IH. apply Permutation_swap.
Qed.

Lemma sortByCount_perm l : sortByCount l ≡ₚ l.
Proof.
  induction l as [|a l IH]; simpl; [done |].
  by rewrite insertSorted_perm, IH.
Qed.

Lemma keepsOrder_true a b x y :
  count a = Some x → count b = Some y → keepsOrder a b = true → y ≤ x.
Proof.
  unfold keepsOrder, compareCount. intros -> -> H.
  apply Z.leb_le in H. lia.
Qed.

Lemma keepsOrder_false a b x y :
  count a = Some x → count b = Some y → keepsOrder a b = false → x ≤ y.
Proof.
  unfold keepsOrder, compareCount. intros -> -> H.
  apply Z.leb_gt in H. lia.
Qed.

Lemma countGe_trans a b c : countGe a b → countGe b c → countGe a c.
Proof.
  intros (x & y & Ha & Hb & Hxy) (y' & z & Hb' & Hc & Hyz).
  exists x, z. split_and!; [done | done |].
  rewrite Hb in Hb'. injection Hb' as <-. lia.
Qed.

Lemma insertSorted_sorted a l :
  is_Some (count a) → Forall (λ e, is_Some (count e)) l →
  StronglySorted countGe l → StronglySorted countGe (insertSorted a l).
Proof.
  intros [x Hx] Hl Hs. induction Hs as [|b l Hs IH Hb]; simpl.
  - by repeat constructor.
  - apply Forall_cons in Hl as [[y Hy] Hl].
    destruct (keepsOrder a b) eqn:Hk.
    + assert (Hab : countGe a b).
      { exists x, y. split_and!; [done..|]. by eapply keepsOrder_true. }
      constructor; [by constructor |].
      constructor; [done |].
      eapply Forall_impl; [exact Hb |]. intros c Hc. by eapply countGe_trans.
    + constructor; [by apply IH |].
      rewrite insertSorted_perm. constructor; [|done].
      exists y, x. split_and!; [done..|]. by eapply keepsOrder_false.
Qed.

Lemma sortByCount_sorted l :
  Forall (λ e, is_Some (count e)) l → StronglySorted countGe (sortByCount l).
Proof.
  induction l as [|a l IH]; simpl; [constructor |].
  intros [Ha Hl]%Forall_cons. apply insertSorted_sorted; [done | | by apply IH].
  by rewrite sortByCount_perm.
Qed.

Lemma members_counted reg g : Forall (λ e, is_Some (count e)) (members reg g).
Proof. unfold members. apply Forall_fmap, Forall_true. by eexists. Qed.

Lemma members_groupOf reg g e :
  e ∈ members reg g → groupOf (category e) = Some g.
Proof.
  unfold members. intros (x & -> & Hx)%list_elem_of_fmap.
  by apply list_elem_of_filter in Hx as [? _].
Qed.

Lemma blockOf_Some reg g b :
  blockOf reg g = Some b →
  group b = g ∧ issues b = sortByCount (members reg g) ∧ members reg g ≠ [].
Proof.
  unfold blockOf. destruct (members reg g) eqn:E; [done |].
  by intros [= <-].
Qed.

Lemma blockOf_None reg g : blockOf reg g = None ↔ members reg g = [].
Proof. unfold blockOf. by destruct (members reg g). Qed.

Lemma breakdown_blockOf reg : breakdown reg = omap (blockOf reg) groupDisplayOrder.
Proof. apply breakdown_members. Qed.

Lemma groups_omap_blockOf reg (gs : list string) :
  group <$> omap (blockOf reg) gs = filter (λ g, members reg g ≠ []) gs.
Proof.
  induction gs as [|g gs IH]; [done |].
  csimpl. rewrite filter_cons. destruct (blockOf reg g) as [b|] eqn:Hb.
  - apply blockOf_Some in Hb as (<- & _ & Hne).
    rewrite decide_True by done. csimpl. by rewrite IH.
  - apply blockOf_None in Hb. rewrite decide_False by (by intros []). done.
Qed.

(** Two prefixes of one string: one is a prefix of the other. *)
Lemma prefix_comparable a b c :
  String.prefix a c = true → String.prefix b c = true →
  String.prefix a b = true ∨ String.prefix b a = true.
Proof.
  revert a b. induction c as [|x c IH]; intros [|y a] [|z b]; simpl;
    try done; try (by left); try (by right).
  destruct (ascii_dec y x) as [->|]; [|done].
  destruct (ascii_dec z x) as [->|]; [|done].
  destruct (ascii_dec x x); [|done]. apply IH.
Qed.

(** No group name starts with another. *)
Lemma groupNames_apart g g' :
  g ∈ groupNames → g' ∈ groupNames → String.prefix g g' = true → g = g'.
Proof.
  intros Hg Hg'.
  assert (Hall : Forall (λ a, Forall (λ b, String.prefix a b = true → a = b)
                                groupNames) groupNames).
  { repeat constructor; vm_compute; congruence. }
  rewrite Forall_forall in Hall. specialize (Hall g Hg).
  rewrite Forall_forall in Hall. by apply Hall.
Qed.

(** A category is filed under the one group name that it starts with. *)
Lemma groupOf_startsWith category g :
  g ∈ groupNames → JsString.startsWith category g = true →
  groupOf category = Some g.
Proof.
  intros Hg Hpre. unfold groupOf, findGroup.
  destruct (List.find _ groupNames) as [g'|] eqn:Hfind.
  - apply List.find_some in Hfind as [Hg'%list_elem_of_In Hpre'].
    unfold JsString.startsWith in *.
    destruct (prefix_comparable _ _ _ Hpre Hpre') as [H|H].
    + by rewrite (groupNames_apart g g').
    + by rewrite (groupNames_apart g' g).
  - apply list_elem_of_In in Hg.
    pose proof (List.find_none _ _ Hfind g Hg) as Hno. simpl in Hno. congruence.
Qed.

Lemma groupOf_in_names category g : groupOf category = Some g → g ∈ groupNames.
Proof. apply findGroup_keys. Qed.

Lemma groupNames_displayed g : g ∈ groupNames ↔ g ∈ groupDisplayOrder.
Proof.
  unfold groupNames, groupDisplayOrder, emptyGroups, JsMap.keys. simpl.
  rewrite !elem_of_cons, !elem_of_nil. tauto.
Qed.

Lemma elem_of_members reg g e :
  e ∈ members reg g ↔ ∃ x, x ∈ reg ∧ groupOf x.1 = Some g ∧ e = entryOf x.
Proof.
  unfold members. rewrite list_elem_of_fmap. split.
  - intros (x & -> & [? ?]%list_elem_of_filter). by exists x.
  - intros (x & ? & ? & ->). exists x. split; [done |].
    by apply list_elem_of_filter.
Qed.

Lemma elem_of_breakdown reg b :
  b ∈ breakdown reg ↔
  group b ∈ groupDisplayOrder ∧ blockOf reg (group b) = Some b.
Proof.
  rewrite breakdown_blockOf, list_elem_of_omap. split.
  - intros (g & Hg & Hb). pose proof (blockOf_Some _ _ _ Hb) as (<- & _). done.
  - intros [Hg Hb]. by exists (group b).
Qed.

(** The running sum of the group header adds up the counts. *)
Lemma foldl_addCount_members reg g acc :
  foldl addCount (Some acc) (members reg g)
  = Some (acc + sum_list_with (λ e, default 0 (count e)) (members reg g)).
Proof.
  unfold members. generalize (filter (λ e, groupOf e.1 = Some g) reg) as l.
  intros l. revert acc. induction l as [|x l IH]; intros acc; csimpl.
  - by rewrite Nat.add_0_r.
  - rewrite IH. f_equal. lia.
Qed.

Lemma sum_counts_members reg g :
  sum_list_with (λ e, default 0 (count e)) (members reg g)
  = sum_list_with (λ x, if decide (groupOf x.1 = Some g) then JsMap.size x.2 else 0)
      reg.
Proof.
  induction reg as [|x reg IH]; [done |].
  rewrite members_cons. rewrite sum_list_with_app. simpl. rewrite IH.
  case_decide; simpl; lia.
Qed.

Lemma sum_indicator (gs : list string) g0 n :
  NoDup gs → g0 ∈ gs →
  sum_list_with (λ g, if decide (Some g0 = Some g) then n else 0) gs = n.
Proof.
  induction 1 as [|g gs Hg Hnd IH]; [by intros ?%elem_of_nil |].
  intros [->|Hin]%elem_of_cons; simpl.
  - rewrite decide_True by done.
    assert (sum_list_with (λ g1, if decide (Some g = Some g1) then n else 0) gs = 0)
      as ->; [|lia].
    clear IH Hnd. induction gs as [|g1 gs IH]; [done |].
    apply not_elem_of_cons in Hg as [Hne Hg]. simpl.
    rewrite decide_False by congruence. by apply IH.
  - rewrite decide_False by (intros [= ->]; done). by rewrite IH.
Qed.

Lemma sum_group_indicator (gs : list string) (o : option string) n :
  NoDup gs → (∀ g, o = Some g → g ∈ gs) →
  sum_list_with (λ g, if decide (o = Some g) then n else 0) gs
  = match o with Some _ => n | None => 0 end.
Proof.
  intros Hnd Hin. destruct o as [g0|]; [by apply sum_indicator, Hin |].
  clear. induction gs as [|g gs IH]; [done |]. simpl.
  by rewrite ?decide_False.
Qed.

Lemma sum_list_with_plus {A} (f h : A → nat) (l : list A) :
  sum_list_with (λ x, f x + h x) l = sum_list_with f l + sum_list_with h l.
Proof. induction l as [|x l IH]; [done |]. simpl. rewrite IH. lia. Qed.

Lemma sum_list_with_same {A} (f h : A → nat) (l : list A) :
  (∀ x, f x = h x) → sum_list_with f l = sum_list_with h l.
Proof. intros Hfh. induction l as [|x l IH]; [done |]. simpl. by rewrite Hfh, IH. Qed.

Lemma blockOf_total reg g b :
  blockOf reg g = Some b →
  totalInGroup b = foldl addCount (Some 0) (members reg g).
Proof.
  unfold blockOf. destruct (members reg g) eqn:E; [done |]. by intros [= <-].
Qed.

(** The header totals of the groups shown, added up. *)
Lemma sum_blocks reg (gs : list string) :
  sum_list_with (λ b, default 0 (totalInGroup b)) (omap (blockOf reg) gs)
  = sum_list_with
      (λ g, sum_list_with (λ e, default 0 (count e)) (members reg g)) gs.
Proof.
  induction gs as [|g gs IH]; [done |]. csimpl.
  destruct (blockOf reg g) as [b|] eqn:Hb; csimpl.
  - rewrite IH. f_equal.
    by rewrite (blockOf_total _ _ _ Hb), foldl_addCount_members.
  - apply blockOf_None in Hb. by rewrite Hb.
Qed.

(** Every category of a group is counted under exactly one header. *)
Lemma sum_groups_registry reg (gs : list string) :
  NoDup gs → (∀ g, g ∈ groupNames → g ∈ gs) →
  sum_list_with
    (λ g, sum_list_with (λ e, default 0 (count e)) (members reg g)) gs
  = sum_list_with
      (λ x, match groupOf x.1 with Some _ => JsMap.size x.2 | None => 0 end)
      reg.
Proof.
  intros Hnd Hgs. induction reg as [|x reg IH].
  - simpl. clear. induction gs as [|g gs IH]; [done |]. simpl. by rewrite IH.
  - rewrite (sum_list_with_same _
      (λ g, (if decide (groupOf x.1 = Some g) then JsMap.size x.2 else 0)
            + sum_list_with (λ e, default 0 (count e)) (members reg g))).
    + rewrite sum_list_with_plus, IH. simpl. f_equal.
      apply sum_group_indicator; [done |].
      intros g Hg. by apply Hgs, groupOf_in_names with (category := x.1).
    + intros g. rewrite members_cons, sum_list_with_app.
      case_decide; simpl; lia.
Qed.

(** Stability: the insertion leaves the entries of one count in order. *)
Lemma filter_insertSorted n a l :
  is_Some (count a) → Forall (λ e, is_Some (count e)) l →
  filter (λ e, count e = Some n) (insertSorted a l)
  = filter (λ e, count e = Some n) (a :: l).
Proof.
  intros [x Hx] Hl. induction l as [|b l IH]; [done |].
  apply Forall_cons in Hl as [[y Hy] Hl]. simpl.
  destruct (keepsOrder a b) eqn:Hk; [done |].
  pose proof (keepsOrder_false a b x y Hx Hy Hk) as Hle.
  assert (x ≠ y).
  { intros ->. unfold keepsOrder, compareCount in Hk. rewrite Hx, Hy in Hk.
    apply Z.leb_gt in Hk. lia. }
  rewrite (filter_cons _ b), IH, !filter_cons by done.
  repeat case_decide; congruence.
Qed.

Lemma filter_sortByCount n l :
  Forall (λ e, is_Some (count e)) l →
  filter (λ e, count e = Some n) (sortByCount l)
  = filter (λ e, count e = Some n) l.
Proof.
  induction l as [|a l IH]; [done |]. intros [Ha Hl]%Forall_cons. simpl.
  rewrite filter_insertSorted; [| done | by rewrite sortByCount_perm].
  by rewrite !filter_cons, IH.
Qed.

(** The heads of the blocks as the summary prints them. *)
Lemma header_text g rest :
  g ∈ groupDisplayOrder →
  default "undefined" (JsMap.get groupEmojis g) +:+ " "
    +:+ JsString.capitalize g +:+ rest
  = default ""
      (JsMap.get
         [ ("performance", "⚡ Performance");
           ("accessibility", "♿ Accessibility");
           ("metadata", "📄 Metadata");
           ("crawlability", "🔍 Crawlability");
           ("linking", "🔗 Linking");
           ("technical", "🔧 Technical");
           ("content", "📝 Content");
           ("privacy", "🔒 Privacy");
           ("semantic", "🏗️ Semantic") ] g)
    +:+ rest.
Proof.
  unfold groupDisplayOrder.
  rewrite !elem_of_cons, elem_of_nil.
  intros [->|[->|[->|[->|[->|[->|[->|[->|[->|[]]]]]]]]]]; reflexivity.
Qed.

(** The blocks of the breakdown carry numbers. *)
Lemma breakdown_numbers reg b :
  b ∈ breakdown reg →
  totalInGroup b
  = Some (sum_list_with (λ e, default 0 (count e)) (issues b))
  ∧ Forall (λ e, is_Some (count e)) (issues b).
Proof.
  intros [_ Hb]%elem_of_breakdown. split.
  - rewrite (blockOf_total _ _ _ Hb), foldl_addCount_members.
    apply blockOf_Some in Hb as (_ & -> & _).
    by rewrite sortByCount_perm.
  - apply blockOf_Some in Hb as (_ & -> & _).
    rewrite sortByCount_perm. apply members_counted.
Qed.

End SummaryFacts.

Module FsFacts.

Import Fs.

Example mkdir_example :
  let fs := of_list [(["site"], Dir); (["site"; "dist"], Dir)] in
  match mkdirSync_recursive fs "/site/dist/reports/seo" with
  | inr fs' => lookup fs' ["site"; "dist"; "reports"] = Some Dir
               ∧ lookup fs' ["site"; "dist"; "reports"; "seo"] = Some Dir
  | inl _ => False
  end.
Proof. vm_compute. split; reflexivity. Qed.

Lemma lookup_insert_dir fs d q :
  lookup (mk (<[d := Dir]> (nodes fs)) (denied fs)) q =
  if decide (q = d) then Some Dir else lookup fs q.
Proof.
  unfold lookup. simpl. destruct q as [|x q].
  - by case_decide.
  - case_decide as Hq; [by rewrite Hq, lookup_insert_eq |].
    by rewrite lookup_insert_ne.
Qed.

(** The walk keeps every node and only adds directories. *)
Lemma mkdir_walk_keeps fs reached todo fs' :
  mkdir_walk fs reached todo = inr fs' →
  denied fs' = denied fs
  ∧ (∀ q n, lookup fs q = Some n → lookup fs' q = Some n)
  ∧ (∀ q, lookup fs' q = lookup fs q ∨ lookup fs' q = Some Dir).
Proof.
  revert fs reached. induction todo as [|seg todo IH]; intros fs reached; simpl.
  - intros [= <-]. auto.
  - destruct (lookup fs (reached ++ [seg])) as [[|data]|] eqn:Hd; [apply IH | done |].
    case_bool_decide; [done |]. intros Hw. apply IH in Hw as (Hden & Hkeep & Hnew).
    split_and!; [done | |].
    + intros q n Hq. apply Hkeep. rewrite lookup_insert_dir.
      case_decide; [congruence | done].
    + intros q. destruct (Hnew q) as [Hq|Hq]; [|by right].
      rewrite Hq, lookup_insert_dir. case_decide; auto.
Qed.

(** After the walk every directory on the way exists. *)
Lemma mkdir_walk_dirs fs reached todo fs' :
  mkdir_walk fs reached todo = inr fs' →
  ∀ k, 0 < k ≤ length todo → lookup fs' (reached ++ take k todo) = Some Dir.
Proof.
  revert fs reached. induction todo as [|seg todo IH]; intros fs reached; simpl.
  - intros _ k Hk. lia.
  - intros Hw k Hk.
    assert (Hfirst : lookup fs' (reached ++ [seg]) = Some Dir).
    { destruct (lookup fs (reached ++ [seg])) as [[|data]|] eqn:Hd; [| done |].
      - by apply mkdir_walk_keeps in Hw as (_ & Hkeep & _); apply Hkeep.
      - case_bool_decide; [done |].
        apply mkdir_walk_keeps in Hw as (_ & Hkeep & _). apply Hkeep.
        rewrite lookup_insert_dir. by rewrite decide_True. }
    destruct k as [|k]; [lia |]. simpl.
    destruct k as [|k]; [by rewrite take_0 |].
    rewrite (cons_middle seg), app_assoc.
    destruct (lookup fs (reached ++ [seg])) as [[|data]|] eqn:Hd; [| done |].
    + eapply IH; [exact Hw | simpl in *; lia].
    + case_bool_decide; [done |]. eapply IH; [exact Hw | simpl in *; lia].
Qed.

Lemma mkdirSync_recursive_dirs fs p fs' :
  mkdirSync_recursive fs p = inr fs' →
  ∀ k, k ≤ length (resolve p) → lookup fs' (take k (resolve p)) = Some Dir.
Proof.
  intros Hw k Hk. destruct k as [|k]; [by rewrite take_0 |].
  apply (mkdir_walk_dirs fs [] (resolve p) fs' Hw (S k)). lia.
Qed.

Lemma writeFileSync_written fs p data fs' :
  writeFileSync fs p data = inr fs' →
  lookup fs' (resolve p) = Some (File data)
  ∧ lookup fs (resolve p) ≠ Some Dir
  ∧ denied fs' = denied fs
  ∧ (∀ q, q ≠ resolve p → lookup fs' q = lookup fs q).
Proof.
  unfold writeFileSync. intros Hw.
  assert (Hr : resolve p ≠ [] ∧ lookup fs (resolve p) ≠ Some Dir
               ∧ fs' = mk (<[resolve p := File data]> (nodes fs)) (denied fs)).
  { destruct (resolve p) as [|x r] eqn:Hres; [done |].
    destruct (lookup fs (parent (x :: r))) as [[|?]|]; [| done..].
    destruct (lookup fs (x :: r)) as [[|?]|]; [done | |];
      repeat case_bool_decide; try done;
      destruct (Path.endsWithSlash p); try done;
      by injection Hw as <-. }
  destruct Hr as (Hne & Hnd & ->). split_and!; [| done | done |].
  - unfold lookup. simpl. destruct (resolve p); [done |].
    by rewrite lookup_insert_eq.
  - intros q Hq. unfold lookup. simpl. destruct q; [done |].
    by rewrite lookup_insert_ne.
Qed.

(** The walk succeeds when no file is in its way and it may write where
    it has to create a directory. *)
Lemma mkdir_walk_ok fs reached todo :
  (∀ k data, k ≤ length todo →
             lookup fs (reached ++ take k todo) ≠ Some (File data)) →
  (∀ k, k ≤ length todo → reached ++ take k todo ∉ denied fs) →
  ∃ fs', mkdir_walk fs reached todo = inr fs'.
Proof.
  revert fs reached. induction todo as [|seg todo IH]; intros fs reached Hfile Hden.
  { by eexists. }
  simpl.
  assert (Hstep : ∀ k, (reached ++ [seg]) ++ take k todo
                       = reached ++ take (S k) (seg :: todo)).
  { intros k. by rewrite <-app_assoc. }
  destruct (lookup fs (reached ++ [seg])) as [[|data]|] eqn:Hd.
  - apply IH.
    + intros k data Hk. rewrite Hstep. apply Hfile. simpl. lia.
    + intros k Hk. rewrite Hstep. apply Hden. simpl. lia.
  - exfalso. apply (Hfile 1 data); [simpl; lia |]. simpl. by rewrite take_0.
  - rewrite bool_decide_false.
    2:{ specialize (Hden 0). rewrite take_0, app_nil_r in Hden.
        apply Hden. lia. }
    apply IH.
    + intros k data Hk. rewrite lookup_insert_dir. case_decide; [done |].
      rewrite Hstep. apply Hfile. simpl. lia.
    + intros k Hk. simpl. rewrite Hstep. apply Hden. simpl. lia.
Qed.

(** The walk leaves alone what lies deeper than its destination. *)
Lemma mkdir_walk_below fs reached todo fs' q :
  mkdir_walk fs reached todo = inr fs' →
  length (reached ++ todo) < length q →
  lookup fs' q = lookup fs q.
Proof.
  revert fs reached. induction todo as [|seg todo IH]; intros fs reached; simpl.
  { by intros [= <-]. }
  intros Hw Hq.
  assert (Hlen : length ((reached ++ [seg]) ++ todo) < length q)
    by (by rewrite <-app_assoc).
  destruct (lookup fs (reached ++ [seg])) as [[|data]|] eqn:Hd; [| done |].
  - by eapply IH.
  - case_bool_decide; [done |].
    rewrite (IH _ _ Hw Hlen), lookup_insert_dir.
    rewrite decide_False; [done |]. intros ->.
    rewrite !length_app in Hq. simpl in Hq. lia.
Qed.

(** [writeFileSync] succeeds in a directory, on a path that names no
    directory, where it may write. *)
Lemma writeFileSync_ok fs p data :
  lookup fs (parent (resolve p)) = Some Dir →
  lookup fs (resolve p) ≠ Some Dir →
  resolve p ∉ denied fs →
  parent (resolve p) ∉ denied fs →
  Path.endsWithSlash p = false →
  ∃ fs', writeFileSync fs p data = inr fs'.
Proof.
  intros Hparent Hnodir Hden Hdenp Hslash. unfold writeFileSync.
  rewrite Hparent, Hslash.
  destruct (lookup fs (resolve p)) as [[|old]|]; [done | |];
    rewrite bool_decide_false by done; by eexists.
Qed.

End FsFacts.

Module ReportFacts.

Import World Report.

Section ReportFacts.

Variable formatReport :
  Registry.BrokenLinks → Registry.SeoIssues → ReportOptions → string + string.

(** Lay [generateReport] open, down to the calls into the world. *)
Ltac open_report :=
  unfold generateReport, afterMkdir, reportEvents, bind, dateNow,
    callFormatReport, existsSync, mkdirSync_recursive, writeFileSync,
    loggerInfo, ret, emit, setFs; simpl.

Lemma generateReport_ok b i options w w' :
  filePath options ≠ "" →
  generateReport formatReport b i options w = (w', inr tt) →
  ∃ reportData fs1 fs2,
    formatReport b i options = inr reportData
    ∧ afterMkdir options w fs1
    ∧ Fs.writeFileSync fs1 (filePath options) reportData = inr fs2
    ∧ w' = World.mk fs2 (clock w) (S (ticks w))
             (events w ++ reportEvents b i options w reportData).
Proof.
  intros Hpath%String.eqb_neq.
  open_report.
  destruct (formatReport b i options) as [reason|reportData]; [done |].
  rewrite Hpath. simpl.
  destruct (Fs.existsSync (fs w) (Path.dirname (filePath options))); simpl.
  - destruct (Fs.writeFileSync (fs w) (filePath options) reportData)
      as [e|fs2] eqn:Hw; [done |].
    intros [= <-]. exists reportData, (fs w), fs2.
    split_and!; [done.. |]. by rewrite <-!app_assoc.
  - destruct (Fs.mkdirSync_recursive (fs w) (Path.dirname (filePath options)))
      as [e|fs1] eqn:Hm; [done |]. simpl.
    destruct (Fs.writeFileSync fs1 (filePath options) reportData)
      as [e|fs2] eqn:Hw; [done |].
    intros [= <-]. exists reportData, fs1, fs2.
    split_and!; [done.. |]. by rewrite <-!app_assoc.
Qed.

(** Where a failure of [generateReport] comes from. *)
Lemma generateReport_failed b i options w w' e :
  generateReport formatReport b i options w = (w', inl e) →
  (∃ reason, formatReport b i options = inl reason ∧ e = FormatFailed reason)
  ∨ (∃ errno,
       Fs.mkdirSync_recursive (fs w) (Path.dirname (filePath options)) = inl errno
       ∧ e = MkdirFailed (Path.dirname (filePath options)) errno)
  ∨ (∃ fs1 reportData errno,
       formatReport b i options = inr reportData
       ∧ afterMkdir options w fs1
       ∧ Fs.writeFileSync fs1 (filePath options) reportData = inl errno
       ∧ e = WriteFailed (filePath options) errno).
Proof.
  open_report.
  destruct (formatReport b i options) as [reason|reportData].
  { intros [= <- <-]. left. by exists reason. }
  destruct (String.eqb (filePath options) ""); simpl; [done |].
  destruct (Fs.existsSync (fs w) (Path.dirname (filePath options))); simpl.
  - destruct (Fs.writeFileSync (fs w) (filePath options) reportData)
      as [errno|fs2] eqn:Hw; [|done].
    intros [= <- <-]. right; right. by exists (fs w), reportData, errno.
  - destruct (Fs.mkdirSync_recursive (fs w) (Path.dirname (filePath options)))
      as [errno|fs1] eqn:Hm; simpl.
    { intros [= <- <-]. right; left. by exists errno. }
    destruct (Fs.writeFileSync fs1 (filePath options) reportData)
      as [errno|fs2] eqn:Hw; [|done].
    intros [= <- <-]. right; right. by exists fs1, reportData, errno.
Qed.

(** The formatter is called once, on the registries handed over, and no
    event of the call precedes it. *)
Lemma generateReport_events b i options w w' outcome :
  generateReport formatReport b i options w = (w', outcome) →
  ∃ later, events w' = events w ++ EvFormat b i :: later
           ∧ Forall (λ ev, ∀ b' i', ev ≠ EvFormat b' i') later.
Proof.
  open_report.
  destruct (formatReport b i options) as [reason|reportData].
  { intros [= <- <-]. by exists []. }
  destruct (String.eqb (filePath options) ""); simpl.
  { intros [= <- <-]. eexists. rewrite <-app_assoc. split; [done |].
    by repeat constructor. }
  destruct (Fs.existsSync (fs w) (Path.dirname (filePath options))); simpl.
  - destruct (Fs.writeFileSync (fs w) (filePath options) reportData);
      intros [= <- <-]; eexists; rewrite <-!app_assoc; (split; [done |]);
      by repeat constructor.
  - destruct (Fs.mkdirSync_recursive (fs w) (Path.dirname (filePath options)));
      simpl.
    { intros [= <- <-]. eexists. rewrite <-!app_assoc. split; [done |].
      by repeat constructor. }
    destruct (Fs.writeFileSync _ (filePath options) reportData);
      intros [= <- <-]; eexists; rewrite <-!app_assoc; (split; [done |]);
      by repeat constructor.
Qed.

(** A failed [generateReport] has logged nothing and has at most created
    the report directory. *)
Lemma generateReport_failed_world b i options w w' e :
  generateReport formatReport b i options w = (w', inl e) →
  (fs w' = fs w
   ∨ Fs.mkdirSync_recursive (fs w) (Path.dirname (filePath options)) = inr (fs w'))
  ∧ (∀ reason, e = FormatFailed reason →
       fs w' = fs w ∧ events w' = events w ++ [EvFormat b i])
  ∧ ∃ evs, events w' = events w ++ evs
           ∧ Forall (λ ev, ∀ entry, ev ≠ EvLog entry) evs.
Proof.
  open_report.
  destruct (formatReport b i options) as [reason|reportData].
  { intros [= <- <-]. simpl. split_and!; [by left | done |].
    eexists. split; [done |]. by repeat constructor. }
  destruct (String.eqb (filePath options) ""); simpl; [done |].
  destruct (Fs.existsSync (fs w) (Path.dirname (filePath options))); simpl.
  - destruct (Fs.writeFileSync (fs w) (filePath options) reportData)
      as [errno|fs2] eqn:Hw; [|done].
    intros [= <- <-]. simpl. split_and!; [by left | done |].
    eexists. rewrite <-!app_assoc. split; [done |]. by repeat constructor.
  - destruct (Fs.mkdirSync_recursive (fs w) (Path.dirname (filePath options)))
      as [errno|fs1] eqn:Hm; simpl.
    { intros [= <- <-]. simpl. split_and!; [by left | done |].
      eexists. rewrite <-!app_assoc. split; [done |]. by repeat constructor. }
    destruct (Fs.writeFileSync fs1 (filePath options) reportData)
      as [errno|fs2] eqn:Hw; [|done].
    intros [= <- <-]. simpl. split_and!; [by right | done |].
    eexists. rewrite <-!app_assoc. split; [done |]. by repeat constructor.
Qed.

(** The calls that [generateReport] makes. *)
Lemma generateReport_calls b i options w w' outcome :
  generateReport formatReport b i options w = (w', outcome) →
  ∃ evs, events w' = events w ++ evs
         ∧ Forall (Hook.reportOnly (filePath options)) evs
         ∧ Hook.progressLines evs = [].
Proof.
  open_report.
  destruct (formatReport b i options) as [reason|reportData].
  { intros [= <- <-]. eexists. split; [done |]. split; [|done].
    by repeat constructor. }
  destruct (String.eqb (filePath options) ""); simpl.
  { intros [= <- <-]. eexists. rewrite <-!app_assoc. split; [done |].
    split; [|done]. by repeat constructor. }
  destruct (Fs.existsSync (fs w) (Path.dirname (filePath options))); simpl.
  - destruct (Fs.writeFileSync (fs w) (filePath options) reportData);
      intros [= <- <-]; eexists; rewrite <-!app_assoc; (split; [done |]);
      (split; [|done]); by repeat constructor.
  - destruct (Fs.mkdirSync_recursive (fs w) (Path.dirname (filePath options)));
      simpl.
    { intros [= <- <-]. eexists. rewrite <-!app_assoc. split; [done |].
      split; [|done]. by repeat constructor. }
    destruct (Fs.writeFileSync _ (filePath options) reportData);
      intros [= <- <-]; eexists; rewrite <-!app_assoc; (split; [done |]);
      (split; [|done]); by repeat constructor.
Qed.

(** [generateReport] succeeds on a free path. *)
Lemma generateReport_free b i options w dirs file reportData :
  Report.filePath options = "/" +:+ JsString.join "/" (dirs ++ [file]) →
  Forall Path.proper dirs →
  Path.proper file →
  formatReport b i options = inr reportData →
  (∀ k data, k ≤ length dirs →
             Fs.lookup (World.fs w) (take k dirs) ≠ Some (Fs.File data)) →
  Fs.lookup (World.fs w) (dirs ++ [file]) ≠ Some Fs.Dir →
  (∀ k, take k (dirs ++ [file]) ∉ Fs.denied (World.fs w)) →
  ∃ w', Report.generateReport formatReport b i options w = (w', inr tt)
        ∧ Fs.lookup (World.fs w') (dirs ++ [file])
          = Some (Fs.File reportData).
Proof.
  intros Hpath Hdirs Hfile Hfmt Hway Hnodir Hden.
  assert (Hall : Forall Path.proper (dirs ++ [file]))
    by (apply Forall_app; split; [done | by constructor]).
  assert (Hr : Fs.resolve (Report.filePath options) = dirs ++ [file])
    by (rewrite Hpath; by apply PathFacts.components_absolute).
  assert (Hdir : Path.dirname (Report.filePath options)
                 = "/" +:+ JsString.join "/" dirs)
    by (rewrite Hpath; by apply PathFacts.dirname_absolute).
  assert (Hrd : Fs.resolve (Path.dirname (Report.filePath options)) = dirs)
    by (rewrite Hdir; by apply PathFacts.components_absolute).
  assert (Hslash : Path.endsWithSlash (Report.filePath options) = false)
    by (rewrite Hpath; by apply PathFacts.endsWithSlash_absolute).
  assert (Hne : Report.filePath options ≠ "") by (by rewrite Hpath).
  assert (Hdd : ∀ k, k ≤ length dirs → take k dirs ∉ Fs.denied (World.fs w)).
  { intros k Hk. rewrite <-(take_app_le dirs [file]) by done. apply Hden. }
  assert (Hmkdir : ∃ fs1,
    Fs.mkdirSync_recursive (World.fs w)
      (Path.dirname (Report.filePath options)) = inr fs1).
  { unfold Fs.mkdirSync_recursive. rewrite Hrd.
    by apply FsFacts.mkdir_walk_ok. }
  assert (Hwrite : ∀ fs1,
    Report.afterMkdir options w fs1 →
    ∃ fs2, Fs.writeFileSync fs1 (Report.filePath options) reportData
           = inr fs2).
  { intros fs1 Hfs1. unfold Report.afterMkdir, Fs.existsSync in Hfs1.
    rewrite Hrd in Hfs1.
    assert (Hready : Fs.lookup fs1 dirs = Some Fs.Dir
                     ∧ Fs.lookup fs1 (dirs ++ [file])
                       = Fs.lookup (World.fs w) (dirs ++ [file])
                     ∧ Fs.denied fs1 = Fs.denied (World.fs w)).
    { destruct (Fs.lookup (World.fs w) dirs) as [[|data]|] eqn:Hd.
      - by subst fs1.
      - by destruct (Hway (length dirs) data ltac:(lia)); rewrite firstn_all.
      - pose proof (FsFacts.mkdirSync_recursive_dirs _ _ _ Hfs1 (length dirs))
          as Hmade.
        rewrite Hrd, firstn_all in Hmade. split_and!; [by apply Hmade | |].
        + eapply FsFacts.mkdir_walk_below; [exact Hfs1 |].
          rewrite Hrd, !length_app. simpl. lia.
        + by apply FsFacts.mkdir_walk_keeps in Hfs1 as (? & _). }
    destruct Hready as (Hparent & Hsame & Hdenied).
    apply FsFacts.writeFileSync_ok; rewrite ?Hr, ?Hdenied, ?Hsame;
      unfold Fs.parent; rewrite ?removelast_last; try done.
    - specialize (Hden (S (length dirs))).
      by rewrite take_ge in Hden by (rewrite length_app; simpl; lia).
    - pose proof (Hdd (length dirs) ltac:(lia)) as Hparent'.
      by rewrite firstn_all in Hparent'. }
  destruct (Report.generateReport formatReport b i options w)
    as [w' [e|[]]] eqn:Hgen.
  - exfalso.
    destruct (generateReport_failed _ _ _ _ _ _ Hgen)
      as [(reason & Hf & _)|[(errno & Hm & _)|(fs1 & data & errno & Hf & Hfs1 & Hw & _)]].
    + congruence.
    + destruct Hmkdir as (fs1 & Hfs1). congruence.
    + assert (data = reportData) as -> by congruence.
      destruct (Hwrite fs1 Hfs1) as (fs2 & Hfs2). congruence.
  - exists w'. split; [done |].
    destruct (generateReport_ok _ _ _ _ _ Hne Hgen)
      as (data & fs1 & fs2 & Hf & _ & Hw & ->).
    assert (data = reportData) as -> by congruence.
    apply FsFacts.writeFileSync_written in Hw as (Hfiled & _).
    by rewrite Hr in Hfiled.
Qed.

End ReportFacts.

End ReportFacts.

Module HookFacts.

Import World Hook.

Lemma normalize_nonempty p : Path.normalize p ≠ "".
Proof.
  unfold Path.normalize. case_decide; [done |].
  case_decide as Hbody.
  - by destruct (Path.isAbsolute p), (Path.endsWithSlash p).
  - destruct (Path.isAbsolute p); [done |].
    rewrite JsStringFacts.append_nil_l.
    destruct (JsString.join "/" (Path.components p)); done.
Qed.

Lemma join_nonempty a b : Path.join a b ≠ "".
Proof.
  unfold Path.join. destruct (List.filter _ _); [done |].
  apply normalize_nonempty.
Qed.

Section HookFacts.

Variable runPhases : string → string → string → string → Analysis.

Variable normalizeHtmlFilePath : string → string → string.

Variable formatReport :
  Registry.BrokenLinks → Registry.SeoIssues → Report.ReportOptions
  → string + string.

Abbreviation step := (Hook.step formatReport).

Abbreviation steps := (Hook.steps formatReport).

Abbreviation start := (Hook.start runPhases normalizeHtmlFilePath).

Abbreviation startTasks := (Hook.startTasks runPhases normalizeHtmlFilePath).
Abbreviation reported := (Hook.reported formatReport).

(** A task starts running or rejected by a failed read, never fulfilled. *)
Lemma startTasks_spec distPath htmlFiles w :
  let r := startTasks distPath htmlFiles w in
  fs r.1 = fs w
  ∧ length r.2 = length htmlFiles
  ∧ Forall (λ task,
      (∃ rest, task = Running rest)
      ∨ (∃ htmlFile errno,
           htmlFile ∈ htmlFiles
           ∧ Fs.readFileSync (fs w) (Path.join distPath htmlFile) = inl errno
           ∧ task = Rejected (ReadFailed (Path.join distPath htmlFile) errno)))
      r.2.
Proof.
  revert w. induction htmlFiles as [|f others0 IH]; intros w; simpl.
  - split_and!; [done | done | constructor].
  - unfold Hook.startTask, World.readFileSync.
    destruct (Fs.readFileSync (fs w) (Path.join distPath f)) as [errno|data] eqn:Hread.
    + specialize (IH (emit (EvRead (Path.join distPath f)) w)).
      destruct (startTasks distPath others0 _) as [w2 others]. simpl in *.
      destruct IH as (Hfs & Hlen & Hall). split_and!; [done | by rewrite Hlen |].
      constructor.
      * right. exists f, errno. split_and!; [by left | done | done].
      * eapply Forall_impl; [exact Hall |]. intros t [?|(f' & en & ? & ? & ?)]; [by left |].
        right. exists f', en. split_and!; [by right | done | done].
    + specialize (IH (emit (EvRead (Path.join distPath f)) w)).
      destruct (startTasks distPath others0 _) as [w2 others]. simpl in *.
      destruct IH as (Hfs & Hlen & Hall). split_and!; [done | by rewrite Hlen |].
      constructor.
      * left. by eexists.
      * eapply Forall_impl; [exact Hall |]. intros t [?|(f' & en & ? & ? & ?)]; [by left |].
        right. exists f', en. split_and!; [by right | done | done].
Qed.

Lemma settled_stuck options n s l s' : settled s → ¬ step options n s l s'.
Proof.
  intros [Hall Hst] Hstep. rewrite Forall_lookup in Hall.
  inversion Hstep; subst; try (by apply Hst);
    match goal with H : tasks s !! _ = Some _ |- _ => by apply Hall in H end.
Qed.

Lemma step_length options n s l s' :
  step options n s l s' → length (tasks s') = length (tasks s).
Proof. inversion 1; subst; simpl; by rewrite ?length_insert. Qed.

Lemma steps_length options n s ls s' :
  steps options n s ls s' → length (tasks s') = length (tasks s).
Proof.
  induction 1 as [|s ls s1 l s2 _ IH Hstep]; [done |].
  by rewrite (step_length _ _ _ _ _ Hstep).
Qed.

(** A task is fulfilled only by its own [LResolved] step. *)
Lemma steps_fulfilled options n s ls s' i :
  steps options n s ls s' →
  tasks s' !! i = Some Fulfilled →
  tasks s !! i = Some Fulfilled ∨ LResolved i ∈ ls.
Proof.
  induction 1 as [|s ls s1 l s2 _ IH Hstep]; [by left |].
  intros Hi. rewrite elem_of_app, list_elem_of_singleton.
  assert (tasks s1 !! i = Some Fulfilled ∨ l = LResolved i) as [H1|H1].
  { inversion Hstep; subst; simpl in Hi; auto;
      match goal with
      | Hi : <[?j := _]> _ !! i = Some Fulfilled |- _ =>
          destruct (decide (j = i)) as [->|Hne];
          [|rewrite list_lookup_insert_ne in Hi by done; by left]
      end;
      match goal with
      | H : tasks s1 !! i = Some _ |- _ =>
          apply lookup_lt_Some in H;
          rewrite list_lookup_insert_eq in Hi by done
      end; try done; by right. }
  - destruct (IH H1); auto.
  - auto.
Qed.

(** Once the report step is in the run, the run is over. *)
Lemma steps_report_settled options n s ls s' :
  steps options n s ls s' → LReport ∈ ls → settled s'.
Proof.
  induction 1 as [|s ls s1 l s2 Hsteps IH Hstep]; [by intros ?%elem_of_nil |].
  intros [Hin|Hin%list_elem_of_singleton]%elem_of_app.
  - by apply IH, settled_stuck with (options := options) (n := n) (l := l) (s' := s2) in Hin.
  - subst l. inversion Hstep; subst. split; simpl; [done |].
    by destruct outcome.
Qed.

Lemma steps_report_last options n s ls s' before after :
  steps options n s ls s' → ls = before ++ LReport :: after → after = [].
Proof.
  intros Hsteps. revert before after.
  induction Hsteps as [|s ls s1 l s2 Hsteps IH Hstep]; intros before after Hls.
  - by destruct before.
  - destruct after as [|a after _] using rev_ind; [done |].
    exfalso. rewrite app_comm_cons, app_assoc in Hls.
    apply app_inj_tail in Hls as [-> ->].
    eapply settled_stuck; [|exact Hstep].
    eapply steps_report_settled; [exact Hsteps |].
    apply elem_of_app. right. by left.
Qed.

Lemma steps_snoc_inv options n s ls l s' :
  steps options n s (ls ++ [l]) s' →
  ∃ s1, steps options n s ls s1 ∧ step options n s1 l s'.
Proof.
  intros Hsteps. remember (ls ++ [l]) as all eqn:Heq.
  destruct Hsteps as [|s ls0 s1 l0 s2 Hsteps Hstep].
  - by destruct ls.
  - apply app_inj_tail in Heq as [-> ->]. by exists s1.
Qed.

(** The state in which the hook reaches [await Promise.all(...)]. *)
Lemma start_spec integration distPath htmlFiles w :
  let s0 := (start integration distPath htmlFiles w).1 in
  let options := (start integration distPath htmlFiles w).2 in
  status s0 = Awaiting
  ∧ shared s0 = registries integration
  ∧ Report.filePath options = Path.join distPath (reportFilePath integration)
  ∧ length (tasks s0) = length htmlFiles
  ∧ Forall (λ task,
      (∃ rest, task = Running rest)
      ∨ (∃ htmlFile errno,
           htmlFile ∈ htmlFiles
           ∧ Fs.readFileSync (fs w) (Path.join distPath htmlFile) = inl errno
           ∧ task = Rejected (ReadFailed (Path.join distPath htmlFile) errno)))
      (tasks s0).
Proof.
  unfold Hook.start. simpl.
  match goal with
  | |- context [Hook.startTasks _ _ distPath htmlFiles ?w2] =>
      pose proof (startTasks_spec distPath htmlFiles w2) as Hspec;
      destruct (startTasks distPath htmlFiles w2) as [w3 started]
  end.
  simpl in *. destruct Hspec as (_ & Hlen & Hall). by split_and!.
Qed.

(** A rejected task was rejected by its read or by its analysis. *)
Lemma steps_rejected options n s ls s' i e :
  steps options n s ls s' →
  tasks s' !! i = Some (Rejected e) →
  tasks s !! i = Some (Rejected e) ∨ ∃ reason, e = PhaseFailed reason.
Proof.
  induction 1 as [|s ls s1 l s2 _ IH Hstep]; [by left |].
  intros Hi.
  assert (tasks s1 !! i = Some (Rejected e) ∨ ∃ reason, e = PhaseFailed reason)
    as [H1|H1]; [|by apply IH | by right].
  inversion Hstep; subst; simpl in Hi; auto;
    match goal with
    | Hi : <[?j := _]> _ !! i = Some _ |- _ =>
        destruct (decide (j = i)) as [->|Hne];
        [|rewrite list_lookup_insert_ne in Hi by done; by left]
    end;
    match goal with
    | H : tasks s1 !! i = Some _ |- _ =>
        apply lookup_lt_Some in H;
        rewrite list_lookup_insert_eq in Hi by done
    end; try done.
  injection Hi as <-. right. by eexists.
Qed.

(** Where a failure of the hook comes from. *)
Lemma steps_failed options n s ls s' e :
  steps options n s ls s' →
  status s' = Failed e →
  status s = Failed e
  ∨ (∃ i, tasks s !! i = Some (Rejected e))
  ∨ (∃ reason, e = PhaseFailed reason)
  ∨ (∃ reason, e = FormatFailed reason)
  ∨ reportWriteFailure e.
Proof.
  induction 1 as [|s ls s1 l s2 Hsteps IH Hstep]; [by left |].
  intros Hst. inversion Hstep; subst; simpl in Hst; try (by apply IH).
  - injection Hst as ->.
    match goal with
    | H : tasks s1 !! ?i = Some (Rejected e) |- _ =>
        destruct (steps_rejected _ _ _ _ _ _ _ Hsteps H) as [?|?]
    end; [right; left; by eexists | by right; right; left].
  - destruct outcome as [e'|[]]; [|done]. injection Hst as ->.
    match goal with
    | H : Report.generateReport _ _ _ _ _ = _ |- _ =>
        apply ReportFacts.generateReport_failed in H
          as [(reason & _ & ->)|[(errno & _ & ->)|(? & ? & errno & _ & _ & _ & ->)]]
    end.
    + right; right; right; left. by eexists.
    + right; right; right; right. eexists _, errno. by left.
    + right; right; right; right. eexists _, errno. by right.
Qed.

Lemma steps_completed options n s ls s' :
  Report.filePath options ≠ "" →
  steps options n s ls s' →
  status s' = Completed →
  status s = Completed ∨ (settled s' ∧ reported options s').
Proof.
  intros Hpath. induction 1 as [|s ls s1 l s2 Hsteps IH Hstep]; [by left |].
  intros Hst. inversion Hstep; subst; simpl in Hst; try done.
  1-3: destruct (IH Hst) as [?|[Hset _]]; [by left |];
       exfalso; eapply settled_stuck; [exact Hset | exact Hstep].
  destruct outcome as [e'|[]]; [done |]. right. split; [by split |].
  match goal with
  | H : Report.generateReport _ _ _ _ _ = _ |- _ =>
      destruct (ReportFacts.generateReport_ok _ _ _ _ _ _ Hpath H)
        as (reportData & fs1 & fs2 & Hfmt & _ & Hwr & ->)
  end.
  apply FsFacts.writeFileSync_written in Hwr as (Hfile & _).
  exists reportData. eexists. split_and!; [done | done |].
  simpl. unfold Report.reportEvents. rewrite !last_app. simpl. reflexivity.
Qed.

(** Runs compose. *)
Lemma steps_app options n s ls1 s1 ls2 s2 :
  steps options n s ls1 s1 → steps options n s1 ls2 s2 →
  steps options n s (ls1 ++ ls2) s2.
Proof.
  intros H1 H2. induction H2 as [|s1 ls2 s2 l s3 _ IH Hstep].
  - by rewrite app_nil_r.
  - rewrite app_assoc. eapply Hook.steps_snoc; [by apply IH | done].
Qed.

(** A running task can be run to its end without touching the others. *)
Lemma task_runs_out options n (rest : Analysis) s i :
  tasks s !! i = Some (Running rest) →
  ∃ ls s', steps options n s ls s'
           ∧ status s' = status s
           ∧ length (tasks s') = length (tasks s)
           ∧ (∃ task, tasks s' !! i = Some task ∧ ended task)
           ∧ ∀ j, j ≠ i → tasks s' !! j = tasks s !! j.
Proof.
  revert s. induction rest as [|reason|update next IH]; intros s Hi.
  - eexists [_], _. split_and!.
    + eapply (Hook.steps_snoc _ _ _ _ []); [apply Hook.steps_nil |].
      by apply Hook.step_resolved.
    + done.
    + simpl. by rewrite length_insert.
    + exists Fulfilled. split; [|by left]. simpl.
      apply list_lookup_insert_eq. by eapply lookup_lt_Some.
    + intros j Hj. simpl. by rewrite list_lookup_insert_ne.
  - eexists [_], _. split_and!.
    + eapply (Hook.steps_snoc _ _ _ _ []); [apply Hook.steps_nil |].
      by eapply Hook.step_rejected.
    + done.
    + simpl. by rewrite length_insert.
    + eexists. split; [|right; by eexists]. simpl.
      apply list_lookup_insert_eq. by eapply lookup_lt_Some.
    + intros j Hj. simpl. by rewrite list_lookup_insert_ne.
  - pose proof (Hook.step_segment formatReport options n s i update next Hi) as Hstep.
    set (s1 := mkState (world s) (update (shared s))
                 (<[i := Running (next (shared s))]> (tasks s))
                 (pagesProcessed s) (status s) (firstRejected s)) in *.
    assert (Hi1 : tasks s1 !! i = Some (Running (next (shared s)))).
    { simpl. apply list_lookup_insert_eq. by eapply lookup_lt_Some. }
    destruct (IH (shared s) s1 Hi1) as (ls & s' & Hsteps & Hst & Hlen & Hend & Hframe).
    exists (LSegment i :: ls), s'. split_and!.
    + eapply (steps_app _ _ _ [_]); [|exact Hsteps].
      eapply (Hook.steps_snoc _ _ _ _ []); [apply Hook.steps_nil | exact Hstep].
    + by rewrite Hst.
    + rewrite Hlen. simpl. by rewrite length_insert.
    + done.
    + intros j Hj. rewrite Hframe by done. simpl.
      by rewrite list_lookup_insert_ne.
Qed.

(** The first rejected task among those that the [map] callback left. *)
Lemma firstRejectedFrom_Some k started j :
  firstRejectedFrom k started = Some j ↔
  ∃ i e, j = k + i
         ∧ started !! i = Some (Rejected e)
         ∧ ∀ i' e', i' < i → started !! i' ≠ Some (Rejected e').
Proof.
  revert k. induction started as [|task started IH]; intros k; simpl.
  { split; [done | by intros (i & e & _ & ? & _)]. }
  assert (Hrest : firstRejectedFrom (S k) started = Some j ↔
    ∃ i e, j = k + S i ∧ started !! i = Some (Rejected e)
           ∧ ∀ i' e', i' < i → started !! i' ≠ Some (Rejected e')).
  { rewrite IH. split; intros (i & e & -> & Hi & Hmin);
      exists i, e; (split; [lia | done]). }
  assert (Hskip : (∀ e, task ≠ Rejected e) →
    firstRejectedFrom (S k) started = Some j ↔
    ∃ i e, j = k + i ∧ (task :: started) !! i = Some (Rejected e)
           ∧ ∀ i' e', i' < i → (task :: started) !! i' ≠ Some (Rejected e')).
  { intros Htask. rewrite Hrest. split.
    - intros (i & e & -> & Hi & Hmin). exists (S i), e.
      split_and!; [done | done |]. intros [|i'] e' Hlt; simpl.
      + intros [= ->]. by eapply Htask.
      + apply Hmin. lia.
    - intros ([|i] & e & -> & Hi & Hmin); simpl in Hi.
      + injection Hi as ->. by destruct (Htask e).
      + exists i, e. split_and!; [done | done |].
        intros i' e' Hlt. apply (Hmin (S i') e'). lia. }
  destruct task as [rest| |e0]; [by apply Hskip | by apply Hskip |].
  split.
  - intros [= <-]. exists 0, e0. split_and!; [lia | done |]. intros; lia.
  - intros ([|i] & e & -> & Hi & Hmin); [f_equal; lia |].
    by destruct (Hmin 0 e0 ltac:(lia)).
Qed.

Lemma firstRejectedFrom_None k started :
  firstRejectedFrom k started = None ↔
  Forall (λ task, ∀ e, task ≠ Rejected e) started.
Proof.
  revert k. induction started as [|task started IH]; intros k; simpl.
  { split; [constructor | done]. }
  destruct task as [rest| |e0]; rewrite ?Forall_cons, ?IH.
  - split; [by split | by intros [_ ?]].
  - split; [by split | by intros [_ ?]].
  - split; [done | intros [Hne _]; by destruct (Hne e0)].
Qed.

(** [firstRejected] keeps naming a rejected task. *)
Lemma step_rejectionKept options n s l s' :
  step options n s l s' → rejectionKept s → rejectionKept s'.
Proof.
  unfold rejectionKept.
  inversion 1 as [? i ? ? Hi|? i Hi|? i ? Hi| |]; subst; simpl; try done.
  - destruct (firstRejected s) as [j|].
    + intros (e & Hj). exists e. rewrite list_lookup_insert_ne; [done |].
      intros ->. congruence.
    + intros Hall. apply Forall_insert; [done | done].
  - destruct (firstRejected s) as [j|].
    + intros (e & Hj). exists e. rewrite list_lookup_insert_ne; [done |].
      intros ->. congruence.
    + intros Hall. apply Forall_insert; [done | done].
  - destruct (firstRejected s) as [j|].
    + intros (e & Hj). exists e. rewrite list_lookup_insert_ne; [done |].
      intros ->. congruence.
    + intros _. eexists. apply list_lookup_insert_eq. by eapply lookup_lt_Some.
Qed.

Lemma steps_rejectionKept options n s ls s' :
  steps options n s ls s' → rejectionKept s → rejectionKept s'.
Proof.
  induction 1 as [|s ls s1 l s2 _ IH Hstep]; [done |].
  intros Hs. eapply step_rejectionKept; [exact Hstep | by apply IH].
Qed.

Lemma start_rejectionKept integration distPath htmlFiles w :
  rejectionKept (start integration distPath htmlFiles w).1.
Proof.
  unfold rejectionKept, Hook.start. simpl.
  destruct (startTasks distPath htmlFiles _) as [w3 started]. simpl.
  unfold firstRejectedOf.
  destruct (firstRejectedFrom 0 started) as [j|] eqn:Hfirst.
  - apply firstRejectedFrom_Some in Hfirst as (i & e & -> & Hi & _).
    by exists e.
  - by apply firstRejectedFrom_None in Hfirst.
Qed.

Lemma ended_cases (l : list Task) :
  Forall ended l →
  Forall (λ task, task = Fulfilled) l ∨ ∃ i e, l !! i = Some (Rejected e).
Proof.
  induction 1 as [|task l [->|[e ->]] _ [IH|(i & e' & IH)]].
  - by left.
  - left. by constructor.
  - right. by exists (S i), e'.
  - right. by exists 0, e.
  - right. by exists 0, e.
Qed.

(** Every task can be run to its end. *)
Lemma tasks_run_out options n s k :
  k ≤ length (tasks s) →
  ∃ ls s', steps options n s ls s'
           ∧ status s' = status s
           ∧ length (tasks s') = length (tasks s)
           ∧ Forall ended (take k (tasks s')).
Proof.
  induction k as [|k IH]; intros Hk.
  - exists [], s. split_and!; [apply Hook.steps_nil | done | done |].
    rewrite take_0. constructor.
  - destruct IH as (ls & s1 & Hsteps & Hst & Hlen & Hall); [lia |].
    destruct (lookup_lt_is_Some_2 (tasks s1) k) as [task Hk1]; [lia |].
    assert (Hgoal : ∀ s2, length (tasks s2) = length (tasks s1) →
      (∃ t, tasks s2 !! k = Some t ∧ ended t) →
      (∀ j, j ≠ k → tasks s2 !! j = tasks s1 !! j) →
      Forall ended (take (S k) (tasks s2))).
    { intros s2 Hlen2 (t & Ht & Hend) Hframe.
      rewrite (take_S_r _ _ _ Ht). apply Forall_app. split; [|by apply Forall_singleton].
      assert (take k (tasks s2) = take k (tasks s1)) as ->; [|done].
      apply list_eq. intros j. destruct (decide (j < k)).
      - rewrite !lookup_take_lt by done. apply Hframe. lia.
      - by rewrite !lookup_take_ge by lia. }
    destruct task as [rest| |e].
    + destruct (task_runs_out options n rest s1 k Hk1)
        as (ls2 & s2 & Hsteps2 & Hst2 & Hlen2 & Hend & Hframe).
      exists (ls ++ ls2), s2. split_and!; [by eapply steps_app | congruence | congruence |].
      by apply Hgoal.
    + exists ls, s1. split_and!; [done..|].
      apply Hgoal; [done | | done]. exists Fulfilled. split; [done | by left].
    + exists ls, s1. split_and!; [done..|].
      apply Hgoal; [done | | done]. eexists. split; [done | right; by eexists].
Qed.

(** The hook settles: from wherever a run stands it can go on until the
    promise of the hook is fulfilled or rejected. *)
Lemma steps_settle options n s :
  rejectionKept s →
  ∃ ls s', steps options n s ls s' ∧ status s' ≠ Awaiting.
Proof.
  intros Hkept.
  destruct (tasks_run_out options n s (length (tasks s)))
    as (ls & s1 & Hsteps & Hst & Hlen & Hall); [done |].
  pose proof (steps_rejectionKept _ _ _ _ _ Hsteps Hkept) as Hkept1.
  rewrite <-Hlen, firstn_all in Hall.
  destruct (status s1) eqn:Hst1; [| by exists ls, s1; rewrite Hst1..].
  destruct (ended_cases _ Hall) as [Hful|(i & e & Hi)].
  - destruct (Report.generateReport formatReport (brokenLinksMap (shared s1))
                (seoIssuesMap (shared s1)) options (world s1))
      as [w' outcome] eqn:Hgen.
    eexists (ls ++ [LReport]), _. split.
    + eapply Hook.steps_snoc; [exact Hsteps |].
      by eapply Hook.step_report.
    + simpl. by destruct outcome.
  - unfold rejectionKept in Hkept1.
    destruct (firstRejected s1) as [j|] eqn:Hfirst.
    + destruct Hkept1 as (e' & Hj).
      eexists (ls ++ [LPromiseAllRejected j]), _. split.
      * eapply Hook.steps_snoc; [exact Hsteps |].
        by eapply Hook.step_all_rejected.
      * done.
    + rewrite Forall_lookup in Hkept1. by destruct (Hkept1 i _ Hi e).
Qed.

(** The reads of [htmlFiles.map]: one for each document, in the order of
    the list, and nothing else. *)
Lemma startTasks_world distPath htmlFiles w :
  let r := startTasks distPath htmlFiles w in
  events r.1 = events w ++ ((λ f, EvRead (Path.join distPath f)) <$> htmlFiles)
  ∧ fs r.1 = fs w ∧ clock r.1 = clock w ∧ ticks r.1 = ticks w.
Proof.
  revert w. induction htmlFiles as [|f others0 IH]; intros w; simpl.
  - by rewrite app_nil_r.
  - unfold Hook.startTask, World.readFileSync.
    specialize (IH (emit (EvRead (Path.join distPath f)) w)).
    destruct (Fs.readFileSync (fs w) (Path.join distPath f));
      destruct (startTasks distPath others0 _) as [w2 others]; simpl in *;
      destruct IH as (-> & -> & -> & ->); by rewrite <-app_assoc.
Qed.

(** The task of the [i]-th document. *)
Lemma startTasks_lookup distPath htmlFiles w i htmlFile :
  htmlFiles !! i = Some htmlFile →
  (startTasks distPath htmlFiles w).2 !! i =
    Some (match Fs.readFileSync (fs w) (Path.join distPath htmlFile) with
          | inl errno =>
              Rejected (ReadFailed (Path.join distPath htmlFile) errno)
          | inr htmlContent =>
              Running (runPhases htmlContent
                         (normalizeHtmlFilePath
                            (Path.join distPath htmlFile) distPath)
                         (Path.join distPath htmlFile) distPath)
          end).
Proof.
  revert w i. induction htmlFiles as [|f others0 IH]; intros w i; [done |].
  simpl. unfold Hook.startTask, World.readFileSync.
  destruct i as [|i]; simpl.
  - intros [= ->].
    destruct (Fs.readFileSync (fs w) (Path.join distPath htmlFile));
      by destruct (startTasks distPath others0 _).
  - intros Hi.
    destruct (Fs.readFileSync (fs w) (Path.join distPath f));
      specialize (IH (emit (EvRead (Path.join distPath f)) w) i Hi);
      by destruct (startTasks distPath others0 _).
Qed.

(** A rejected task stays rejected. *)
Lemma step_keeps_rejected options n s l s' i e :
  step options n s l s' →
  tasks s !! i = Some (Rejected e) → tasks s' !! i = Some (Rejected e).
Proof.
  intros Hstep Hi. inversion Hstep; subst; simpl; try done;
    match goal with
    | H : tasks s !! ?j = Some _ |- _ =>
        destruct (decide (i = j)) as [->|];
          [congruence | by rewrite list_lookup_insert_ne]
    end.
Qed.

Lemma steps_keep_rejected options n s ls s' i e :
  steps options n s ls s' →
  tasks s !! i = Some (Rejected e) → tasks s' !! i = Some (Rejected e).
Proof.
  induction 1 as [|s ls s1 l s2 _ IH Hstep]; [done |].
  intros Hi. eapply step_keeps_rejected; [exact Hstep | by apply IH].
Qed.

(** The report is generated only when every task is fulfilled. *)
Lemma steps_rejected_no_report options n s ls s' i e :
  steps options n s ls s' →
  tasks s !! i = Some (Rejected e) → LReport ∉ ls.
Proof.
  induction 1 as [|s ls s1 l s2 Hsteps IH Hstep]; intros Hi.
  - apply not_elem_of_nil.
  - rewrite not_elem_of_app. split; [by apply IH |].
    rewrite list_elem_of_singleton. intros <-.
    pose proof (steps_keep_rejected _ _ _ _ _ _ _ Hsteps Hi) as Hi1.
    inversion Hstep as [| | | |? ? ? _ Hall]; subst.
    rewrite Forall_lookup in Hall. by apply Hall in Hi1.
Qed.

(** The status leaves [Awaiting] for [Completed] only by the report. *)
Lemma steps_completed_report options n s ls s' :
  steps options n s ls s' →
  status s = Awaiting → status s' = Completed → LReport ∈ ls.
Proof.
  induction 1 as [|s ls s1 l s2 Hsteps IH Hstep]; intros Hs Hc; [congruence |].
  rewrite elem_of_app, list_elem_of_singleton.
  inversion Hstep; subst; simpl in *; try (left; by apply IH);
    try discriminate.
  by right.
Qed.

(** What one step does to the environment. *)
Lemma step_calls options n s l s' :
  step options n s l s' →
  ∃ evs, events (world s') = events (world s) ++ evs
         ∧ Forall (reportOnly (Report.filePath options)) evs
         ∧ (l ≠ LReport → fs (world s') = fs (world s)).
Proof.
  inversion 1 as [| | | |? ? ? _ _ Hgen]; subst; simpl;
    try (exists []; by rewrite app_nil_r).
  - unfold progress. destruct (_ && _); simpl.
    + eexists. split; [done |]. split; [by repeat constructor | done].
    + exists []. by rewrite app_nil_r.
  - apply (ReportFacts.generateReport_calls formatReport) in Hgen
      as (evs & Hev & Hall & _).
    exists evs. by split_and!.
Qed.

Lemma steps_calls options n s ls s' :
  steps options n s ls s' →
  ∃ evs, events (world s') = events (world s) ++ evs
         ∧ Forall (reportOnly (Report.filePath options)) evs
         ∧ (LReport ∉ ls → fs (world s') = fs (world s)).
Proof.
  induction 1 as [|s ls s1 l s2 _ IH Hstep].
  { exists []. by rewrite app_nil_r. }
  destruct IH as (evs1 & Hev1 & Hall1 & Hfs1).
  apply step_calls in Hstep as (evs2 & Hev2 & Hall2 & Hfs2).
  exists (evs1 ++ evs2). split_and!.
  - by rewrite Hev2, Hev1, <-app_assoc.
  - by apply Forall_app.
  - rewrite not_elem_of_app, list_elem_of_singleton. intros [Hls Hl].
    rewrite Hfs2, Hfs1; [done | done | congruence].
Qed.

Lemma fulfilledCount_insert tasks i old new :
  tasks !! i = Some old →
  fulfilledCount (<[i := new]> tasks) + fulfilledCount [old]
  = fulfilledCount tasks + fulfilledCount [new].
Proof.
  unfold fulfilledCount. revert i.
  induction tasks as [|t tasks IH]; intros i; [done |].
  destruct i as [|i]; simpl.
  - intros [= ->]. lia.
  - intros Hi. specialize (IH i Hi). simpl in IH. lia.
Qed.

(** [pagesProcessed] counts the fulfilled tasks. *)
Lemma step_pagesProcessed options n s l s' :
  step options n s l s' →
  pagesProcessed s = fulfilledCount (tasks s) →
  pagesProcessed s' = fulfilledCount (tasks s').
Proof.
  inversion 1 as [? ? ? ? Hi|? ? Hi|? ? ? Hi| |]; subst; simpl; try done;
    intros Hp;
    match goal with
    | |- _ = fulfilledCount (<[_ := ?new]> _) =>
        apply (fulfilledCount_insert _ _ _ new) in Hi
    end; unfold fulfilledCount in *; simpl in *; lia.
Qed.

Lemma steps_pagesProcessed options n s ls s' :
  steps options n s ls s' →
  pagesProcessed s = fulfilledCount (tasks s) →
  pagesProcessed s' = fulfilledCount (tasks s').
Proof.
  induction 1 as [|s ls s1 l s2 _ IH Hstep]; [done |].
  intros Hp. eapply step_pagesProcessed; [exact Hstep | by apply IH].
Qed.

Lemma progressDue_S n p :
  progressDue n (S p)
  = progressDue n p
    ++ (if (50 <? n)%nat && (S p mod 10 =? 0)%nat then [(S p, n)] else []).
Proof.
  unfold progressDue. destruct (50 <? n)%nat; [rewrite andb_true_l | done].
  pose proof (Nat.div_mod_eq (S p) 10) as HS.
  pose proof (Nat.div_mod_eq p 10) as Hp.
  pose proof (Nat.mod_upper_bound (S p) 10 ltac:(lia)) as HSlt.
  pose proof (Nat.mod_upper_bound p 10 ltac:(lia)) as Hplt.
  destruct (S p mod 10 =? 0)%nat eqn:Hmod.
  - apply Nat.eqb_eq in Hmod.
    assert (S p / 10 = S (p / 10))%nat as Hq by lia.
    rewrite Hq, seq_S, fmap_app. f_equal.
    assert (10 * (1 + p / 10) = S p)%nat as Hten by lia.
    unfold fmap, list_fmap. by rewrite Hten.
  - apply Nat.eqb_neq in Hmod.
    assert (S p / 10 = p / 10)%nat as -> by lia.
    by rewrite app_nil_r.
Qed.

(** The progress lines of a run follow the count of scanned pages. *)
Lemma step_progress options n s l s' :
  step options n s l s' →
  ∃ lines, progressLines (events (world s'))
           = progressLines (events (world s)) ++ lines
           ∧ progressDue n (pagesProcessed s')
             = progressDue n (pagesProcessed s) ++ lines.
Proof.
  inversion 1 as [| | | |? ? ? _ _ Hgen]; subst; simpl;
    try (exists []; by rewrite !app_nil_r).
  - exists (if (50 <? n)%nat && (S (pagesProcessed s) mod 10 =? 0)%nat
            then [(S (pagesProcessed s), n)] else []).
    split; [|apply progressDue_S].
    unfold progress. destruct (_ && _); simpl.
    + unfold progressLines. by rewrite omap_app.
    + by rewrite app_nil_r.
  - apply (ReportFacts.generateReport_calls formatReport) in Hgen
      as (evs & Hev & _ & Hnone).
    exists []. rewrite Hev. unfold progressLines in *.
    by rewrite omap_app, Hnone, !app_nil_r.
Qed.

Lemma steps_progress options n s ls s' :
  steps options n s ls s' →
  ∃ lines, progressLines (events (world s'))
           = progressLines (events (world s)) ++ lines
           ∧ progressDue n (pagesProcessed s')
             = progressDue n (pagesProcessed s) ++ lines.
Proof.
  induction 1 as [|s ls s1 l s2 _ IH Hstep].
  { exists []. by rewrite !app_nil_r. }
  destruct IH as (lines1 & Hev1 & Hdue1).
  apply step_progress in Hstep as (lines2 & Hev2 & Hdue2).
  exists (lines1 ++ lines2).
  by rewrite Hev2, Hev1, Hdue2, Hdue1, <-!app_assoc.
Qed.

(** The hook at [await Promise.all]: the start message, one read for
    each document, the task of each document, nothing processed. *)
Lemma start_world integration distPath htmlFiles w :
  let s0 := (start integration distPath htmlFiles w).1 in
  events (world s0)
  = events w
    ++ EvLog (LogStart (length htmlFiles)
                (Phases.enabledPhases (phases integration))
                (JsString.join ", "
                   (Phases.enabledPhaseNames (phases integration))))
    :: ((λ f, EvRead (Path.join distPath f)) <$> htmlFiles)
  ∧ fs (world s0) = fs w
  ∧ pagesProcessed s0 = 0
  ∧ ∀ i htmlFile,
      htmlFiles !! i = Some htmlFile →
      tasks s0 !! i =
        Some (match Fs.readFileSync (fs w) (Path.join distPath htmlFile) with
              | inl errno =>
                  Rejected (ReadFailed (Path.join distPath htmlFile) errno)
              | inr htmlContent =>
                  Running (runPhases htmlContent
                             (normalizeHtmlFilePath
                                (Path.join distPath htmlFile) distPath)
                             (Path.join distPath htmlFile) distPath)
              end).
Proof.
  unfold Hook.start. simpl.
  match goal with
  | |- context [Hook.startTasks _ _ distPath htmlFiles ?w2] =>
      pose proof (startTasks_world distPath htmlFiles w2) as Hworld;
      pose proof (startTasks_lookup distPath htmlFiles w2) as Hlookup;
      destruct (startTasks distPath htmlFiles w2) as [w3 started]
  end.
  simpl in *. destruct Hworld as (Hev & Hfs & _ & _).
  split_and!; [by rewrite Hev, <-app_assoc | done | done | exact Hlookup].
Qed.

Lemma fulfilledCount_le tasks : fulfilledCount tasks ≤ length tasks.
Proof.
  unfold fulfilledCount.
  induction tasks as [|[| |] tasks IH]; simpl; lia.
Qed.

Lemma fulfilledCount_all tasks :
  Forall (λ task, task = Fulfilled) tasks →
  fulfilledCount tasks = length tasks.
Proof.
  unfold fulfilledCount. induction 1 as [|t tasks -> _ IH]; simpl; lia.
Qed.

Lemma fulfilledCount_none tasks :
  Forall (λ task, task ≠ Fulfilled) tasks → fulfilledCount tasks = 0.
Proof.
  unfold fulfilledCount.
  induction 1 as [|[| |] tasks Hne _ IH]; simpl; congruence.
Qed.

Lemma start_fulfilledCount integration distPath htmlFiles w :
  fulfilledCount (tasks (start integration distPath htmlFiles w).1) = 0.
Proof.
  apply fulfilledCount_none.
  destruct (start_spec integration distPath htmlFiles w)
    as (_ & _ & _ & _ & Hall).
  eapply Forall_impl; [exact Hall |].
  intros t [[rest ->]|(f & errno & _ & _ & ->)]; discriminate.
Qed.

(** Before the report the hook only logs its progress. *)
Lemma steps_before_report options n s ls s' :
  steps options n s ls s' →
  LReport ∉ ls →
  status s = Awaiting →
  status s' ≠ Completed
  ∧ ∃ evs, events (world s') = events (world s) ++ evs
           ∧ Forall (λ ev, ∃ processed total,
                       ev = EvLog (LogProgress processed total)) evs.
Proof.
  induction 1 as [|s ls s1 l s2 _ IH Hstep].
  { intros _ ->. split; [done |]. exists []. by rewrite app_nil_r. }
  rewrite not_elem_of_app, list_elem_of_singleton. intros [Hls Hl] Hst.
  destruct (IH Hls Hst) as (Hst1 & evs & Hev & Hall).
  inversion Hstep; subst; simpl; try (split; [done |]; by exists evs);
    try done.
  split; [done |]. unfold progress. destruct (_ && _); simpl.
  - exists (evs ++ [EvLog (LogProgress (S (pagesProcessed s1)) n)]).
    rewrite Hev, <-app_assoc. split; [done |].
    apply Forall_app. split; [done |]. repeat constructor. by eexists _, _.
  - by exists evs.
Qed.

Lemma progressLines_reads distPath htmlFiles :
  progressLines ((λ f, EvRead (Path.join distPath f)) <$> htmlFiles) = [].
Proof. by induction htmlFiles. Qed.

(** A run that goes on by one step that comes first. *)
Lemma steps_cons options n s l s1 ls s2 :
  step options n s l s1 →
  steps options n s1 ls s2 →
  steps options n s (l :: ls) s2.
Proof.
  intros Hstep Hsteps.
  apply (steps_app _ _ _ [l] s1); [|done].
  eapply (Hook.steps_snoc _ _ _ _ []); [apply Hook.steps_nil | done].
Qed.

(** The same runs, from a state and through states given in another
    form. *)
Lemma steps_from options n s0 s ls s' :
  s0 = s → steps options n s ls s' → steps options n s0 ls s'.
Proof. by intros ->. Qed.

Lemma steps_cons_eq options n s l s1 s1' ls s2 :
  step options n s l s1 →
  s1 = s1' →
  steps options n s1' ls s2 →
  steps options n s (l :: ls) s2.
Proof. intros Hstep ->. by apply steps_cons. Qed.

(** While the hook awaits, the clock is not read and no file is written. *)
Lemma steps_awaiting options n s ls s' :
  steps options n s ls s' →
  status s' = Awaiting →
  status s = Awaiting
  ∧ clock (world s') = clock (world s)
  ∧ ticks (world s') = ticks (world s)
  ∧ fs (world s') = fs (world s).
Proof.
  induction 1 as [|s ls s1 l s2 _ IH Hstep]; [done |].
  intros Hst.
  inversion Hstep as [| | | |? ? outcome]; subst; simpl in *; try done;
    try (by apply IH); [|by destruct outcome].
  destruct (IH Hst) as (? & ? & ? & ?). split_and!; [done | | |];
    unfold progress; by destruct (_ && _).
Qed.

(** The summary of a completed run: the time from the start of the hook
    to the start of [generateReport], and the registries as the analyses
    left them. *)
Lemma steps_summary options n s ls s' :
  Report.filePath options ≠ "" →
  steps options n s ls s' →
  status s = Awaiting →
  status s' = Completed →
  last (events (world s'))
  = Some (EvLog (LogSummary
       (Report.summaryForConsole
          (Report.elapsedText (Report.startTime options)
             (clock (world s) (ticks (world s))))
          (brokenLinksMap (shared s')) (seoIssuesMap (shared s'))
          options))).
Proof.
  intros Hpath Hsteps Hs0 Hst.
  destruct Hsteps as [|s ls s1 l s2 Hsteps Hstep]; [congruence |].
  inversion Hstep as [| | | |? w' outcome Hst1 Hall Hgen]; subst;
    simpl in Hst; try done.
  1-3: destruct (steps_completed _ _ _ _ _ Hpath Hsteps Hst)
         as [?|[Hset _]]; [congruence |];
       exfalso; eapply settled_stuck;
         [exact Hset | exact Hstep].
  destruct outcome as [e'|[]]; [done |].
  destruct (steps_awaiting _ _ _ _ _ Hsteps Hst1) as (_ & Hclock & Hticks & _).
  destruct (ReportFacts.generateReport_ok _ _ _ _ _ _ Hpath Hgen)
    as (reportData & fs1 & fs2 & _ & _ & _ & ->).
  simpl. unfold Report.reportEvents. rewrite !last_app. simpl.
  by rewrite Hclock, Hticks.
Qed.

(** The clock at [await Promise.all]: read once, for the start time. *)
Lemma start_clock integration distPath htmlFiles w :
  let s0 := (start integration distPath htmlFiles w).1 in
  let options := (start integration distPath htmlFiles w).2 in
  clock (world s0) = clock w
  ∧ ticks (world s0) = S (ticks w)
  ∧ options
    = Report.mkReportOptions
        (Path.join distPath (reportFilePath integration))
        (reportFormat integration) (clock w (ticks w)).
Proof.
  unfold Hook.start. simpl.
  match goal with
  | |- context [Hook.startTasks _ _ distPath htmlFiles ?w2] =>
      pose proof (startTasks_world distPath htmlFiles w2) as Hworld;
      destruct (startTasks distPath htmlFiles w2) as [w3 started]
  end.
  simpl in *. by destruct Hworld as (_ & _ & -> & ->).
Qed.

(** A failed run failed by a task that is rejected, or in
    [generateReport]. *)
Lemma steps_failed_cause options n s ls s' e :
  steps options n s ls s' →
  status s = Awaiting →
  status s' = Failed e →
  (∃ i, tasks s' !! i = Some (Rejected e))
  ∨ (∃ before s1 w',
       steps options n s before s1
       ∧ status s1 = Awaiting
       ∧ Report.generateReport formatReport
           (brokenLinksMap (shared s1)) (seoIssuesMap (shared s1))
           options (world s1) = (w', inl e)).
Proof.
  induction 1 as [|s ls s1 l s2 Hsteps IH Hstep]; [congruence |].
  intros Hs0 Hst.
  inversion Hstep as [| | |? i e' Hst1 Hi|? w' outcome Hst1 _ Hgen]; subst;
    simpl in Hst;
    try (destruct (IH Hs0 Hst) as [[j Hj]|Hreport]; [left | by right];
         exists j; by eapply step_keeps_rejected in Hj; [|exact Hstep]).
  - injection Hst as ->. left. by exists i.
  - destruct outcome as [e'|]; [|done]. injection Hst as ->.
    right. by exists ls, s1, w'.
Qed.

(** Tasks that resolve are never rejected. *)
Lemma step_promising options n s l s' :
  step options n s l s' →
  Forall promising (tasks s) → Forall promising (tasks s').
Proof.
  intros Hstep Hall.
  inversion Hstep as [? i update next Hi|? i Hi|? i reason Hi| |]; subst;
    simpl; try done.
  - apply Forall_insert; [done |]. rewrite Forall_lookup in Hall.
    destruct (Hall i _ Hi) as [?|(rest & [= <-] & Hres)]; [done |].
    right. eexists. split; [done |]. by inversion Hres.
  - apply Forall_insert; [done | by left].
  - rewrite Forall_lookup in Hall.
    destruct (Hall i _ Hi) as [?|(rest & [= <-] & Hres)]; [done |].
    inversion Hres.
Qed.

Lemma steps_promising options n s ls s' :
  steps options n s ls s' →
  Forall promising (tasks s) → Forall promising (tasks s').
Proof.
  induction 1 as [|s ls s1 l s2 _ IH Hstep]; [done |].
  intros Hall. eapply step_promising; [exact Hstep | by apply IH].
Qed.

(** On a site that can be read, with a formatter that returns and a free
    report path, a run fails by a rejected analysis only. *)
Lemma run_failed_by_analysis integration distPath htmlFiles w dirs file ls s e :
  (∀ htmlFile, htmlFile ∈ htmlFiles →
     ∃ htmlContent,
       Fs.readFileSync (fs w) (Path.join distPath htmlFile)
       = inr htmlContent) →
  (∀ b i options, ∃ reportData, formatReport b i options = inr reportData) →
  Path.join distPath (reportFilePath integration)
  = "/" +:+ JsString.join "/" (dirs ++ [file]) →
  Forall Path.proper dirs →
  Path.proper file →
  (∀ k data, k ≤ length dirs →
             Fs.lookup (fs w) (take k dirs) ≠ Some (Fs.File data)) →
  Fs.lookup (fs w) (dirs ++ [file]) ≠ Some Fs.Dir →
  (∀ k, take k (dirs ++ [file]) ∉ Fs.denied (fs w)) →
  steps (start integration distPath htmlFiles w).2 (length htmlFiles)
    (start integration distPath htmlFiles w).1 ls s →
  status s = Failed e →
  ∃ reason i,
    e = PhaseFailed reason
    ∧ tasks s !! i = Some (Rejected (PhaseFailed reason)).
Proof.
  intros Hreadable Hformat Hpath Hdirs Hfile Hway Hnodir Hden Hrun Hst.
  destruct (start_spec integration distPath htmlFiles w)
    as (Hst0 & _ & Hopt & _ & Hstart).
  destruct (start_world integration distPath htmlFiles w) as (_ & Hfs0 & _).
  destruct (steps_failed_cause _ _ _ _ _ _ Hrun Hst0 Hst)
    as [(i & Hi)|(before & s1 & w' & Hbefore & Hst1 & Hgen)].
  - destruct (steps_rejected _ _ _ _ _ _ _ Hrun Hi)
      as [Hi0|(reason & ->)]; [|by exists reason, i].
    rewrite Forall_lookup in Hstart.
    destruct (Hstart i _ Hi0)
      as [[rest Hrest]|(htmlFile & errno & Hin & Hread & _)]; [discriminate |].
    destruct (Hreadable htmlFile Hin) as (htmlContent & Hok). congruence.
  - exfalso.
    destruct (steps_awaiting _ _ _ _ _ Hbefore Hst1) as (_ & _ & _ & Hfs).
    rewrite Hfs0 in Hfs. rewrite <-Hopt in Hpath.
    destruct (Hformat (brokenLinksMap (shared s1)) (seoIssuesMap (shared s1))
                (start integration distPath htmlFiles w).2)
      as (reportData & Hfmt).
    rewrite <-Hfs in Hway, Hnodir, Hden.
    destruct (ReportFacts.generateReport_free formatReport _ _ _ _ _ _ _
                Hpath Hdirs Hfile Hfmt Hway Hnodir Hden) as (w'' & Hok & _).
    congruence.
Qed.

(** The tasks of a site that can be read, for analyses that resolve. *)
Lemma start_promising integration distPath htmlFiles w :
  (∀ htmlFile, htmlFile ∈ htmlFiles →
     ∃ htmlContent,
       Fs.readFileSync (fs w) (Path.join distPath htmlFile)
       = inr htmlContent) →
  (∀ htmlContent baseUrl path dist,
     resolves (runPhases htmlContent baseUrl path dist)) →
  Forall promising (tasks (start integration distPath htmlFiles w).1).
Proof.
  intros Hreadable Hresolves. apply Forall_lookup. intros i task Hi.
  destruct (start_spec integration distPath htmlFiles w)
    as (_ & _ & _ & Hlen & _).
  destruct (start_world integration distPath htmlFiles w)
    as (_ & _ & _ & Htasks).
  destruct (lookup_lt_is_Some_2 htmlFiles i) as [htmlFile Hfile].
  { rewrite <-Hlen. by eapply lookup_lt_Some. }
  rewrite (Htasks i htmlFile Hfile) in Hi.
  destruct (Hreadable htmlFile) as (htmlContent & Hok).
  { by eapply list_elem_of_lookup_2. }
  rewrite Hok in Hi. injection Hi as <-. right. eexists. by split.
Qed.

(** The outcome of the report step is the outcome of the hook. *)
Lemma steps_report_outcome options n s ls s' :
  steps options n s ls s' →
  LReport ∈ ls →
  ∃ w1 w' outcome,
    Report.generateReport formatReport
      (brokenLinksMap (shared s')) (seoIssuesMap (shared s')) options w1
    = (w', outcome)
    ∧ world s' = w'
    ∧ status s' = match outcome with inl e => Failed e | inr _ => Completed end.
Proof.
  intros Hsteps Hin. apply list_elem_of_split in Hin as (before & after & ->).
  pose proof (steps_report_last _ _ _ _ _ _ _ Hsteps eq_refl) as ->.
  apply steps_snoc_inv in Hsteps as (s1 & _ & Hstep).
  inversion Hstep as [| | | |? w' outcome _ _ Hgen]; subst. simpl.
  by exists (world s1), w', outcome.
Qed.

(** An analysis that has rejected leaves its task rejected. *)
Lemma steps_rejected_label options n s ls s' i :
  steps options n s ls s' →
  LRejected i ∈ ls →
  ∃ reason, tasks s' !! i = Some (Rejected (PhaseFailed reason)).
Proof.
  induction 1 as [|s ls s1 l s2 _ IH Hstep]; [by intros ?%elem_of_nil |].
  intros [Hin|Hin%list_elem_of_singleton]%elem_of_app.
  - destruct (IH Hin) as (reason & Hi). exists reason.
    by eapply step_keeps_rejected.
  - subst l. inversion Hstep as [| |? ? reason Hi| |]; subst. simpl.
    exists reason. apply list_lookup_insert_eq. by eapply lookup_lt_Some.
Qed.

(** As long as the hook awaits, a rejected task lets [Promise.all]
    reject, with the reason of the task rejected first. *)
Lemma rejected_can_fail options n s i e :
  rejectionKept s →
  status s = Awaiting →
  tasks s !! i = Some (Rejected e) →
  ∃ j e' s',
    step options n s (LPromiseAllRejected j) s'
    ∧ firstRejected s = Some j
    ∧ tasks s !! j = Some (Rejected e')
    ∧ status s' = Failed e'.
Proof.
  unfold rejectionKept. intros Hkept Hst Hi.
  destruct (firstRejected s) as [j|] eqn:Hfirst.
  - destruct Hkept as (e' & Hj). eexists j, e', _.
    split_and!; [by apply Hook.step_all_rejected | done | done | done].
  - rewrite Forall_lookup in Hkept. by destruct (Hkept i _ Hi e).
Qed.

(** Why a run has failed: a task is rejected with the error, or every
    task is fulfilled and [generateReport] threw it. *)
Lemma steps_failed_why options n s ls s' e :
  steps options n s ls s' →
  status s = Awaiting →
  status s' = Failed e →
  (∃ i, tasks s' !! i = Some (Rejected e)
        ∧ firstRejected s' = Some i
        ∧ LPromiseAllRejected i ∈ ls)
  ∨ (LReport ∈ ls
     ∧ Forall (λ task, task = Fulfilled) (tasks s')
     ∧ ((∃ reason,
           e = FormatFailed reason
           ∧ formatReport (brokenLinksMap (shared s'))
               (seoIssuesMap (shared s')) options = inl reason)
        ∨ reportWriteFailure e)).
Proof.
  induction 1 as [|s ls s1 l s2 Hsteps IH Hstep]; [congruence |].
  intros Hs0 Hst.
  assert (Hkeep : status s1 = Failed e →
    (∀ j, firstRejected s1 = Some j → firstRejected s2 = Some j) →
    (∃ i, tasks s2 !! i = Some (Rejected e)
          ∧ firstRejected s2 = Some i
          ∧ LPromiseAllRejected i ∈ ls ++ [l])
    ∨ (LReport ∈ ls ++ [l]
       ∧ Forall (λ task, task = Fulfilled) (tasks s2)
       ∧ ((∃ reason,
             e = FormatFailed reason
             ∧ formatReport (brokenLinksMap (shared s2))
                 (seoIssuesMap (shared s2)) options = inl reason)
          ∨ reportWriteFailure e))).
  { intros Hst1 Hfirst.
    destruct (IH Hs0 Hst1) as [(j & Hj & Hf & Hin)|(Hin & Hall & _)].
    - left. exists j. split_and!.
      + by eapply step_keeps_rejected.
      + by apply Hfirst.
      + apply elem_of_app. by left.
    - exfalso. eapply (settled_stuck options n s1 l s2); [|exact Hstep].
      split; [done | congruence]. }
  inversion Hstep as [| | |? i e' Hst1 Hfi Hi|? w' outcome Hst1 Hall Hgen];
    subst; simpl in Hst.
  - by apply Hkeep.
  - by apply Hkeep.
  - apply Hkeep; [done |]. simpl. by intros j ->.
  - injection Hst as ->. left. exists i. simpl. split_and!; [done | done |].
    apply elem_of_app. right. by left.
  - destruct outcome as [e'|]; [|done]. injection Hst as ->.
    right. simpl. split_and!; [apply elem_of_app; right; by left | done |].
    destruct (ReportFacts.generateReport_failed _ _ _ _ _ _ _ Hgen)
      as [(reason & Hf & ->)|[(errno & _ & ->)|(fs1 & data & errno & _ & _ & _ & ->)]].
    + left. by exists reason.
    + right. eexists _, errno. by left.
    + right. eexists _, errno. by right.
Qed.

(** The task that was rejected first stays the first. *)
Lemma steps_firstRejected options n s ls s' i :
  steps options n s ls s' →
  firstRejected s = Some i → firstRejected s' = Some i.
Proof.
  induction 1 as [|s ls s1 l s2 _ IH Hstep]; [done |].
  intros Hi. specialize (IH Hi).
  inversion Hstep; subst; simpl; try done. by rewrite IH.
Qed.

(** With a document that cannot be read, the first of them is the task
    rejected first. *)
Lemma start_firstRejected integration distPath htmlFiles w i htmlFile errno :
  htmlFiles !! i = Some htmlFile →
  Fs.readFileSync (fs w) (Path.join distPath htmlFile) = inl errno →
  (∀ j f, j < i → htmlFiles !! j = Some f →
     ∃ htmlContent,
       Fs.readFileSync (fs w) (Path.join distPath f) = inr htmlContent) →
  firstRejected (start integration distPath htmlFiles w).1 = Some i.
Proof.
  intros Hi Hread Hbefore.
  destruct (start_world integration distPath htmlFiles w)
    as (_ & _ & _ & Htasks).
  unfold Hook.start in *. simpl in *.
  destruct (startTasks distPath htmlFiles _) as [w3 started]. simpl in *.
  unfold firstRejectedOf. apply firstRejectedFrom_Some.
  exists i, (ReadFailed (Path.join distPath htmlFile) errno).
  split_and!; [done | by rewrite (Htasks i htmlFile Hi), Hread |].
  intros j e Hj Hrej.
  destruct (lookup_lt_is_Some_2 htmlFiles j) as [f Hf].
  { apply lookup_lt_Some in Hi. lia. }
  destruct (Hbefore j f Hj Hf) as (htmlContent & Hok).
  by rewrite (Htasks j f Hf), Hok in Hrej.
Qed.

(** The start message stays where the hook has logged it. *)
Lemma steps_events_prefix options n s ls s' :
  steps options n s ls s' →
  ∃ evs, events (world s') = events (world s) ++ evs.
Proof.
  intros Hsteps. apply steps_calls in Hsteps as (evs & Hev & _).
  by exists evs.
Qed.

End HookFacts.

End HookFacts.

(** * Properties of the integration *)

(** C1. In every run the Broken Link Registry holds a link at most once as
    a key, and maps it to exactly the distinct documents that reference
    it: the keys are the links of the findings, every referrer set is
    duplicate free and holds the documents reported for the link, and any
    reordering of the findings (and any repetition of a finding) gives a
    registry with the same keys and the same referrer sets. *)
Theorem broken_link_registry_dedup (findings : list (string * string)) :
  let reg := Registry.recordAll Registry.newBrokenLinks findings in
  NoDup (JsMap.keys reg)
  ∧ (∀ link, link ∈ JsMap.keys reg ↔ ∃ doc, (link, doc) ∈ findings)
  ∧ (∀ link, NoDup (Registry.referrers reg link))
  ∧ (∀ link doc, doc ∈ Registry.referrers reg link ↔ (link, doc) ∈ findings)
  ∧ (∀ findings',
       (∀ f, f ∈ findings' ↔ f ∈ findings) →
       let reg' := Registry.recordAll Registry.newBrokenLinks findings' in
       JsMap.keys reg' ≡ₚ JsMap.keys reg
       ∧ ∀ link, Registry.referrers reg' link ≡ₚ Registry.referrers reg link).
Proof.
  intros reg.
  assert (Hk : NoDup (JsMap.keys reg))
    by (apply RegistryFacts.NoDup_keys_recordAll, NoDup_nil_2).
  assert (Hwf : ∀ fs link,
    NoDup (Registry.referrers (Registry.recordAll Registry.newBrokenLinks fs) link)).
  { intros fs link. unfold Registry.referrers.
    destruct (JsMap.get _ link) as [docs|] eqn:Hg; [|apply NoDup_nil_2].
    eapply RegistryFacts.sets_wf_recordAll; [|exact Hg]. intros l ds. done. }
  assert (Hin : ∀ fs link doc,
    doc ∈ Registry.referrers (Registry.recordAll Registry.newBrokenLinks fs) link
    ↔ (link, doc) ∈ fs).
  { intros fs link doc. rewrite RegistryFacts.referrers_recordAll.
    unfold Registry.referrers. simpl. rewrite elem_of_nil. tauto. }
  assert (Hkeys : ∀ fs link,
    link ∈ JsMap.keys (Registry.recordAll Registry.newBrokenLinks fs)
    ↔ ∃ doc, (link, doc) ∈ fs).
  { intros fs link. rewrite RegistryFacts.keys_recordAll.
    unfold JsMap.keys. simpl. rewrite elem_of_nil. tauto. }
  split_and!; [done | apply Hkeys | apply Hwf | apply Hin |].
  intros findings' Hsame reg'. split.
  - apply NoDup_Permutation; [apply RegistryFacts.NoDup_keys_recordAll, NoDup_nil_2 | done |].
    intros link. unfold reg', reg. rewrite !Hkeys.
    split; intros [d Hd]; exists d; by apply Hsame.
  - intros link. apply NoDup_Permutation; [apply Hwf | apply Hwf |].
    intros doc. unfold reg', reg. rewrite !Hin. apply Hsame.
Qed.

(** Scenario A of the specification: [/a] and [/b] both link to the
    missing [/missing]. *)
Example scenario_two_referrers :
  Registry.recordAll Registry.newBrokenLinks
    [("/missing", "/a"); ("/missing", "/b"); ("/missing", "/a")]
  = [("/missing", ["/a"; "/b"])].
Proof. reflexivity. Qed.

(** C2. In every run of the hook the report step comes after the last
    step of every document analysis: when [generateReport] is called each
    task has resolved before, the call is the last step of the run, every
    task is fulfilled, and the formatter is handed the registries as
    they are at the end of the run. *)
Theorem report_after_all_analyses
  (runPhases : string → string → string → string → Hook.Analysis)
  (normalizeHtmlFilePath : string → string → string)
  (formatReport : Registry.BrokenLinks → Registry.SeoIssues
                  → Report.ReportOptions → string + string)
  (integration : Hook.Integration) (distPath : string)
  (htmlFiles : list string) (w : World.t)
  (ls before after : list Hook.Label) (s : Hook.State) :
  Hook.runs runPhases normalizeHtmlFilePath formatReport
    integration distPath htmlFiles w ls s →
  ls = before ++ Hook.LReport :: after →
  after = []
  ∧ (∀ i, i < length htmlFiles → Hook.LResolved i ∈ before)
  ∧ (Hook.LReport ∉ before)
  ∧ Forall (λ task, task = Hook.Fulfilled) (Hook.tasks s)
  ∧ ∃ earlier later,
      World.events (Hook.world s)
      = earlier
        ++ World.EvFormat (Hook.brokenLinksMap (Hook.shared s))
             (Hook.seoIssuesMap (Hook.shared s))
        :: later
      ∧ Forall (λ ev, ∀ b i, ev ≠ World.EvFormat b i) later.
Proof.
  unfold Hook.runs. intros Hrun Hls.
  pose proof (HookFacts.steps_report_last _ _ _ _ _ _ _ _ Hrun Hls) as ->.
  subst ls.
  destruct (HookFacts.steps_snoc_inv _ _ _ _ _ _ _ Hrun) as (s1 & Hbefore & Hstep).
  destruct (HookFacts.start_spec runPhases normalizeHtmlFilePath
              integration distPath htmlFiles w)
    as (_ & _ & _ & Hlen & Hstart).
  inversion Hstep as [| | | |? w' outcome Hst Hall Hgen]; subst.
  split_and!; [done | | | done |].
  - intros i Hi.
    assert (Hti : Hook.tasks s1 !! i = Some Hook.Fulfilled).
    { rewrite Forall_lookup in Hall.
      destruct (Hook.tasks s1 !! i) as [t|] eqn:Ht.
      - by rewrite (Hall i t Ht).
      - apply lookup_ge_None in Ht.
        rewrite (HookFacts.steps_length _ _ _ _ _ _ Hbefore), Hlen in Ht. lia. }
    destruct (HookFacts.steps_fulfilled _ _ _ _ _ _ i Hbefore Hti) as [H0|H0];
      [|done].
    rewrite Forall_lookup in Hstart.
    destruct (Hstart i _ H0) as [[rest Hrest]|(f & errno & _ & _ & Hrej)];
      discriminate.
  - intros Hin. apply list_elem_of_split in Hin as (b1 & b2 & ->).
    rewrite <-app_assoc in Hrun. simpl in Hrun.
    pose proof (HookFacts.steps_report_last _ _ _ _ _ _ _ _ Hrun eq_refl) as Hnil.
    by destruct b2.
  - simpl.
    destruct (ReportFacts.generateReport_events _ _ _ _ _ _ _ Hgen)
      as (later & Hev & Hlater).
    by exists (World.events (Hook.world s1)), later.
Qed.

(** A run of two documents whose analyses interleave. *)
Lemma report_after_all_analyses_witness :
  let runPhases := λ htmlContent baseUrl _ _,
    Hook.Await
      (λ sh, Hook.mkShared
               (Registry.addBrokenLink (Hook.brokenLinksMap sh) "/missing" baseUrl)
               (Hook.checkedLinks sh) (Hook.seoIssuesMap sh))
      (λ _, Hook.Resolved) in
  let normalizeHtmlFilePath := λ path _, path in
  let formatReport := λ _ _ _, inr "# SEO report" in
  let integration :=
    Hook.astroBrokenLinksChecker Phases.documented
      (Checker.mkOptions None (Some "site-report.log") None None) in
  let w := World.mk
             (Fs.of_list [(["site"], Fs.Dir); (["site"; "dist"], Fs.Dir);
                          (["site"; "dist"; "a.html"], Fs.File "<a href=/missing>");
                          (["site"; "dist"; "b.html"], Fs.File "<a href=/missing>")])
             (λ n, 1000 * Z.of_nat n)%Z 0 [] in
  let before := [Hook.LSegment 1; Hook.LSegment 0; Hook.LResolved 0;
                 Hook.LResolved 1] in
  ∃ s, Hook.runs runPhases normalizeHtmlFilePath formatReport integration
         "/site/dist/" ["a.html"; "b.html"] w (before ++ [Hook.LReport]) s
       ∧ Hook.status s = Hook.Completed
       ∧ Hook.brokenLinksMap (Hook.shared s)
         = [("/missing", ["/site/dist/b.html"; "/site/dist/a.html"])]
       ∧ Hook.LResolved 0 ∈ before ∧ Hook.LResolved 1 ∈ before.
Proof.
  intros runPhases normalizeHtmlFilePath formatReport integration w before.
  assert (Hrun : ∃ s,
    Hook.runs runPhases normalizeHtmlFilePath formatReport integration
      "/site/dist/" ["a.html"; "b.html"] w (before ++ [Hook.LReport]) s
    ∧ Hook.status s = Hook.Completed
    ∧ Hook.brokenLinksMap (Hook.shared s)
      = [("/missing", ["/site/dist/b.html"; "/site/dist/a.html"])]).
  { eexists. split.
    - unfold Hook.runs, before.
      eapply (Hook.steps_snoc _ _ _ _ [_; _; _; _]).
      + eapply (Hook.steps_snoc _ _ _ _ [_; _; _]).
        * eapply (Hook.steps_snoc _ _ _ _ [_; _]).
          -- eapply (Hook.steps_snoc _ _ _ _ [_]).
             ++ eapply (Hook.steps_snoc _ _ _ _ []); [apply Hook.steps_nil |].
                eapply Hook.step_segment. reflexivity.
             ++ eapply Hook.step_segment. reflexivity.
          -- eapply Hook.step_resolved. reflexivity.
        * eapply Hook.step_resolved. reflexivity.
      + eapply Hook.step_report; [reflexivity | by repeat constructor |].
        vm_compute. reflexivity.
    - split; reflexivity. }
  destruct Hrun as (s & Hrun & Hst & Hreg).
  exists s. split_and!; [exact Hrun | exact Hst | exact Hreg | |].
  - destruct (report_after_all_analyses _ _ _ _ _ _ _ _ before [] _ Hrun eq_refl)
      as (_ & Hres & _). apply (Hres 0). simpl. lia.
  - destruct (report_after_all_analyses _ _ _ _ _ _ _ _ before [] _ Hrun eq_refl)
      as (_ & Hres & _). apply (Hres 1). simpl. lia.
Defined.

(** C3, as stated, fails: a document that cannot be read rejects its task,
    [Promise.all] rejects with it and the hook fails with the read error,
    which is no failure of creating the report directory or of writing
    the report file. *)
Lemma read_failure_propagates :
  let runPhases := λ _ _ _ _, Hook.Resolved in
  let normalizeHtmlFilePath := λ path _, path in
  let formatReport := λ _ _ _, inr "# SEO report" in
  let integration :=
    Hook.astroBrokenLinksChecker Phases.documented
      (Checker.mkOptions None None None None) in
  let w := World.mk
             (Fs.mk (list_to_map
                       [(["site"], Fs.Dir); (["site"; "dist"], Fs.Dir);
                        (["site"; "dist"; "index.html"], Fs.File "<html>")])
                    {[ ["site"; "dist"; "index.html"] ]})
             (λ n, 1000 * Z.of_nat n)%Z 0 [] in
  ∃ s e,
    Hook.runs runPhases normalizeHtmlFilePath formatReport integration
      "/site/dist/" ["index.html"] w [Hook.LPromiseAllRejected 0] s
    ∧ Hook.status s = Hook.Failed e
    ∧ e = World.ReadFailed "/site/dist/index.html" Fs.EACCES
    ∧ ¬ Hook.reportWriteFailure e.
Proof.
  intros runPhases normalizeHtmlFilePath formatReport integration w.
  eexists. exists (World.ReadFailed "/site/dist/index.html" Fs.EACCES).
  split_and!.
  - unfold Hook.runs.
    eapply (Hook.steps_snoc _ _ _ _ []); [apply Hook.steps_nil |].
    eapply Hook.step_all_rejected; [reflexivity | reflexivity |].
    vm_compute. reflexivity.
  - reflexivity.
  - reflexivity.
  - intros (path & errno & [H|H]); discriminate H.
Qed.

(** C3, amended. A completed run has written the report file and has
    logged the console summary last. No failure is absorbed on the way:
    a throw of [fileURLToPath] or a rejection of the scan rejects the
    hook at once; a document that cannot be read leaves its task
    rejected, and so does an analysis that rejects; with a rejected task
    the report is never generated, the hook never completes and, as long
    as it awaits, it can reject with the reason of a rejected task; and
    the outcome of [generateReport] is the outcome of the hook. So a run
    fails with the error of the output directory or its scan, of a
    document that could not be read, of an analysis that rejected, of
    the formatter, or of creating the report directory or writing the
    report file. *)
Theorem run_outcome
  (fileURLToPath : string → string + string)
  (fastGlob : Fs.t → string → string + list string)
  (runPhases : string → string → string → string → Hook.Analysis)
  (normalizeHtmlFilePath : string → string → string)
  (formatReport : Registry.BrokenLinks → Registry.SeoIssues
                  → Report.ReportOptions → string + string)
  (integration : Hook.Integration) (dir : string) (w : World.t)
  (ls : list Hook.Label) (s : Hook.State) :
  Hook.hookRuns fileURLToPath fastGlob runPhases normalizeHtmlFilePath
    formatReport integration dir w ls s →
  let options distPath :=
    Report.mkReportOptions
      (Path.join distPath (Hook.reportFilePath integration))
      (Hook.reportFormat integration) (World.clock w (World.ticks w)) in
  (Hook.status s = Hook.Completed →
     ∃ distPath htmlFiles reportData summary,
       fileURLToPath dir = inr distPath
       ∧ fastGlob (World.fs w) distPath = inr htmlFiles
       ∧ length (Hook.tasks s) = length htmlFiles
       ∧ Forall (λ task, task = Hook.Fulfilled) (Hook.tasks s)
       ∧ formatReport (Hook.brokenLinksMap (Hook.shared s))
           (Hook.seoIssuesMap (Hook.shared s)) (options distPath)
         = inr reportData
       ∧ Fs.lookup (World.fs (Hook.world s))
           (Fs.resolve (Path.join distPath (Hook.reportFilePath integration)))
         = Some (Fs.File reportData)
       ∧ last (World.events (Hook.world s))
         = Some (World.EvLog (World.LogSummary summary)))
  ∧ (∀ reason, fileURLToPath dir = inl reason →
       Hook.status s = Hook.Failed (World.DirFailed reason)
       ∧ Hook.world s = w)
  ∧ (∀ distPath reason,
       fileURLToPath dir = inr distPath →
       fastGlob (World.fs w) distPath = inl reason →
       Hook.status s = Hook.Failed (World.ScanFailed reason)
       ∧ Hook.world s = w)
  ∧ (∀ distPath htmlFiles i htmlFile errno,
       fileURLToPath dir = inr distPath →
       fastGlob (World.fs w) distPath = inr htmlFiles →
       htmlFiles !! i = Some htmlFile →
       Fs.readFileSync (World.fs w) (Path.join distPath htmlFile)
       = inl errno →
       Hook.tasks s !! i
       = Some (Hook.Rejected
                 (World.ReadFailed (Path.join distPath htmlFile) errno)))
  ∧ (∀ i, Hook.LRejected i ∈ ls →
       ∃ reason,
         Hook.tasks s !! i
         = Some (Hook.Rejected (World.PhaseFailed reason)))
  ∧ (∀ i e, Hook.tasks s !! i = Some (Hook.Rejected e) →
       Hook.status s ≠ Hook.Completed
       ∧ (Hook.LReport ∉ ls)
       ∧ (Hook.status s = Hook.Awaiting →
          ∃ j e' s',
            Hook.hookRuns fileURLToPath fastGlob runPhases
              normalizeHtmlFilePath formatReport integration dir w
              (ls ++ [Hook.LPromiseAllRejected j]) s'
            ∧ Hook.tasks s !! j = Some (Hook.Rejected e')
            ∧ Hook.status s' = Hook.Failed e'))
  ∧ (Hook.LReport ∈ ls →
       ∃ distPath w1 w' outcome,
         fileURLToPath dir = inr distPath
         ∧ Report.generateReport formatReport
             (Hook.brokenLinksMap (Hook.shared s))
             (Hook.seoIssuesMap (Hook.shared s)) (options distPath) w1
           = (w', outcome)
         ∧ Hook.world s = w'
         ∧ Hook.status s
           = match outcome with
             | inl e => Hook.Failed e
             | inr _ => Hook.Completed
             end)
  ∧ (∀ e, Hook.status s = Hook.Failed e →
       (∃ reason, e = World.DirFailed reason
                  ∧ fileURLToPath dir = inl reason)
       ∨ (∃ distPath reason,
            e = World.ScanFailed reason
            ∧ fileURLToPath dir = inr distPath
            ∧ fastGlob (World.fs w) distPath = inl reason)
       ∨ (∃ distPath htmlFiles i htmlFile errno,
            e = World.ReadFailed (Path.join distPath htmlFile) errno
            ∧ fileURLToPath dir = inr distPath
            ∧ fastGlob (World.fs w) distPath = inr htmlFiles
            ∧ htmlFiles !! i = Some htmlFile
            ∧ Fs.readFileSync (World.fs w) (Path.join distPath htmlFile)
              = inl errno
            ∧ Hook.tasks s !! i = Some (Hook.Rejected e))
       ∨ (∃ reason i,
            e = World.PhaseFailed reason
            ∧ Hook.tasks s !! i = Some (Hook.Rejected e))
       ∨ (∃ distPath reason,
            e = World.FormatFailed reason
            ∧ fileURLToPath dir = inr distPath
            ∧ formatReport (Hook.brokenLinksMap (Hook.shared s))
                (Hook.seoIssuesMap (Hook.shared s)) (options distPath)
              = inl reason)
       ∨ Hook.reportWriteFailure e).
Proof.
  intros Hrun options.
  destruct Hrun as [reason Hdir|distPath reason Hdir Hscan
                   |distPath htmlFiles ls s Hdir Hscan Hrun].
  - split_and!.
    + intros Hst. discriminate Hst.
    + intros reason' Hdir'. assert (reason' = reason) as -> by congruence.
      done.
    + intros distPath reason' Hdir'. congruence.
    + intros distPath htmlFiles i htmlFile errno Hdir'. congruence.
    + intros i Hin. by apply elem_of_nil in Hin.
    + intros i e Hi. discriminate Hi.
    + intros Hin. by apply elem_of_nil in Hin.
    + simpl. intros e [= <-]. left. by exists reason.
  - split_and!.
    + intros Hst. discriminate Hst.
    + intros reason' Hdir'. congruence.
    + intros distPath' reason' Hdir' Hscan'.
      assert (distPath' = distPath) as -> by congruence.
      assert (reason' = reason) as -> by congruence. done.
    + intros distPath' htmlFiles i htmlFile errno Hdir' Hscan'.
      assert (distPath' = distPath) as -> by congruence. congruence.
    + intros i Hin. by apply elem_of_nil in Hin.
    + intros i e Hi. discriminate Hi.
    + intros Hin. by apply elem_of_nil in Hin.
    + simpl. intros e [= <-]. right; left. by exists distPath, reason.
  - unfold Hook.runs in Hrun.
    destruct (HookFacts.start_spec runPhases normalizeHtmlFilePath
                integration distPath htmlFiles w)
      as (Hst0 & _ & Hpath & Hlen & Hstart).
    destruct (HookFacts.start_world runPhases normalizeHtmlFilePath
                integration distPath htmlFiles w) as (_ & _ & _ & Htasks).
    destruct (HookFacts.start_clock runPhases normalizeHtmlFilePath
                integration distPath htmlFiles w) as (_ & _ & Hopt).
    fold (options distPath) in Hopt. rewrite Hopt in Hrun.
    assert (Hne : Report.filePath (options distPath) ≠ "")
      by apply HookFacts.join_nonempty.
    pose proof (HookFacts.start_rejectionKept runPhases normalizeHtmlFilePath
                  integration distPath htmlFiles w) as Hkept0.
    pose proof (HookFacts.steps_rejectionKept formatReport _ _ _ _ _
                  Hrun Hkept0) as Hkept.
    split_and!.
    + intros Hst.
      destruct (HookFacts.steps_completed formatReport _ _ _ _ _ Hne Hrun Hst)
        as [H0|[[Hall _] (reportData & summary & Hfmt & Hfile & Hlast)]];
        [congruence |].
      exists distPath, htmlFiles, reportData, summary.
      split_and!; try done.
      by rewrite (HookFacts.steps_length formatReport _ _ _ _ _ Hrun).
    + intros; congruence.
    + intros; congruence.
    + intros distPath' htmlFiles' i htmlFile errno Hdir' Hscan' Hi Hread.
      assert (distPath' = distPath) as -> by congruence.
      assert (htmlFiles' = htmlFiles) as -> by congruence.
      eapply HookFacts.steps_keep_rejected; [exact Hrun |].
      by rewrite (Htasks i htmlFile Hi), Hread.
    + intros i Hin.
      by apply (HookFacts.steps_rejected_label formatReport _ _ _ _ _ _ Hrun).
    + intros i e Hi.
      assert (Hnorep : Hook.LReport ∉ ls).
      { intros Hin.
        destruct (HookFacts.steps_report_settled formatReport _ _ _ _ _
                    Hrun Hin) as [Hall _].
        rewrite Forall_lookup in Hall. by apply Hall in Hi. }
      split_and!; [|done |].
      * intros Hst.
        destruct (HookFacts.steps_completed formatReport _ _ _ _ _
                    Hne Hrun Hst) as [H0|[[Hall _] _]]; [congruence |].
        rewrite Forall_lookup in Hall. by apply Hall in Hi.
      * intros Hawait.
        destruct (HookFacts.rejected_can_fail formatReport
                    (options distPath) (length htmlFiles) s i e
                    Hkept Hawait Hi) as (j & e' & s' & Hstep & _ & Hj & Hst').
        exists j, e', s'. split_and!; [|done | done].
        eapply Hook.hook_scanned; [exact Hdir | exact Hscan |].
        unfold Hook.runs. rewrite Hopt.
        eapply Hook.steps_snoc; [exact Hrun | exact Hstep].
    + intros Hin.
      destruct (HookFacts.steps_report_outcome formatReport _ _ _ _ _
                  Hrun Hin) as (w1 & w' & outcome & Hgen & Hw & Hst).
      by exists distPath, w1, w', outcome.
    + intros e Hst.
      destruct (HookFacts.steps_failed_why formatReport _ _ _ _ _ _
                  Hrun Hst0 Hst)
        as [(i & Hi & _)|(_ & _ & [(reason & -> & Hfmt)|Hwrite])].
      * destruct (HookFacts.steps_rejected formatReport _ _ _ _ _ _ _ Hrun Hi)
          as [Hi0|(reason & ->)].
        -- rewrite Forall_lookup in Hstart.
           destruct (Hstart i _ Hi0)
             as [[rest Hrest]|(f & errno & Hf & Hread & Hrej)];
             [discriminate |].
           injection Hrej as ->.
           destruct (lookup_lt_is_Some_2 htmlFiles i) as [htmlFile Hfile].
           { rewrite <-Hlen. by eapply lookup_lt_Some. }
           rewrite (Htasks i htmlFile Hfile) in Hi0.
           destruct (Fs.readFileSync (World.fs w)
                       (Path.join distPath htmlFile)) as [errno'|data]
             eqn:Hread'; [|discriminate].
           injection Hi0 as Hpath' Herr.
           right; right; left.
           exists distPath, htmlFiles, i, htmlFile, errno'.
           rewrite <-Hpath', <-Herr in Hi |- *. by split_and!.
        -- right; right; right; left. by exists reason, i.
      * right; right; right; right; left. by exists distPath, reason.
      * by right; right; right; right; right.
Qed.

(** A run on a readable one-page site completes and leaves the report. *)
Lemma run_outcome_witness :
  let fileURLToPath := λ _, inr "/site/dist/" in
  let fastGlob := λ _ _, inr ["index.html"] in
  let runPhases := λ _ _ _ _, Hook.Resolved in
  let normalizeHtmlFilePath := λ path _, path in
  let formatReport := λ _ _ _, inr "# SEO report" in
  let integration :=
    Hook.astroBrokenLinksChecker Phases.documented
      (Checker.mkOptions None None None None) in
  let w := World.mk
             (Fs.of_list [(["site"], Fs.Dir); (["site"; "dist"], Fs.Dir);
                          (["site"; "dist"; "index.html"], Fs.File "<html>")])
             (λ n, 1000 * Z.of_nat n)%Z 0 [] in
  ∃ s, Hook.hookRuns fileURLToPath fastGlob runPhases normalizeHtmlFilePath
         formatReport integration "file:///site/dist/" w
         [Hook.LResolved 0; Hook.LReport] s
       ∧ Hook.status s = Hook.Completed
       ∧ Fs.lookup (World.fs (Hook.world s)) ["site"; "dist"; "site-report.log"]
         = Some (Fs.File "# SEO report").
Proof.
  intros fileURLToPath fastGlob runPhases normalizeHtmlFilePath formatReport
    integration w.
  assert (Hrun : ∃ s,
    Hook.hookRuns fileURLToPath fastGlob runPhases normalizeHtmlFilePath
      formatReport integration "file:///site/dist/" w
      [Hook.LResolved 0; Hook.LReport] s
    ∧ Hook.status s = Hook.Completed).
  { eexists. split.
    - eapply Hook.hook_scanned; [reflexivity | reflexivity |].
      unfold Hook.runs.
      eapply (Hook.steps_snoc _ _ _ _ [_]).
      + eapply (Hook.steps_snoc _ _ _ _ []); [apply Hook.steps_nil |].
        eapply Hook.step_resolved. reflexivity.
      + eapply Hook.step_report; [reflexivity | by repeat constructor |].
        vm_compute. reflexivity.
    - reflexivity. }
  destruct Hrun as (s & Hrun & Hst).
  exists s. split_and!; [exact Hrun | exact Hst |].
  destruct (run_outcome _ _ _ _ _ _ _ _ _ _ Hrun) as (Hdone & _).
  destruct (Hdone Hst)
    as (distPath & htmlFiles & reportData & summary & Hdir & _ & _ & _
        & Hfmt & Hfile & _).
  injection Hdir as <-. injection Hfmt as <-. exact Hfile.
Defined.

(** These outcomes are reached: whatever the schedule did so far, the run
    can go on until the promise of the hook is fulfilled or rejected. *)
Lemma hook_settles
  (runPhases : string → string → string → string → Hook.Analysis)
  (normalizeHtmlFilePath : string → string → string)
  (formatReport : Registry.BrokenLinks → Registry.SeoIssues
                  → Report.ReportOptions → string + string)
  (integration : Hook.Integration) (distPath : string)
  (htmlFiles : list string) (w : World.t)
  (ls : list Hook.Label) (s : Hook.State) :
  Hook.runs runPhases normalizeHtmlFilePath formatReport
    integration distPath htmlFiles w ls s →
  ∃ ls' s',
    Hook.runs runPhases normalizeHtmlFilePath formatReport
      integration distPath htmlFiles w (ls ++ ls') s'
    ∧ Hook.status s' ≠ Hook.Awaiting.
Proof.
  unfold Hook.runs. intros Hrun.
  pose proof (HookFacts.start_rejectionKept runPhases normalizeHtmlFilePath
                integration distPath htmlFiles w) as Hkept0.
  pose proof (HookFacts.steps_rejectionKept formatReport _ _ _ _ _
                Hrun Hkept0) as Hkept.
  destruct (HookFacts.steps_settle formatReport
              (Hook.start runPhases normalizeHtmlFilePath integration distPath
                 htmlFiles w).2 (length htmlFiles) s Hkept)
    as (ls' & s' & Hsteps & Hst).
  exists ls', s'. split; [|done]. by eapply HookFacts.steps_app.
Qed.

(** C4. An entry of [options.phases] whose key names no phase of the
    catalogue is ignored: the loop raises nothing (it is a total function
    of the catalogue), the catalogue keeps its phases and their names,
    each phase named by an entry gets exactly that entry's flag, each
    other phase keeps its flag, and removing an entry with an unknown key
    from the map leaves the configured catalogue unchanged. *)
Theorem unknown_phase_ignored
  (phases : Phases.Catalogue) (entries : list (string * bool)) :
  NoDup (JsMap.keys entries) →
  let phases' := Phases.configurePhases phases (Some entries) in
  JsMap.keys phases' = JsMap.keys phases
  ∧ (∀ id,
       JsMap.get phases' id =
       (λ ph, Phases.mkPhase (Phases.name ph)
                (default (Phases.enabled ph) (JsMap.get entries id)))
       <$> JsMap.get phases id)
  ∧ (∀ before id flag after,
       entries = before ++ (id, flag) :: after →
       JsMap.get phases id = None →
       phases' = Phases.configurePhases phases (Some (before ++ after))).
Proof.
  intros Hnd phases'. split_and!.
  - apply PhasesFacts.keys_configure.
  - intros id. unfold phases'. rewrite PhasesFacts.get_configure.
    by rewrite JsMapFacts.get_reverse.
  - intros before id flag after -> Hid. unfold phases'.
    rewrite PhasesFacts.configure_skip_unknown.
    rewrite (PhasesFacts.configure_skip_unknown phases (before ++ after)).
    rewrite !List.filter_app. simpl.
    apply JsMapFacts.has_false_get in Hid. by rewrite Hid.
Qed.

(** An unknown key next to a known one. *)
Lemma unknown_phase_ignored_witness :
  let entries := [("accessibility", false); ("legacy_phase", true)] in
  NoDup (JsMap.keys entries)
  ∧ Phases.configurePhases Phases.documented (Some entries)
    = Phases.configurePhases Phases.documented (Some [("accessibility", false)]).
Proof.
  intros entries.
  assert (Hnd : NoDup (JsMap.keys entries)).
  { apply (bool_decide_unpack _). vm_compute. exact I. }
  split; [exact Hnd |].
  destruct (unknown_phase_ignored Phases.documented entries Hnd) as (_ & _ & H).
  apply (H [("accessibility", false)] "legacy_phase" true []); reflexivity.
Defined.

(** C5. The start message of the hook names the phases that run: the
    number it gives is the number of phases of the configured catalogue
    whose [enabled] flag is true, and the list it gives holds the names
    of exactly these phases, in catalogue order, joined by [", "]; the
    message stays the first thing that the hook has logged. A phase that
    the options disable is none of them: it is not counted and its entry
    is not listed. *)
Theorem enabled_phase_reporting
  (runPhases : string → string → string → string → Hook.Analysis)
  (normalizeHtmlFilePath : string → string → string)
  (phases : Phases.Catalogue) (options : Checker.Options)
  (distPath : string) (htmlFiles : list string) (w : World.t) :
  let integration := Hook.astroBrokenLinksChecker phases options in
  let configured := Phases.configurePhases phases (Checker.opt_phases options) in
  let running := filter (λ e, Phases.enabled e.2 = true) configured in
  let message :=
    World.EvLog
      (World.LogStart (length htmlFiles) (length running)
         (JsString.join ", " ((λ e, Phases.name e.2) <$> running))) in
  World.events
    (Hook.world
       (Hook.start runPhases normalizeHtmlFilePath integration distPath
          htmlFiles w).1)
    !! length (World.events w) = Some message
  ∧ (∀ formatReport ls s,
       Hook.runs runPhases normalizeHtmlFilePath formatReport integration
         distPath htmlFiles w ls s →
       World.events (Hook.world s) !! length (World.events w) = Some message)
  ∧ Phases.enabledPhases configured = length running
  ∧ Phases.enabledPhaseNames configured = (λ e, Phases.name e.2) <$> running
  ∧ Phases.enabledList configured = running.*2
  ∧ running `sublist_of` configured
  ∧ (∀ e, e ∈ running ↔ e ∈ configured ∧ Phases.enabled e.2 = true)
  ∧ length running
    + length (filter (λ e, Phases.enabled e.2 = false) configured)
    = length phases
  ∧ (∀ entries id,
       Checker.opt_phases options = Some entries →
       JsMap.get entries id = Some false →
       NoDup (JsMap.keys entries) →
       NoDup (JsMap.keys phases) →
       ∀ ph, (id, ph) ∈ configured →
             Phases.enabled ph = false
             ∧ ((id, ph) ∉ running)
             ∧ (ph ∉ Phases.enabledList configured)).
Proof.
  intros integration configured running message.
  assert (Hlist : ∀ l : Phases.Catalogue,
    List.filter Phases.enabled (l.*2)
    = (filter (λ e, Phases.enabled e.2 = true) l).*2).
  { induction l as [|[id ph] l IH]; [done |]. csimpl.
    rewrite filter_cons. simpl. destruct (Phases.enabled ph) eqn:Hph.
    - rewrite decide_True by done. csimpl. by rewrite IH.
    - rewrite decide_False by done. done. }
  assert (Hrun : Phases.enabledList configured = running.*2)
    by apply Hlist.
  assert (Hnames : Phases.enabledPhaseNames configured
                   = (λ e, Phases.name e.2) <$> running).
  { unfold Phases.enabledPhaseNames. rewrite Hrun.
    by rewrite <-list_fmap_compose. }
  assert (Hcount : Phases.enabledPhases configured = length running).
  { unfold Phases.enabledPhases. by rewrite Hrun, length_fmap. }
  assert (Hstart :
    World.events
      (Hook.world
         (Hook.start runPhases normalizeHtmlFilePath integration distPath
            htmlFiles w).1)
    !! length (World.events w) = Some message).
  { destruct (HookFacts.start_world runPhases normalizeHtmlFilePath
                integration distPath htmlFiles w) as (-> & _).
    rewrite lookup_app_r by done. rewrite Nat.sub_diag. simpl.
    unfold message. rewrite <-Hcount, <-Hnames. reflexivity. }
  split_and!; [exact Hstart | | exact Hcount | exact Hnames | exact Hrun | | | |].
  - intros formatReport ls s Hsteps. unfold Hook.runs in Hsteps.
    apply HookFacts.steps_events_prefix in Hsteps as (evs & ->).
    rewrite lookup_app_l; [exact Hstart |].
    by eapply lookup_lt_Some.
  - apply sublist_filter.
  - intros e. unfold running. rewrite list_elem_of_filter. tauto.
  - assert (Hlen : length configured = length phases).
    { rewrite <-(length_fmap fst configured), <-(length_fmap fst phases).
      unfold configured. destruct (Checker.opt_phases options) as [entries|];
        [|done].
      pose proof (PhasesFacts.keys_configure phases entries) as Hk.
      unfold JsMap.keys in Hk. by rewrite Hk. }
    rewrite <-Hlen. unfold running. clear.
    induction configured as [|[id ph] l IH]; [done |].
    rewrite !filter_cons. simpl. destruct (Phases.enabled ph).
    + rewrite decide_True, decide_False by done. simpl. lia.
    + rewrite decide_False, decide_True by done. simpl. lia.
  - intros entries id Hopt Hid Hnd Hcat ph Hin.
    assert (Hk : NoDup (JsMap.keys configured)).
    { unfold configured. rewrite Hopt. by rewrite PhasesFacts.keys_configure. }
    pose proof Hin as Hget.
    apply (JsMapFacts.get_elem_of _ _ _ Hk) in Hget.
    unfold configured in Hget. rewrite Hopt in Hget.
    rewrite PhasesFacts.get_configure, JsMapFacts.get_reverse, Hid in Hget
      by done.
    assert (Hoff : Phases.enabled ph = false).
    { destruct (JsMap.get phases id); simpl in Hget; [|done].
      by injection Hget as <-. }
    split_and!; [exact Hoff | |].
    + unfold running. rewrite list_elem_of_filter. simpl.
      intros [Hon _]. congruence.
    + unfold Phases.enabledList.
      rewrite list_elem_of_In, List.filter_In. intros [_ Hon]. congruence.
Qed.

(** The accessibility phase switched off for a site of one page. *)
Lemma enabled_phase_reporting_witness :
  let runPhases := λ _ _ _ _, Hook.Resolved in
  let normalizeHtmlFilePath := λ path _, path in
  let options :=
    Checker.mkOptions None None None (Some [("accessibility", false)]) in
  let w := World.mk
             (Fs.of_list [(["site"], Fs.Dir); (["site"; "dist"], Fs.Dir);
                          (["site"; "dist"; "index.html"], Fs.File "<html>")])
             (λ n, 1000 * Z.of_nat n)%Z 0 [] in
  World.events
    (Hook.world
       (Hook.start runPhases normalizeHtmlFilePath
          (Hook.astroBrokenLinksChecker Phases.documented options)
          "/site/dist/" ["index.html"] w).1)
  !! 0
  = Some (World.EvLog
            (World.LogStart 1 5
               "Foundation & Privacy, Metadata & Semantic Structure, Performance & Technical SEO, Crawlability & Linking, AI Content Detection")).
Proof.
  intros runPhases normalizeHtmlFilePath options w.
  destruct (enabled_phase_reporting runPhases normalizeHtmlFilePath
              Phases.documented options "/site/dist/" ["index.html"] w)
    as (Hstart & _).
  exact Hstart.
Defined.

(** C6. The category breakdown that the console summary prints lists the
    groups in the display order performance, accessibility, metadata,
    crawlability, linking, technical, content, privacy, semantic (a
    group without issues is left out), and each group lists its
    categories, each with the number of issues recorded for it, by
    descending count: the text of the summary is the heading followed,
    in this order, by a header line for each group, with its sign, its
    name and the sum of its counts, and under it a line for each of its
    categories. *)
Theorem breakdown_order (seoIssuesMap : Registry.SeoIssues) :
  let shown := Summary.breakdown seoIssuesMap in
  let nl := String "010"%char "" in
  let header g :=
    default ""
      (JsMap.get
         [ ("performance", "⚡ Performance");
           ("accessibility", "♿ Accessibility");
           ("metadata", "📄 Metadata");
           ("crawlability", "🔍 Crawlability");
           ("linking", "🔗 Linking");
           ("technical", "🔧 Technical");
           ("content", "📝 Content");
           ("privacy", "🔒 Privacy");
           ("semantic", "🏗️ Semantic") ] g) in
  let number c := JsString.of_nat (default 0 c) in
  let line e :=
    nl +:+ "      • " +:+ Summary.issueType (Summary.category e) +:+ ": "
       +:+ number (Summary.count e) in
  let block b :=
    nl +:+ "    " +:+ header (Summary.group b) +:+ ": "
       +:+ number (Summary.totalInGroup b) +:+ " issue"
       +:+ (if decide (Summary.totalInGroup b = Some 1) then "" else "s")
       +:+ String.concat "" (line <$> Summary.issues b) in
  Summary.group <$> shown
    = filter (λ g, Summary.members seoIssuesMap g ≠ [])
        [ "performance"; "accessibility"; "metadata"; "crawlability";
          "linking"; "technical"; "content"; "privacy"; "semantic" ]
  ∧ Summary.group <$> shown `sublist_of` Summary.groupDisplayOrder
  ∧ Forall (λ b,
      StronglySorted Summary.countGe (Summary.issues b)
      ∧ Summary.issues b ≡ₚ Summary.members seoIssuesMap (Summary.group b)
      ∧ Summary.issues b ≠ []
      ∧ Summary.totalInGroup b
        = Some (sum_list_with (λ e, default 0 (Summary.count e))
                  (Summary.issues b))
      ∧ Forall (λ e, is_Some (Summary.count e)) (Summary.issues b)) shown
  ∧ Summary.categoriesByGroup seoIssuesMap
    = match seoIssuesMap with
      | [] => ""
      | _ => nl +:+ nl +:+ "  Issue breakdown:"
             +:+ String.concat "" (block <$> shown)
      end
  ∧ ∀ elapsedTime brokenLinksMap options,
      World.categoriesByGroup
        (Report.summaryForConsole elapsedTime brokenLinksMap seoIssuesMap
           options)
      = Summary.categoriesByGroup seoIssuesMap.
Proof.
  intros shown nl header number line block.
  assert (Hnumber : ∀ c, is_Some c → Summary.showCount c = number c)
    by (by intros c [k ->]).
  assert (Hblocks : Summary.renderBlock <$> shown = block <$> shown).
  { apply Forall_fmap_ext, Forall_forall. intros b Hb.
    destruct (SummaryFacts.breakdown_numbers _ _ Hb) as [Htotal Hcounts].
    apply SummaryFacts.elem_of_breakdown in Hb as [Hg _].
    unfold Summary.renderBlock, block.
    rewrite (SummaryFacts.header_text _ _ Hg). fold (header (Summary.group b)).
    rewrite (Hnumber (Summary.totalInGroup b)) by (by rewrite Htotal).
    assert (Summary.renderIssue <$> Summary.issues b
            = line <$> Summary.issues b) as ->; [|done].
    apply Forall_fmap_ext. eapply Forall_impl; [exact Hcounts |].
    intros e He. unfold Summary.renderIssue, line. by rewrite (Hnumber _ He). }
  unfold shown. split_and!.
  - by rewrite SummaryFacts.breakdown_blockOf,
      SummaryFacts.groups_omap_blockOf.
  - rewrite SummaryFacts.breakdown_blockOf,
      SummaryFacts.groups_omap_blockOf. apply sublist_filter.
  - apply Forall_forall. intros b Hb.
    destruct (SummaryFacts.breakdown_numbers _ _ Hb) as [Htotal Hcounts].
    apply SummaryFacts.elem_of_breakdown in Hb as [_ Hb].
    apply SummaryFacts.blockOf_Some in Hb as (_ & Hissues & Hne).
    rewrite Hissues in *. split_and!; [| | | done | done].
    + apply SummaryFacts.sortByCount_sorted, SummaryFacts.members_counted.
    + apply SummaryFacts.sortByCount_perm.
    + intros Hnil. apply Hne. apply Permutation_nil_r.
      by rewrite <-Hnil, SummaryFacts.sortByCount_perm.
  - unfold Summary.categoriesByGroup.
    rewrite SummaryFacts.issueCategories_lines.
    destruct seoIssuesMap as [|x reg]; [done |]. csimpl.
    fold shown. by rewrite Hblocks.
  - done.
Qed.

(** The breakdown text of the sample registry. *)
Lemma breakdown_order_witness :
  let nl := String "010"%char "" in
  Summary.categoriesByGroup Summary.sampleIssues
  = nl +:+ nl +:+ "  Issue breakdown:"
    +:+ nl +:+ "    ⚡ Performance: 5 issues"
    +:+ nl +:+ "      • render blocking: 3"
    +:+ nl +:+ "      • large inline script: 2"
    +:+ nl +:+ "    📄 Metadata: 1 issue"
    +:+ nl +:+ "      • missing title: 1".
Proof.
  intros nl.
  destruct (breakdown_order Summary.sampleIssues) as (_ & _ & _ & Htext & _).
  rewrite Htext. reflexivity.
Defined.



(** The issue total counts issues, not affected documents: the sample
    registry has seven issues on three documents. *)
Example total_counts_issue_keys :
  Summary.totalSeoIssues Summary.sampleIssues = 7
  ∧ size (list_to_set
            (mjoin ((λ e, mjoin (snd <$> e.2)) <$> Summary.sampleIssues))
          : gset string) = 3.
Proof. split; vm_compute; reflexivity. Qed.

(** C8, as stated, fails: the summary prints the elapsed time by
    [toFixed(2)]. After 1005 milliseconds it reports [1.00] seconds,
    which is not the quotient 1005 / 1000. *)
Lemma elapsed_time_is_rounded :
  let formatReport := λ _ _ _, inr "# SEO report" in
  let options := Report.mkReportOptions "/site/dist/site-report.log" None 0 in
  let w := World.mk (Fs.of_list [(["site"], Fs.Dir); (["site"; "dist"], Fs.Dir)])
             (λ n, 1005 * Z.of_nat n)%Z 1 [] in
  ∃ w' summary,
    Report.generateReport formatReport [] [] options w = (w', inr tt)
    ∧ last (World.events w') = Some (World.EvLog (World.LogSummary summary))
    ∧ (World.clock w (World.ticks w) - Report.startTime options = 1005)%Z
    ∧ World.elapsedTime summary = Some "1.00"
    ∧ ¬ (1005 # 1000 == 100 # 100)%Q.
Proof.
  intros formatReport options w. eexists _, _. split_and!.
  - vm_compute. reflexivity.
  - reflexivity.
  - reflexivity.
  - reflexivity.
  - intros H. unfold Qeq in H. simpl in H. discriminate H.
Qed.

(** C8, amended. The console summary reports the elapsed time
    [(endTime - startTime) / 1000], where [endTime] is the clock reading
    that [generateReport] takes first, as [toFixed(2)] prints it: a sign,
    the seconds and two decimals, which give the hundredth of a second
    nearest to the quotient (in the middle between two hundredths,
    either of them); the number of distinct keys of the Broken Link
    Registry as the broken-link total; and the sum over the categories
    of the number of distinct issue keys as the issue total. *)
Theorem console_summary_totals
  (formatReport : Registry.BrokenLinks → Registry.SeoIssues
                  → Report.ReportOptions → string + string)
  (b : Registry.BrokenLinks) (i : Registry.SeoIssues)
  (options : Report.ReportOptions) (w w' : World.t) :
  NoDup (JsMap.keys b) →
  Forall (λ e, NoDup (JsMap.keys e.2)) i →
  Report.filePath options ≠ "" →
  Report.generateReport formatReport b i options w = (w', inr tt) →
  JsNumber.safe (Report.startTime options) = true →
  JsNumber.safe (World.clock w (World.ticks w)) = true →
  JsNumber.safe (World.clock w (World.ticks w) - Report.startTime options)
  = true →
  let d := (World.clock w (World.ticks w) - Report.startTime options)%Z in
  ∃ summary n,
    last (World.events w') = Some (World.EvLog (World.LogSummary summary))
    ∧ World.elapsedTime summary
      = Some ((if (d <? 0)%Z then "-" else "")
              +:+ JsString.of_nat (Z.to_nat (n / 100))
              +:+ "."
              +:+ JsString.of_nat (Z.to_nat (n / 10 mod 10))
              +:+ JsString.of_nat (Z.to_nat (n mod 10)))
    ∧ (0 ≤ n)%Z
    ∧ (Z.abs (10 * n - Z.abs d) ≤ 5)%Z
    ∧ (Z.abs d mod 10 ≠ 5 → n = (Z.abs d + 5) / 10)%Z
    ∧ World.brokenLinkCount summary
      = size (list_to_set (JsMap.keys b) : gset string)
    ∧ World.totalSeoIssues summary
      = sum_list_with
          (λ e, size (list_to_set (JsMap.keys e.2) : gset string)) i.
Proof.
  intros Hb Hi Hpath Hrun Hstart Hend Hdiff d.
  destruct (ReportFacts.generateReport_ok formatReport b i options w w' Hpath Hrun)
    as (reportData & fs1 & fs2 & _ & _ & _ & ->).
  assert (Hsize : ∀ {V} (m : list (string * V)),
    NoDup (JsMap.keys m) →
    JsMap.size m = size (list_to_set (JsMap.keys m) : gset string)).
  { intros V m Hm. rewrite size_list_to_set by done.
    unfold JsMap.size, JsMap.keys. by rewrite length_fmap. }
  destruct (JsNumberFacts.thousandth_toFixed2_spec d Hdiff)
    as (n & Hn & Hclose & Htext).
  exists (Report.summaryForConsole
            (Report.elapsedText (Report.startTime options)
               (World.clock w (World.ticks w)))
            b i options), n.
  split_and!.
  - simpl. unfold Report.reportEvents.
    rewrite !last_app. simpl. reflexivity.
  - simpl. unfold Report.elapsedText. rewrite Hstart, Hend, Hdiff. simpl.
    fold d. by rewrite Htext.
  - exact Hn.
  - exact Hclose.
  - intros Hmid. apply JsNumberFacts.nearest_hundredth; [lia | done | done].
  - simpl. by apply Hsize.
  - simpl. rewrite SummaryFacts.totalSeoIssues_sum. clear Hrun.
    induction Hi as [|e i He Hi IH]; [done |]. simpl. rewrite IH. f_equal.
    by apply Hsize.
Qed.

(** Two and a half seconds, one broken link, seven issues. *)
Lemma console_summary_totals_witness :
  let formatReport := λ _ _ _, inr "# SEO report" in
  let options := Report.mkReportOptions "/site/dist/site-report.log" None 1000 in
  let b := [("/missing", ["/a"; "/b"])] in
  let w := World.mk (Fs.of_list [(["site"], Fs.Dir); (["site"; "dist"], Fs.Dir)])
             (λ n, 1000 + 2500 * Z.of_nat n)%Z 1 [] in
  ∃ w' summary,
    Report.generateReport formatReport b Summary.sampleIssues options w
      = (w', inr tt)
    ∧ last (World.events w') = Some (World.EvLog (World.LogSummary summary))
    ∧ World.elapsedTime summary = Some "2.50"
    ∧ World.brokenLinkCount summary = 1
    ∧ World.totalSeoIssues summary = 7.
Proof.
  intros formatReport options b w.
  assert (Hpath : Report.filePath options ≠ "") by discriminate.
  assert (Hb : NoDup (JsMap.keys b)).
  { apply (bool_decide_unpack _). vm_compute. exact I. }
  assert (Hi : Forall (λ e, NoDup (JsMap.keys e.2)) Summary.sampleIssues).
  { repeat constructor; apply (bool_decide_unpack _); vm_compute; exact I. }
  destruct (Report.generateReport formatReport b Summary.sampleIssues options w)
    as [w' [e|[]]] eqn:Hrun.
  { vm_compute in Hrun. discriminate Hrun. }
  destruct (console_summary_totals formatReport b Summary.sampleIssues
              options w w' Hb Hi Hpath Hrun eq_refl eq_refl eq_refl)
    as (summary & n & Hlast & Htime & Hn & Hclose & Hmid & Hlinks & Htotal).
  assert (n = 250%Z) as ->.
  { rewrite Hmid by (vm_compute; discriminate). reflexivity. }
  exists w', summary. split_and!; [reflexivity | exact Hlast | | |].
  - rewrite Htime. reflexivity.
  - rewrite Hlinks. vm_compute. reflexivity.
  - rewrite Htotal. vm_compute. reflexivity.
Defined.

(** C9. The report path is [options.reportFilePath] when that is a
    non-empty string, otherwise [options.logFilePath] when that is a
    non-empty string, otherwise ['site-report.log']; whatever it is, the
    hook writes the report to this path joined under the build output
    directory. The joined path lies inside the output directory when the
    report path has no [..] segment. With one it does not, against the
    comment of the code on the join: ['../seo-report.md'] under
    [/site/dist/] gives [/site/seo-report.md]. *)
Theorem report_path_resolution (options : Checker.Options) (distPath : string) :
  (∀ p, Checker.opt_reportFilePath options = Some p → p ≠ "" →
        Checker.reportFilePath options = p)
  ∧ (∀ l, Checker.truthy (Checker.opt_reportFilePath options) = false →
          Checker.opt_logFilePath options = Some l → l ≠ "" →
          Checker.reportFilePath options = l)
  ∧ (Checker.truthy (Checker.opt_reportFilePath options) = false →
     Checker.truthy (Checker.opt_logFilePath options) = false →
     Checker.reportFilePath options = "site-report.log")
  ∧ Checker.reportFilePath options ≠ ""
  ∧ Checker.absoluteReportFilePath distPath options
    = Path.join distPath (Checker.reportFilePath options)
  ∧ (∀ runPhases normalizeHtmlFilePath phases htmlFiles w,
       Report.filePath
         (Hook.start runPhases normalizeHtmlFilePath
            (Hook.astroBrokenLinksChecker phases options) distPath
            htmlFiles w).2
       = Checker.absoluteReportFilePath distPath options)
  ∧ (".." ∉ JsString.split "/" (Checker.reportFilePath options) →
     Path.inside distPath (Checker.absoluteReportFilePath distPath options))
  ∧ (let escaping :=
       Checker.mkOptions (Some "../seo-report.md") None None None in
     Checker.absoluteReportFilePath "/site/dist/" escaping
     = "/site/seo-report.md"
     ∧ ¬ Path.inside "/site/dist/"
           (Checker.absoluteReportFilePath "/site/dist/" escaping)).
Proof.
  assert (Htruthy : ∀ p, p ≠ "" → Checker.truthy (Some p) = true).
  { intros p Hp. simpl. by apply negb_true_iff, String.eqb_neq. }
  assert (Hne : Checker.reportFilePath options ≠ "").
  { unfold Checker.reportFilePath, Checker.js_or.
    destruct (Checker.truthy (Checker.opt_reportFilePath options)) eqn:H1.
    - rewrite H1. destruct (Checker.opt_reportFilePath options) as [p|]; [|done].
      simpl in *. by apply negb_true_iff, String.eqb_neq in H1.
    - destruct (Checker.truthy (Checker.opt_logFilePath options)) eqn:H2; [|done].
      destruct (Checker.opt_logFilePath options) as [l|]; [|done].
      simpl in *. by apply negb_true_iff, String.eqb_neq in H2. }
  split_and!; [| | | done | done | | |].
  - intros p Hp Hpne. unfold Checker.reportFilePath, Checker.js_or.
    rewrite Hp, !Htruthy by done. done.
  - intros l H1 Hl Hlne. unfold Checker.reportFilePath, Checker.js_or.
    rewrite H1, Hl, !Htruthy by done. done.
  - intros H1 H2. unfold Checker.reportFilePath, Checker.js_or.
    by rewrite H1, H2.
  - intros runPhases normalizeHtmlFilePath phases htmlFiles w.
    by destruct (HookFacts.start_spec runPhases normalizeHtmlFilePath
                   (Hook.astroBrokenLinksChecker phases options) distPath
                   htmlFiles w) as (_ & _ & -> & _).
  - intros Hdd. by apply PathFacts.join_inside.
  - split; [reflexivity |].
    intros [rest Hrest]. vm_compute in Hrest. discriminate Hrest.
Qed.

(** The configuration of the test site: the legacy alias alone is set. *)
Lemma report_path_resolution_witness :
  let options := Checker.mkOptions None (Some "site-report.log") None None in
  (".." ∉ JsString.split "/" (Checker.reportFilePath options))
  ∧ Checker.reportFilePath options = "site-report.log"
  ∧ Path.inside "/site/dist/" (Checker.absoluteReportFilePath "/site/dist/" options).
Proof.
  intros options.
  assert (Hdd : ".." ∉ JsString.split "/" (Checker.reportFilePath options)).
  { vm_compute. intros H. apply list_elem_of_In in H. simpl in H.
    destruct H as [H|[]]. discriminate H. }
  destruct (report_path_resolution options "/site/dist/")
    as (_ & Hlog & _ & _ & _ & _ & Hin & _).
  split_and!; [exact Hdd | | exact (Hin Hdd)].
  apply Hlog; [reflexivity | reflexivity | discriminate].
Defined.

(** C10. A category whose name starts with none of the nine group names
    adds its issues to the total of the console summary but gets no line
    in the breakdown: the breakdown is the one of the registry without
    that category, and no listed entry carries its name. *)
Theorem ungrouped_category_omitted
  (before after : Registry.SeoIssues) (category : string)
  (issuesMap : Registry.Issues) :
  Forall (λ groupName, JsString.startsWith category groupName = false)
    [ "performance"; "accessibility"; "metadata"; "semantic";
      "crawlability"; "linking"; "content"; "privacy"; "technical" ] →
  let seoIssuesMap := before ++ (category, issuesMap) :: after in
  Summary.totalSeoIssues seoIssuesMap
    = Summary.totalSeoIssues (before ++ after) + JsMap.size issuesMap
  ∧ Summary.breakdown seoIssuesMap = Summary.breakdown (before ++ after)
  ∧ Forall (λ b, Forall (λ e, Summary.category e ≠ category) (Summary.issues b))
      (Summary.breakdown seoIssuesMap).
Proof.
  intros Hnone seoIssuesMap.
  assert (Hg : Summary.groupOf category = None).
  { unfold Summary.groupOf, Summary.findGroup.
    destruct (List.find _ _) as [g|] eqn:Hfind; [|done].
    apply List.find_some in Hfind as [Hin Hpre].
    rewrite Forall_forall in Hnone. apply list_elem_of_In, Hnone in Hin.
    congruence. }
  split_and!.
  - unfold seoIssuesMap. rewrite !SummaryFacts.totalSeoIssues_sum.
    rewrite !sum_list_with_app. simpl. lia.
  - rewrite !SummaryFacts.breakdown_blockOf.
    apply list_omap_ext, Forall2_same_length_lookup.
    split; [done |]. intros i g g' Hi Hi'. assert (g' = g) as -> by congruence.
    unfold Summary.blockOf, seoIssuesMap.
    rewrite !SummaryFacts.members_app, SummaryFacts.members_cons.
    simpl. by rewrite Hg, decide_False.
  - rewrite SummaryFacts.breakdown_blockOf.
    apply Forall_forall. intros b (g & _ & Hb)%list_elem_of_omap.
    apply SummaryFacts.blockOf_Some in Hb as (<- & -> & _).
    apply Forall_forall. intros e He. rewrite SummaryFacts.sortByCount_perm in He.
    apply SummaryFacts.members_groupOf in He. intros Hc. congruence.
Qed.

(** A category of a group that the summary does not know. *)
Lemma ungrouped_category_omitted_witness :
  Summary.totalSeoIssues
    ([("metadata: missing title", [("Missing title", ["/a"])])]
     ++ ("ai: generated text", [("Looks generated", ["/c"])]) :: [])
  = Summary.totalSeoIssues
      ([("metadata: missing title", [("Missing title", ["/a"])])] ++ []) + 1
  ∧ Summary.breakdown
      ([("metadata: missing title", [("Missing title", ["/a"])])]
       ++ ("ai: generated text", [("Looks generated", ["/c"])]) :: [])
    = Summary.breakdown
        ([("metadata: missing title", [("Missing title", ["/a"])])] ++ []).
Proof.
  assert (Hnone :
    Forall (λ groupName,
              JsString.startsWith "ai: generated text" groupName = false)
      [ "performance"; "accessibility"; "metadata"; "semantic";
        "crawlability"; "linking"; "content"; "privacy"; "technical" ]).
  { repeat constructor. }
  destruct (ungrouped_category_omitted
              [("metadata: missing title", [("Missing title", ["/a"])])] []
              "ai: generated text" [("Looks generated", ["/c"])] Hnone)
    as (Ht & Hb & _).
  split; [exact Ht | exact Hb].
Defined.

(** * Further properties of [generateReport] and of the hook *)

(** X1. The text that [generateReport] keeps for a category,
    [`${issuesMap.size} ${category}`], gives both parts back when the
    grouping loop takes it apart: [parseInt] of the first piece is the
    number of issues and the other pieces, joined by blanks, are the
    category, whatever blanks the category holds. *)
Theorem category_line_round_trip
  (category : string) (issuesMap : Registry.Issues) :
  let pieces := JsString.split " " (Summary.categoryLine category issuesMap) in
  JsString.parseInt (hd "" pieces) = Some (JsMap.size issuesMap)
  ∧ JsString.join " " (tl pieces) = category.
Proof.
  intros pieces. unfold pieces, Summary.categoryLine.
  rewrite JsStringFacts.split_count_line. simpl hd. simpl tl.
  split; [apply JsStringFacts.parseInt_of_nat | apply JsStringFacts.join_split].
Qed.

(** X2. A category whose name starts with one of the nine group names is
    listed under the header of that group, with the number of its issues,
    and under no other header. *)
Theorem grouped_category_listed
  (seoIssuesMap : Registry.SeoIssues) (category groupName : string)
  (issuesMap : Registry.Issues) :
  (category, issuesMap) ∈ seoIssuesMap →
  groupName ∈ [ "performance"; "accessibility"; "metadata"; "semantic";
                "crawlability"; "linking"; "content"; "privacy"; "technical" ] →
  JsString.startsWith category groupName = true →
  let entry := Summary.mkEntry (Some (JsMap.size issuesMap)) category in
  (∃ b, b ∈ Summary.breakdown seoIssuesMap
        ∧ Summary.group b = groupName ∧ entry ∈ Summary.issues b)
  ∧ ∀ b, b ∈ Summary.breakdown seoIssuesMap →
         entry ∈ Summary.issues b → Summary.group b = groupName.
Proof.
  intros Hin Hname Hpre entry.
  assert (Hg : Summary.groupOf category = Some groupName)
    by (by apply SummaryFacts.groupOf_startsWith).
  assert (Hmem : entry ∈ Summary.members seoIssuesMap groupName).
  { apply SummaryFacts.elem_of_members. by exists (category, issuesMap). }
  split.
  - destruct (Summary.blockOf seoIssuesMap groupName) as [b|] eqn:Hb.
    + pose proof (SummaryFacts.blockOf_Some _ _ _ Hb) as (Hgb & Hissues & _).
      exists b. split_and!; [| done |].
      * apply SummaryFacts.elem_of_breakdown. rewrite Hgb. split; [|done].
        by apply SummaryFacts.groupNames_displayed.
      * by rewrite Hissues, SummaryFacts.sortByCount_perm.
    + apply SummaryFacts.blockOf_None in Hb. rewrite Hb in Hmem.
      by apply elem_of_nil in Hmem.
  - intros b [_ Hb]%SummaryFacts.elem_of_breakdown He.
    apply SummaryFacts.blockOf_Some in Hb as (_ & Hissues & _).
    rewrite Hissues, SummaryFacts.sortByCount_perm in He.
    apply SummaryFacts.members_groupOf in He. simpl in He. congruence.
Qed.

(** The issues of the sample registry about render blocking are listed
    under the performance header. *)
Lemma grouped_category_listed_witness :
  ∃ b, b ∈ Summary.breakdown Summary.sampleIssues
       ∧ Summary.group b = "performance"
       ∧ Summary.mkEntry (Some 3) "performance: render blocking"
         ∈ Summary.issues b.
Proof.
  assert (Hin : ("performance: render blocking",
                 [("a.js", ["/a"]); ("b.js", ["/a"]); ("c.css", ["/a"; "/b"])])
                ∈ Summary.sampleIssues)
    by (unfold Summary.sampleIssues; set_solver).
  assert (Hname : "performance"
                  ∈ [ "performance"; "accessibility"; "metadata"; "semantic";
                      "crawlability"; "linking"; "content"; "privacy";
                      "technical" ]) by (by left).
  exact (proj1 (grouped_category_listed _ _ _ _ Hin Hname eq_refl)).
Defined.

(** X3. The number in a group header is the sum of the counts listed under
    it, and the headers together account for every issue of a category
    that belongs to a group: they add up to the issue total less the
    issues of the categories that belong to none. *)
Theorem group_totals_add_up (seoIssuesMap : Registry.SeoIssues) :
  Forall (λ b,
      Summary.totalInGroup b
      = Some (sum_list_with (λ e, default 0 (Summary.count e)) (Summary.issues b)))
    (Summary.breakdown seoIssuesMap)
  ∧ sum_list_with (λ b, default 0 (Summary.totalInGroup b))
      (Summary.breakdown seoIssuesMap)
    + sum_list_with (λ x, JsMap.size x.2)
        (filter (λ x, Summary.groupOf x.1 = None) seoIssuesMap)
    = Summary.totalSeoIssues seoIssuesMap.
Proof.
  split.
  - apply Forall_forall. intros b [_ Hb]%SummaryFacts.elem_of_breakdown.
    rewrite (SummaryFacts.blockOf_total _ _ _ Hb),
      SummaryFacts.foldl_addCount_members.
    apply SummaryFacts.blockOf_Some in Hb as (_ & -> & _).
    by rewrite SummaryFacts.sortByCount_perm.
  - rewrite SummaryFacts.breakdown_blockOf, SummaryFacts.sum_blocks.
    rewrite SummaryFacts.sum_groups_registry.
    + rewrite SummaryFacts.totalSeoIssues_sum.
      induction seoIssuesMap as [|x reg IH]; [done |].
      rewrite filter_cons. simpl.
      destruct (Summary.groupOf x.1) eqn:Hg.
      * rewrite decide_False by done. lia.
      * rewrite decide_True by done. simpl. lia.
    + apply (bool_decide_unpack _). vm_compute. exact I.
    + intros g. apply SummaryFacts.groupNames_displayed.
Qed.

(** X4. Categories of one group that have the same number of issues keep
    the order in which the registry holds them. *)
Theorem equal_counts_keep_order (seoIssuesMap : Registry.SeoIssues) (n : nat) :
  Forall (λ b,
      filter (λ e, Summary.count e = Some n) (Summary.issues b)
      = filter (λ e, Summary.count e = Some n)
          (Summary.members seoIssuesMap (Summary.group b)))
    (Summary.breakdown seoIssuesMap).
Proof.
  apply Forall_forall. intros b [_ Hb]%SummaryFacts.elem_of_breakdown.
  apply SummaryFacts.blockOf_Some in Hb as (_ & -> & _).
  apply SummaryFacts.filter_sortByCount, SummaryFacts.members_counted.
Qed.

(** X5. The line of a category shows the text between its first and its
    second [": "]: the group prefix and anything after a second separator
    are dropped. A category without the separator, or with nothing
    behind it, is shown whole. *)
Theorem issue_type_shown (groupName detail rest : string) :
  JsString.no_char ":" groupName →
  JsString.no_char ":" detail →
  detail ≠ "" →
  Summary.issueType (groupName +:+ ": " +:+ detail) = detail
  ∧ Summary.issueType (groupName +:+ ": " +:+ detail +:+ ": " +:+ rest) = detail
  ∧ Summary.issueType groupName = groupName
  ∧ Summary.issueType (groupName +:+ ": ") = groupName +:+ ": ".
Proof.
  intros Hg Hd Hne%String.eqb_neq. unfold Summary.issueType. split_and!.
  - rewrite JsStringFacts.split_colon_piece, JsStringFacts.split_colon_whole by done.
    by rewrite Hne.
  - rewrite !JsStringFacts.split_colon_piece by done.
    by rewrite Hne.
  - by rewrite JsStringFacts.split_colon_whole.
  - rewrite <-(JsStringFacts.append_nil_r (groupName +:+ ": ")) at 1.
    assert ((groupName +:+ ": ") +:+ "" = groupName +:+ ": " +:+ "") as ->.
    { clear. induction groupName as [|c g IH]; [done |].
      by rewrite !JsStringFacts.append_cons, IH. }
    by rewrite JsStringFacts.split_colon_piece.
Qed.

(** A category as the phases name them. *)
Lemma issue_type_shown_witness :
  Summary.issueType "metadata: missing title" = "missing title"
  ∧ Summary.issueType "metadata: missing title: /about" = "missing title".
Proof.
  assert (Hg : JsString.no_char ":" "metadata") by (repeat split; discriminate).
  assert (Hd : JsString.no_char ":" "missing title")
    by (repeat split; discriminate).
  assert (Hne : "missing title" ≠ "") by discriminate.
  destruct (issue_type_shown "metadata" "missing title" "/about" Hg Hd Hne)
    as (H1 & H2 & _).
  split; [exact H1 | exact H2].
Defined.

(** X6. The breakdown text is empty exactly when the Issue Registry has no
    category; as soon as it has one the heading is there, also when no
    category belongs to a group and no line follows. *)
Theorem breakdown_text_heading (seoIssuesMap : Registry.SeoIssues) :
  (Summary.categoriesByGroup seoIssuesMap = "" ↔ seoIssuesMap = [])
  ∧ (seoIssuesMap ≠ [] →
     Forall (λ x, Summary.groupOf x.1 = None) seoIssuesMap →
     Summary.categoriesByGroup seoIssuesMap
     = Summary.nl +:+ Summary.nl +:+ "  Issue breakdown:").
Proof.
  unfold Summary.categoriesByGroup.
  rewrite SummaryFacts.issueCategories_lines. split.
  - destruct seoIssuesMap as [|x reg]; [done |]. csimpl. split; done.
  - intros Hne Hall. destruct seoIssuesMap as [|x reg]; [done |]. csimpl.
    assert (Summary.breakdown (x :: reg) = []) as ->; [|done].
    rewrite SummaryFacts.breakdown_blockOf.
    assert (Hnone : ∀ g, Summary.blockOf (x :: reg) g = None).
    { intros g. apply SummaryFacts.blockOf_None.
      destruct (Summary.members (x :: reg) g) as [|e l] eqn:E; [done |].
      assert (He : e ∈ Summary.members (x :: reg) g) by (rewrite E; by left).
      apply SummaryFacts.elem_of_members in He as (y & Hy & Hgy & _).
      rewrite Forall_forall in Hall. rewrite (Hall y Hy) in Hgy. done. }
    generalize Summary.groupDisplayOrder as gs.
    induction gs as [|g gs IH]; [done |]. csimpl. by rewrite Hnone.
Qed.

(** A registry whose one category belongs to no group. *)
Lemma breakdown_text_heading_witness :
  Summary.categoriesByGroup [("ai: generated text", [("Looks generated", ["/c"])])]
  = Summary.nl +:+ Summary.nl +:+ "  Issue breakdown:".
Proof.
  apply (proj2 (breakdown_text_heading _)); [discriminate |].
  repeat constructor.
Defined.

(** X7. When [generateReport] throws, whether in the formatter, in
    [mkdirSync] or in [writeFileSync], every file keeps its content, at
    most directories have been added, and nothing was handed to the
    logger; when it is the formatter that throws, the file system was
    not touched at all. *)
Theorem failed_report_keeps_files
  (formatReport : Registry.BrokenLinks → Registry.SeoIssues
                  → Report.ReportOptions → string + string)
  (b : Registry.BrokenLinks) (i : Registry.SeoIssues)
  (options : Report.ReportOptions) (w w' : World.t) (e : World.Error) :
  Report.generateReport formatReport b i options w = (w', inl e) →
  (∀ q node, Fs.lookup (World.fs w) q = Some node →
             Fs.lookup (World.fs w') q = Some node)
  ∧ (∀ q, Fs.lookup (World.fs w') q = Fs.lookup (World.fs w) q
          ∨ Fs.lookup (World.fs w') q = Some Fs.Dir)
  ∧ (∀ reason, e = World.FormatFailed reason →
       World.fs w' = World.fs w
       ∧ World.events w' = World.events w ++ [World.EvFormat b i])
  ∧ ∃ evs, World.events w' = World.events w ++ evs
           ∧ Forall (λ ev, ∀ entry, ev ≠ World.EvLog entry) evs.
Proof.
  intros Hrun.
  destruct (ReportFacts.generateReport_failed_world _ _ _ _ _ _ _ Hrun)
    as ([Hfs|Hmk] & Hfmt & Hev).
  - split_and!; [by rewrite Hfs | by left; rewrite Hfs | exact Hfmt | exact Hev].
  - apply FsFacts.mkdir_walk_keeps in Hmk as (_ & Hkeep & Hnew).
    split_and!; [exact Hkeep | exact Hnew | exact Hfmt | exact Hev].
Qed.

(** The report path is taken by a directory, so the write fails after
    the formatter has run: the page on disk is still there. *)
Lemma failed_report_keeps_files_witness :
  let formatReport := λ _ _ _, inr "# SEO report" in
  let options := Report.mkReportOptions "/site/dist/reports" None 0 in
  let w := World.mk
             (Fs.of_list [(["site"], Fs.Dir); (["site"; "dist"], Fs.Dir);
                          (["site"; "dist"; "reports"], Fs.Dir);
                          (["site"; "dist"; "index.html"], Fs.File "<html>")])
             (λ n, 1000 * Z.of_nat n)%Z 1 [] in
  ∃ w', Report.generateReport formatReport [] [] options w
        = (w', inl (World.WriteFailed "/site/dist/reports" Fs.EISDIR))
        ∧ Fs.lookup (World.fs w') ["site"; "dist"; "index.html"]
          = Some (Fs.File "<html>").
Proof.
  intros formatReport options w.
  destruct (Report.generateReport formatReport [] [] options w)
    as [w' [e|[]]] eqn:Hrun; [|vm_compute in Hrun; discriminate Hrun].
  assert (He : e = World.WriteFailed "/site/dist/reports" Fs.EISDIR).
  { vm_compute in Hrun. by injection Hrun as _ <-. }
  subst e. exists w'. split; [reflexivity |].
  destruct (failed_report_keeps_files _ _ _ _ _ _ _ Hrun) as (Hkeep & _).
  apply Hkeep. reflexivity.
Defined.

(** X8. When the hook comes to [await Promise.all] it has logged the
    start message and has read every document once, in the order of
    [htmlFiles], at [join(distPath, htmlFile)], without changing a file.
    The task of the [i]-th document is rejected with the error of its
    read, or it runs [runPhases] on the text read, the base URL that
    [normalizeHtmlFilePath] gives for the absolute path, the absolute
    path and [distPath]; no page counts as processed yet. *)
Theorem documents_read_in_order
  (runPhases : string → string → string → string → Hook.Analysis)
  (normalizeHtmlFilePath : string → string → string)
  (integration : Hook.Integration) (distPath : string)
  (htmlFiles : list string) (w : World.t) :
  let s0 :=
    (Hook.start runPhases normalizeHtmlFilePath integration distPath
       htmlFiles w).1 in
  World.events (Hook.world s0)
  = World.events w
    ++ World.EvLog
         (World.LogStart (length htmlFiles)
            (Phases.enabledPhases (Hook.phases integration))
            (JsString.join ", "
               (Phases.enabledPhaseNames (Hook.phases integration))))
    :: ((λ f, World.EvRead (Path.join distPath f)) <$> htmlFiles)
  ∧ World.fs (Hook.world s0) = World.fs w
  ∧ Hook.pagesProcessed s0 = 0
  ∧ ∀ i htmlFile,
      htmlFiles !! i = Some htmlFile →
      Hook.tasks s0 !! i =
        Some (match Fs.readFileSync (World.fs w)
                      (Path.join distPath htmlFile) with
              | inl errno =>
                  Hook.Rejected
                    (World.ReadFailed (Path.join distPath htmlFile) errno)
              | inr htmlContent =>
                  Hook.Running
                    (runPhases htmlContent
                       (normalizeHtmlFilePath
                          (Path.join distPath htmlFile) distPath)
                       (Path.join distPath htmlFile) distPath)
              end).
Proof. apply HookFacts.start_world. Qed.

(** X9. Of its own, the hook calls into the file system for the report
    only: in every run the calls after the start message and the reads of
    the documents are calls of the logger and of the formatter, and
    [existsSync] and [mkdirSync] on the directory of the report path and
    [writeFileSync] on the report path [join(distPath, reportFilePath)];
    no document is read a second time. *)
Theorem hook_calls_for_report_only
  (runPhases : string → string → string → string → Hook.Analysis)
  (normalizeHtmlFilePath : string → string → string)
  (formatReport : Registry.BrokenLinks → Registry.SeoIssues
                  → Report.ReportOptions → string + string)
  (integration : Hook.Integration) (distPath : string)
  (htmlFiles : list string) (w : World.t)
  (ls : list Hook.Label) (s : Hook.State) :
  Hook.runs runPhases normalizeHtmlFilePath formatReport
    integration distPath htmlFiles w ls s →
  ∃ evs,
    World.events (Hook.world s)
    = World.events w
      ++ World.EvLog
           (World.LogStart (length htmlFiles)
              (Phases.enabledPhases (Hook.phases integration))
              (JsString.join ", "
                 (Phases.enabledPhaseNames (Hook.phases integration))))
      :: ((λ f, World.EvRead (Path.join distPath f)) <$> htmlFiles)
      ++ evs
    ∧ Forall
        (Hook.reportOnly
           (Path.join distPath (Hook.reportFilePath integration)))
        evs.
Proof.
  intros Hrun. unfold Hook.runs in Hrun.
  destruct (HookFacts.start_world runPhases normalizeHtmlFilePath
              integration distPath htmlFiles w) as (Hev0 & _).
  destruct (HookFacts.start_spec runPhases normalizeHtmlFilePath
              integration distPath htmlFiles w) as (_ & _ & Hpath & _).
  apply HookFacts.steps_calls in Hrun as (evs & Hev & Hall & _).
  exists evs. rewrite Hev, Hev0, Hpath in *.
  split; [by rewrite <-app_assoc | exact Hall].
Qed.

(** A run on a one-page site: after the read of the page the hook calls
    the formatter, looks for the output directory, writes the report and
    logs the summary. *)
Lemma hook_calls_for_report_only_witness :
  let runPhases := λ _ _ _ _, Hook.Resolved in
  let normalizeHtmlFilePath := λ path _, path in
  let formatReport := λ _ _ _, inr "# SEO report" in
  let integration :=
    Hook.astroBrokenLinksChecker Phases.documented
      (Checker.mkOptions None None None None) in
  let w := World.mk
             (Fs.of_list [(["site"], Fs.Dir); (["site"; "dist"], Fs.Dir);
                          (["site"; "dist"; "index.html"], Fs.File "<html>")])
             (λ n, 1000 * Z.of_nat n)%Z 0 [] in
  ∃ s evs,
    Hook.runs runPhases normalizeHtmlFilePath formatReport integration
      "/site/dist/" ["index.html"] w [Hook.LResolved 0; Hook.LReport] s
    ∧ drop 2 (World.events (Hook.world s)) = evs
    ∧ Forall (Hook.reportOnly "/site/dist/site-report.log") evs
    ∧ World.EvWrite "/site/dist/site-report.log" "# SEO report" ∈ evs.
Proof.
  intros runPhases normalizeHtmlFilePath formatReport integration w.
  assert (Hrun : ∃ s,
    Hook.runs runPhases normalizeHtmlFilePath formatReport integration
      "/site/dist/" ["index.html"] w [Hook.LResolved 0; Hook.LReport] s
    ∧ World.EvWrite "/site/dist/site-report.log" "# SEO report"
      ∈ drop 2 (World.events (Hook.world s))).
  { eexists. split.
    - unfold Hook.runs.
      eapply (Hook.steps_snoc _ _ _ _ [_]).
      + eapply (Hook.steps_snoc _ _ _ _ []); [apply Hook.steps_nil |].
        eapply Hook.step_resolved. reflexivity.
      + eapply Hook.step_report; [reflexivity | by repeat constructor |].
        vm_compute. reflexivity.
    - simpl. do 2 right. left. }
  destruct Hrun as (s & Hrun & Hin).
  destruct (hook_calls_for_report_only _ _ _ _ _ _ _ _ _ Hrun)
    as (evs & Hev & Hall).
  exists s, evs. split_and!; [exact Hrun | | exact Hall |].
  - by rewrite Hev.
  - rewrite Hev in Hin. exact Hin.
Defined.

(** X10. [pagesProcessed] is the number of analyses that have resolved:
    in every state of every run it is the number of fulfilled tasks, so
    it never exceeds the number of documents, and when the hook has
    completed it is that number. *)
Theorem pages_processed_counts_resolved
  (runPhases : string → string → string → string → Hook.Analysis)
  (normalizeHtmlFilePath : string → string → string)
  (formatReport : Registry.BrokenLinks → Registry.SeoIssues
                  → Report.ReportOptions → string + string)
  (integration : Hook.Integration) (distPath : string)
  (htmlFiles : list string) (w : World.t)
  (ls : list Hook.Label) (s : Hook.State) :
  Hook.runs runPhases normalizeHtmlFilePath formatReport
    integration distPath htmlFiles w ls s →
  Hook.pagesProcessed s = Hook.fulfilledCount (Hook.tasks s)
  ∧ Hook.pagesProcessed s ≤ length htmlFiles
  ∧ (Hook.status s = Hook.Completed →
     Hook.pagesProcessed s = length htmlFiles).
Proof.
  intros Hrun. unfold Hook.runs in Hrun.
  destruct (HookFacts.start_spec runPhases normalizeHtmlFilePath
              integration distPath htmlFiles w) as (Hst0 & _ & Hpath & Hlen & _).
  destruct (HookFacts.start_world runPhases normalizeHtmlFilePath
              integration distPath htmlFiles w) as (_ & _ & Hp0 & _).
  pose proof (HookFacts.steps_length _ _ _ _ _ _ Hrun) as Hlen'.
  assert (Hp : Hook.pagesProcessed s = Hook.fulfilledCount (Hook.tasks s)).
  { eapply HookFacts.steps_pagesProcessed; [exact Hrun |].
    by rewrite Hp0, HookFacts.start_fulfilledCount. }
  split_and!; [exact Hp | |].
  - rewrite Hp, <-Hlen, <-Hlen'. apply HookFacts.fulfilledCount_le.
  - intros Hst.
    assert (Hne : Report.filePath
                    (Hook.start runPhases normalizeHtmlFilePath integration
                       distPath htmlFiles w).2 ≠ "")
      by (rewrite Hpath; apply HookFacts.join_nonempty).
    destruct (HookFacts.steps_completed _ _ _ _ _ _ Hne Hrun Hst)
      as [H0|[[Hall _] _]]; [congruence |].
    by rewrite Hp, (HookFacts.fulfilledCount_all _ Hall), Hlen', Hlen.
Qed.

(** Two pages, of which one has resolved. *)
Lemma pages_processed_counts_resolved_witness :
  let runPhases := λ _ _ _ _, Hook.Resolved in
  let normalizeHtmlFilePath := λ path _, path in
  let formatReport := λ _ _ _, inr "# SEO report" in
  let integration :=
    Hook.astroBrokenLinksChecker Phases.documented
      (Checker.mkOptions None None None None) in
  let w := World.mk
             (Fs.of_list [(["site"], Fs.Dir); (["site"; "dist"], Fs.Dir);
                          (["site"; "dist"; "a.html"], Fs.File "<html>");
                          (["site"; "dist"; "b.html"], Fs.File "<html>")])
             (λ n, 1000 * Z.of_nat n)%Z 0 [] in
  ∃ s,
    Hook.runs runPhases normalizeHtmlFilePath formatReport integration
      "/site/dist/" ["a.html"; "b.html"] w [Hook.LResolved 1] s
    ∧ Hook.tasks s = [Hook.Running Hook.Resolved; Hook.Fulfilled]
    ∧ Hook.pagesProcessed s = Hook.fulfilledCount (Hook.tasks s)
    ∧ Hook.pagesProcessed s ≤ 2.
Proof.
  intros runPhases normalizeHtmlFilePath formatReport integration w.
  assert (Hrun : ∃ s,
    Hook.runs runPhases normalizeHtmlFilePath formatReport integration
      "/site/dist/" ["a.html"; "b.html"] w [Hook.LResolved 1] s
    ∧ Hook.tasks s = [Hook.Running Hook.Resolved; Hook.Fulfilled]).
  { eexists. split.
    - unfold Hook.runs.
      eapply (Hook.steps_snoc _ _ _ _ []); [apply Hook.steps_nil |].
      eapply Hook.step_resolved. reflexivity.
    - reflexivity. }
  destruct Hrun as (s & Hrun & Htasks).
  destruct (pages_processed_counts_resolved _ _ _ _ _ _ _ _ _ Hrun)
    as (Hp & Hle & _).
  exists s. split_and!; [exact Hrun | exact Htasks | exact Hp | exact Hle].
Defined.

(** X11. The progress lines of a run: on a site of more than fifty
    documents the hook logs one line at every tenth resolved analysis,
    with the count of pages scanned so far and the number of documents,
    and no other; on a site of fifty documents or fewer it logs none. *)
Theorem progress_every_tenth_page
  (runPhases : string → string → string → string → Hook.Analysis)
  (normalizeHtmlFilePath : string → string → string)
  (formatReport : Registry.BrokenLinks → Registry.SeoIssues
                  → Report.ReportOptions → string + string)
  (integration : Hook.Integration) (distPath : string)
  (htmlFiles : list string) (w : World.t)
  (ls : list Hook.Label) (s : Hook.State) :
  Hook.runs runPhases normalizeHtmlFilePath formatReport
    integration distPath htmlFiles w ls s →
  Hook.progressLines (World.events (Hook.world s))
  = Hook.progressLines (World.events w)
    ++ Hook.progressDue (length htmlFiles) (Hook.pagesProcessed s)
  ∧ (length htmlFiles ≤ 50 →
     Hook.progressLines (World.events (Hook.world s))
     = Hook.progressLines (World.events w)).
Proof.
  intros Hrun. unfold Hook.runs in Hrun.
  destruct (HookFacts.start_world runPhases normalizeHtmlFilePath
              integration distPath htmlFiles w) as (Hev0 & _ & Hp0 & _).
  apply HookFacts.steps_progress in Hrun as (lines & Hev & Hdue).
  rewrite Hp0 in Hdue.
  assert (Hnone : Hook.progressDue (length htmlFiles) 0 = [])
    by (unfold Hook.progressDue; by destruct (50 <? length htmlFiles)%nat).
  rewrite Hnone in Hdue. simpl in Hdue. subst lines.
  assert (Hstart :
    Hook.progressLines
      (World.events
         (Hook.world
            (Hook.start runPhases normalizeHtmlFilePath integration
               distPath htmlFiles w).1))
    = Hook.progressLines (World.events w)).
  { rewrite Hev0. unfold Hook.progressLines. rewrite omap_app. simpl.
    fold (Hook.progressLines
            ((λ f, World.EvRead (Path.join distPath f)) <$> htmlFiles)).
    by rewrite HookFacts.progressLines_reads, app_nil_r. }
  rewrite Hev, Hstart. split; [done |].
  intros Hle. unfold Hook.progressDue.
  destruct (50 <? length htmlFiles)%nat eqn:Hlt.
  - apply Nat.ltb_lt in Hlt. lia.
  - by rewrite app_nil_r.
Qed.

(** Sixty pages of which ten have resolved: one progress line. *)
Lemma progress_every_tenth_page_witness :
  let runPhases := λ _ _ _ _, Hook.Resolved in
  let normalizeHtmlFilePath := λ path _, path in
  let formatReport := λ _ _ _, inr "" in
  let integration :=
    Hook.astroBrokenLinksChecker [] (Checker.mkOptions None None None None) in
  let w := World.mk (Fs.of_list [(["p"], Fs.File "")]) (λ n, 0%Z) 0 [] in
  ∃ s,
    Hook.runs runPhases normalizeHtmlFilePath formatReport integration
      "/" (replicate 60 "p") w
      (Hook.LResolved <$> seq 0 10) s
    ∧ Hook.pagesProcessed s = 10
    ∧ Hook.progressLines (World.events (Hook.world s)) = [(10, 60)].
Proof.
  intros runPhases normalizeHtmlFilePath formatReport integration w.
  assert (Hrun : ∃ s,
    Hook.runs runPhases normalizeHtmlFilePath formatReport integration
      "/" (replicate 60 "p") w
      (Hook.LResolved <$> seq 0 10) s
    ∧ Hook.pagesProcessed s = 10).
  { eexists. split.
    - unfold Hook.runs.
      eapply HookFacts.steps_from; [vm_compute; reflexivity |].
      change (Hook.LResolved <$> seq 0 10)
        with (Hook.LResolved <$> [0; 1; 2; 3; 4; 5; 6; 7; 8; 9]).
      unfold fmap, list_fmap.
      do 10 (eapply HookFacts.steps_cons_eq;
             [eapply Hook.step_resolved; vm_compute; reflexivity
             |vm_compute; reflexivity |]).
      apply Hook.steps_nil.
    - reflexivity. }
  destruct Hrun as (s & Hrun & Hp).
  destruct (progress_every_tenth_page _ _ _ _ _ _ _ _ _ Hrun) as (Hlines & _).
  exists s. split_and!; [exact Hrun | exact Hp |].
  rewrite Hlines, Hp. reflexivity.
Defined.

(** X12. A document that cannot be read stops the report: in no run of
    the hook is the report generated, the hook never completes, and after
    the reads of the documents it calls nothing but the logger for its
    progress lines, so the formatter is not called and no file is
    written. The first document of the list that cannot be read decides
    how the hook fails: if it fails, then with the error of that read,
    and as long as the hook awaits, [Promise.all] can reject with it. *)
Theorem unreadable_document_stops_report
  (runPhases : string → string → string → string → Hook.Analysis)
  (normalizeHtmlFilePath : string → string → string)
  (formatReport : Registry.BrokenLinks → Registry.SeoIssues
                  → Report.ReportOptions → string + string)
  (integration : Hook.Integration) (distPath : string)
  (htmlFiles : list string) (w : World.t)
  (i : nat) (htmlFile : string) (errno : Fs.Errno)
  (ls : list Hook.Label) (s : Hook.State) :
  htmlFiles !! i = Some htmlFile →
  Fs.readFileSync (World.fs w) (Path.join distPath htmlFile) = inl errno →
  Hook.runs runPhases normalizeHtmlFilePath formatReport
    integration distPath htmlFiles w ls s →
  (Hook.LReport ∉ ls)
  ∧ Hook.status s ≠ Hook.Completed
  ∧ (∃ evs,
       World.events (Hook.world s)
       = World.events w
         ++ World.EvLog
              (World.LogStart (length htmlFiles)
                 (Phases.enabledPhases (Hook.phases integration))
                 (JsString.join ", "
                    (Phases.enabledPhaseNames (Hook.phases integration))))
         :: ((λ f, World.EvRead (Path.join distPath f)) <$> htmlFiles)
         ++ evs
       ∧ Forall (λ ev, ∃ processed total,
                   ev = World.EvLog (World.LogProgress processed total)) evs)
  ∧ ((∀ j f, j < i → htmlFiles !! j = Some f →
        ∃ htmlContent,
          Fs.readFileSync (World.fs w) (Path.join distPath f)
          = inr htmlContent) →
     (∀ e, Hook.status s = Hook.Failed e →
           e = World.ReadFailed (Path.join distPath htmlFile) errno)
     ∧ (Hook.status s = Hook.Awaiting →
        ∃ s',
          Hook.runs runPhases normalizeHtmlFilePath formatReport
            integration distPath htmlFiles w
            (ls ++ [Hook.LPromiseAllRejected i]) s'
          ∧ Hook.status s'
            = Hook.Failed
                (World.ReadFailed (Path.join distPath htmlFile) errno))).
Proof.
  intros Hi Hread Hrun. unfold Hook.runs in *.
  destruct (HookFacts.start_world runPhases normalizeHtmlFilePath
              integration distPath htmlFiles w) as (Hev0 & _ & _ & Htasks).
  destruct (HookFacts.start_spec runPhases normalizeHtmlFilePath
              integration distPath htmlFiles w) as (Hst0 & _).
  specialize (Htasks i htmlFile Hi). rewrite Hread in Htasks.
  pose proof (HookFacts.steps_rejected_no_report _ _ _ _ _ _ _ _ Hrun Htasks)
    as Hno.
  pose proof (HookFacts.steps_keep_rejected _ _ _ _ _ _ _ _ Hrun Htasks)
    as Hrej.
  destruct (HookFacts.steps_before_report _ _ _ _ _ _ Hrun Hno Hst0)
    as (Hst & evs & Hev & Hall).
  split_and!; [exact Hno | exact Hst | |].
  - exists evs. rewrite Hev, Hev0. split; [by rewrite <-app_assoc | exact Hall].
  - intros Hfirst.
    pose proof (HookFacts.start_firstRejected runPhases normalizeHtmlFilePath
                  integration distPath htmlFiles w i htmlFile errno
                  Hi Hread Hfirst) as Hfirst0.
    pose proof (HookFacts.steps_firstRejected formatReport _ _ _ _ _ _
                  Hrun Hfirst0) as Hfirst1.
    split.
    + intros e Hfailed.
      destruct (HookFacts.steps_failed_why formatReport _ _ _ _ _ _
                  Hrun Hst0 Hfailed)
        as [(j & Hj & Hfj & _)|(Hin & _)]; [|done].
      assert (j = i) as -> by congruence. congruence.
    + intros Hawait. eexists. split.
      * eapply Hook.steps_snoc; [exact Hrun |].
        eapply Hook.step_all_rejected;
          [exact Hawait | exact Hfirst1 | exact Hrej].
      * reflexivity.
Qed.

(** A site of three pages, the last two of which may not be read: the
    analysis of the first resolves, the report is not generated, and the
    hook rejects with the read of the second page. *)
Lemma unreadable_document_stops_report_witness :
  let runPhases := λ _ _ _ _, Hook.Resolved in
  let normalizeHtmlFilePath := λ path _, path in
  let formatReport := λ _ _ _, inr "# SEO report" in
  let integration :=
    Hook.astroBrokenLinksChecker Phases.documented
      (Checker.mkOptions None None None None) in
  let w := World.mk
             (Fs.mk (list_to_map
                       [(["site"], Fs.Dir); (["site"; "dist"], Fs.Dir);
                        (["site"; "dist"; "a.html"], Fs.File "<html>");
                        (["site"; "dist"; "b.html"], Fs.File "<html>")])
                    {[ ["site"; "dist"; "b.html"] ]})
             (λ n, 1000 * Z.of_nat n)%Z 0 [] in
  ∃ s s',
    Hook.runs runPhases normalizeHtmlFilePath formatReport integration
      "/site/dist/" ["a.html"; "b.html"; "c.html"] w [Hook.LResolved 0] s
    ∧ Hook.status s ≠ Hook.Completed
    ∧ Hook.runs runPhases normalizeHtmlFilePath formatReport integration
        "/site/dist/" ["a.html"; "b.html"; "c.html"] w
        [Hook.LResolved 0; Hook.LPromiseAllRejected 1] s'
    ∧ Hook.status s'
      = Hook.Failed (World.ReadFailed "/site/dist/b.html" Fs.EACCES).
Proof.
  intros runPhases normalizeHtmlFilePath formatReport integration w.
  assert (Hrun : ∃ s,
    Hook.runs runPhases normalizeHtmlFilePath formatReport integration
      "/site/dist/" ["a.html"; "b.html"; "c.html"] w [Hook.LResolved 0] s
    ∧ Hook.status s = Hook.Awaiting).
  { eexists. split.
    - unfold Hook.runs.
      eapply (Hook.steps_snoc _ _ _ _ []); [apply Hook.steps_nil |].
      eapply Hook.step_resolved. reflexivity.
    - reflexivity. }
  destruct Hrun as (s & Hrun & Hawait).
  assert (Hi : ["a.html"; "b.html"; "c.html"] !! 1 = Some "b.html")
    by reflexivity.
  assert (Hread : Fs.readFileSync (World.fs w) (Path.join "/site/dist/" "b.html")
                  = inl Fs.EACCES) by (vm_compute; reflexivity).
  assert (Hfirst : ∀ j f, j < 1 →
            ["a.html"; "b.html"; "c.html"] !! j = Some f →
            ∃ htmlContent,
              Fs.readFileSync (World.fs w) (Path.join "/site/dist/" f)
              = inr htmlContent).
  { intros j f Hj Hf. assert (j = 0) as -> by lia.
    injection Hf as <-. by eexists. }
  destruct (unreadable_document_stops_report _ _ _ _ _ _ _ 1 "b.html"
              Fs.EACCES _ _ Hi Hread Hrun) as (_ & Hst & _ & Hfail).
  destruct (Hfail Hfirst) as (_ & Hcan).
  destruct (Hcan Hawait) as (s' & Hrun' & Hst').
  exists s, s'. split_and!; [exact Hrun | exact Hst | exact Hrun' | exact Hst'].
Defined.

(** X13. The console summary of a completed run is its last log line. It
    gives the time between the two readings of the clock, at the start of
    the hook and at the start of [generateReport], in seconds as
    [toFixed(2)] prints them; the number of broken links and of SEO
    issues and the breakdown of the registries as the analyses left
    them; the format in capitals; and the report path
    [join(distPath, reportFilePath)]. The clock readings are taken to be
    safe integers with a safe difference, and the format to consist of
    ASCII characters. *)
Theorem completed_run_summary
  (runPhases : string → string → string → string → Hook.Analysis)
  (normalizeHtmlFilePath : string → string → string)
  (formatReport : Registry.BrokenLinks → Registry.SeoIssues
                  → Report.ReportOptions → string + string)
  (integration : Hook.Integration) (distPath : string)
  (htmlFiles : list string) (w : World.t)
  (ls : list Hook.Label) (s : Hook.State) (formatName : string) :
  Hook.runs runPhases normalizeHtmlFilePath formatReport
    integration distPath htmlFiles w ls s →
  Hook.status s = Hook.Completed →
  JsNumber.safe (World.clock w (World.ticks w)) = true →
  JsNumber.safe (World.clock w (S (World.ticks w))) = true →
  JsNumber.safe
    (World.clock w (S (World.ticks w)) - World.clock w (World.ticks w))
  = true →
  JsString.toUpperCase
    (Report.formatOf
       (Report.mkReportOptions
          (Path.join distPath (Hook.reportFilePath integration))
          (Hook.reportFormat integration) (World.clock w (World.ticks w))))
  = Some formatName →
  last (World.events (Hook.world s))
  = Some (World.EvLog (World.LogSummary
      (World.mkSummary
         (Some (JsNumber.thousandth_toFixed2
                  (World.clock w (S (World.ticks w))
                   - World.clock w (World.ticks w))))
         (JsMap.size (Hook.brokenLinksMap (Hook.shared s)))
         (Summary.totalSeoIssues (Hook.seoIssuesMap (Hook.shared s)))
         (Summary.categoriesByGroup (Hook.seoIssuesMap (Hook.shared s)))
         (Some formatName)
         (Path.join distPath (Hook.reportFilePath integration))))).
Proof.
  intros Hrun Hst Hstart Hend Hdiff Hname. unfold Hook.runs in Hrun.
  destruct (HookFacts.start_spec runPhases normalizeHtmlFilePath
              integration distPath htmlFiles w) as (Hst0 & _).
  destruct (HookFacts.start_clock runPhases normalizeHtmlFilePath
              integration distPath htmlFiles w) as (Hclock & Hticks & Hopt).
  rewrite Hopt in Hrun.
  assert (Hne : Report.filePath
                  (Report.mkReportOptions
                     (Path.join distPath (Hook.reportFilePath integration))
                     (Hook.reportFormat integration)
                     (World.clock w (World.ticks w))) ≠ "")
    by apply HookFacts.join_nonempty.
  rewrite (HookFacts.steps_summary formatReport _ _ _ _ _ Hne Hrun Hst0 Hst).
  rewrite Hclock, Hticks. unfold Report.summaryForConsole.
  rewrite Hname. unfold Report.elapsedText. simpl.
  by rewrite Hstart, Hend, Hdiff.
Qed.

(** Two pages that link to the same missing page, on a clock that
    advances by a second at each reading. *)
Lemma completed_run_summary_witness :
  let runPhases := λ htmlContent baseUrl _ _,
    Hook.Await
      (λ sh, Hook.mkShared
               (Registry.addBrokenLink (Hook.brokenLinksMap sh) "/missing" baseUrl)
               (Hook.checkedLinks sh) (Hook.seoIssuesMap sh))
      (λ _, Hook.Resolved) in
  let normalizeHtmlFilePath := λ path _, path in
  let formatReport := λ _ _ _, inr "# SEO report" in
  let integration :=
    Hook.astroBrokenLinksChecker Phases.documented
      (Checker.mkOptions (Some "reports/seo.md") None None None) in
  let w := World.mk
             (Fs.of_list [(["site"], Fs.Dir); (["site"; "dist"], Fs.Dir);
                          (["site"; "dist"; "a.html"], Fs.File "<a href=/missing>");
                          (["site"; "dist"; "b.html"], Fs.File "<a href=/missing>")])
             (λ n, 1000 * Z.of_nat n)%Z 0 [] in
  ∃ s,
    Hook.runs runPhases normalizeHtmlFilePath formatReport integration
      "/site/dist/" ["a.html"; "b.html"] w
      [Hook.LSegment 1; Hook.LSegment 0; Hook.LResolved 0; Hook.LResolved 1;
       Hook.LReport] s
    ∧ last (World.events (Hook.world s))
      = Some (World.EvLog (World.LogSummary
          (World.mkSummary (Some "1.00") 1 0 "" (Some "MD")
             "/site/dist/reports/seo.md"))).
Proof.
  intros runPhases normalizeHtmlFilePath formatReport integration w.
  assert (Hrun : ∃ s,
    Hook.runs runPhases normalizeHtmlFilePath formatReport integration
      "/site/dist/" ["a.html"; "b.html"] w
      [Hook.LSegment 1; Hook.LSegment 0; Hook.LResolved 0; Hook.LResolved 1;
       Hook.LReport] s
    ∧ Hook.status s = Hook.Completed
    ∧ Hook.shared s
      = Hook.mkShared
          [("/missing", ["/site/dist/b.html"; "/site/dist/a.html"])] [] []).
  { eexists. split.
    - unfold Hook.runs.
      eapply (Hook.steps_snoc _ _ _ _ [_; _; _; _]).
      + eapply (Hook.steps_snoc _ _ _ _ [_; _; _]).
        * eapply (Hook.steps_snoc _ _ _ _ [_; _]).
          -- eapply (Hook.steps_snoc _ _ _ _ [_]).
             ++ eapply (Hook.steps_snoc _ _ _ _ []); [apply Hook.steps_nil |].
                eapply Hook.step_segment. reflexivity.
             ++ eapply Hook.step_segment. reflexivity.
          -- eapply Hook.step_resolved. reflexivity.
        * eapply Hook.step_resolved. reflexivity.
      + eapply Hook.step_report; [reflexivity | by repeat constructor |].
        vm_compute. reflexivity.
    - split; reflexivity. }
  destruct Hrun as (s & Hrun & Hst & Hshared).
  exists s. split; [exact Hrun |].
  rewrite (completed_run_summary _ _ _ _ _ _ _ _ _ "MD" Hrun Hst
             eq_refl eq_refl eq_refl eq_refl), Hshared.
  reflexivity.
Defined.

(** X14. The format that the console summary names: the [format] option
    when it is given and not empty; otherwise the extension of the report
    file, without its dot, when the file name has a stem and an extension;
    otherwise, for a report path without any dot, [log]. *)
Theorem report_format_name (options : Report.ReportOptions) :
  (∀ f, Report.format options = Some f → f ≠ "" →
        Report.formatOf options = f)
  ∧ (Checker.truthy (Report.format options) = false →
     ∀ dir stem ext,
       Report.filePath options = dir +:+ stem +:+ "." +:+ ext →
       stem ≠ "" → JsString.no_char "/" stem →
       ext ≠ "" → JsString.no_char "/" ext → JsString.no_char "." ext →
       Report.formatOf options = ext)
  ∧ (Checker.truthy (Report.format options) = false →
     JsString.no_char "." (Report.filePath options) →
     Report.formatOf options = "log").
Proof.
  unfold Report.formatOf, Checker.js_or. split_and!.
  - intros f -> Hf%String.eqb_neq. unfold Checker.truthy.
    rewrite Hf. simpl. by rewrite ?Hf.
  - intros -> dir stem ext -> Hstem Hs Hext He Hdot.
    rewrite PathFacts.extname_file by done.
    apply String.eqb_neq in Hext. unfold Checker.truthy.
    change (Report.substring1 ("." +:+ ext)) with ext.
    rewrite Hext. simpl. by rewrite ?Hext.
  - intros -> Hdot. by rewrite PathFacts.extname_no_dot.
Qed.

(** A report file with two dots in its name, without a format option and
    with one. *)
Lemma report_format_name_witness :
  Report.formatOf
    (Report.mkReportOptions "/site/dist/seo.report.json" None 0)
  = "json"
  ∧ Report.formatOf
      (Report.mkReportOptions "/site/dist/seo.report.json" (Some "markdown") 0)
    = "markdown".
Proof.
  split.
  - destruct (report_format_name
                (Report.mkReportOptions "/site/dist/seo.report.json" None 0))
      as (_ & Hext & _).
    apply (Hext eq_refl "/site/dist/" "seo.report" "json");
      [reflexivity | discriminate | | discriminate | |];
      repeat split; discriminate.
  - destruct (report_format_name
                (Report.mkReportOptions "/site/dist/seo.report.json"
                   (Some "markdown") 0))
      as (Hformat & _).
    apply Hformat; [reflexivity | discriminate].
Defined.

(** X15. [generateReport] succeeds on a free path: when the formatter
    returns the report text and the report path is an absolute path in
    normal form, with no file where a directory of the path has to be,
    no directory where the report file has to be, and no node of the path
    barred from writing, the call returns without a throw and leaves the
    report text at the report path. *)
Theorem report_written_on_free_path
  (formatReport : Registry.BrokenLinks → Registry.SeoIssues
                  → Report.ReportOptions → string + string)
  (b : Registry.BrokenLinks) (i : Registry.SeoIssues)
  (options : Report.ReportOptions) (w : World.t)
  (dirs : list string) (file reportData : string) :
  Report.filePath options = "/" +:+ JsString.join "/" (dirs ++ [file]) →
  Forall Path.proper dirs →
  Path.proper file →
  formatReport b i options = inr reportData →
  (∀ k data, k ≤ length dirs →
             Fs.lookup (World.fs w) (take k dirs) ≠ Some (Fs.File data)) →
  Fs.lookup (World.fs w) (dirs ++ [file]) ≠ Some Fs.Dir →
  (∀ k, take k (dirs ++ [file]) ∉ Fs.denied (World.fs w)) →
  ∃ w', Report.generateReport formatReport b i options w = (w', inr tt)
        ∧ Fs.lookup (World.fs w') (dirs ++ [file])
          = Some (Fs.File reportData).
Proof. apply ReportFacts.generateReport_free. Qed.

(** The report directory is missing and the output directory is there. *)
Lemma report_written_on_free_path_witness :
  let formatReport := λ _ _ _, inr "# SEO report" in
  let options := Report.mkReportOptions "/site/dist/reports/seo.md" None 0 in
  let w := World.mk
             (Fs.of_list [(["site"], Fs.Dir); (["site"; "dist"], Fs.Dir)])
             (λ n, 1000 * Z.of_nat n)%Z 0 [] in
  ∃ w', Report.generateReport formatReport [] [] options w = (w', inr tt)
        ∧ Fs.lookup (World.fs w') ["site"; "dist"; "reports"; "seo.md"]
          = Some (Fs.File "# SEO report").
Proof.
  intros formatReport options w.
  apply (report_written_on_free_path formatReport [] [] options w
           ["site"; "dist"; "reports"] "seo.md" "# SEO report").
  - reflexivity.
  - repeat constructor; discriminate.
  - repeat constructor; discriminate.
  - reflexivity.
  - intros k data Hk. simpl in Hk.
    destruct k as [|[|[|[|k]]]]; try lia; vm_compute; discriminate.
  - vm_compute. discriminate.
  - intros k. apply not_elem_of_empty.
Defined.

(** X16. When every document can be read, the formatter returns, and the
    report path is free when the hook starts (an absolute path in normal
    form, with no file where a directory of the path has to be, no
    directory where the report file has to be, nothing barred from
    writing), only an analysis can make the hook fail: the promise of the
    hook is rejected with nothing but the reason of a [runPhases] that
    has rejected. *)
Theorem only_an_analysis_fails_the_hook
  (runPhases : string → string → string → string → Hook.Analysis)
  (normalizeHtmlFilePath : string → string → string)
  (formatReport : Registry.BrokenLinks → Registry.SeoIssues
                  → Report.ReportOptions → string + string)
  (integration : Hook.Integration) (distPath : string)
  (htmlFiles : list string) (w : World.t)
  (dirs : list string) (file : string)
  (ls : list Hook.Label) (s : Hook.State) (e : World.Error) :
  (∀ htmlFile, htmlFile ∈ htmlFiles →
     ∃ htmlContent,
       Fs.readFileSync (World.fs w) (Path.join distPath htmlFile)
       = inr htmlContent) →
  (∀ b i options, ∃ reportData, formatReport b i options = inr reportData) →
  Path.join distPath (Hook.reportFilePath integration)
  = "/" +:+ JsString.join "/" (dirs ++ [file]) →
  Forall Path.proper dirs →
  Path.proper file →
  (∀ k data, k ≤ length dirs →
             Fs.lookup (World.fs w) (take k dirs) ≠ Some (Fs.File data)) →
  Fs.lookup (World.fs w) (dirs ++ [file]) ≠ Some Fs.Dir →
  (∀ k, take k (dirs ++ [file]) ∉ Fs.denied (World.fs w)) →
  Hook.runs runPhases normalizeHtmlFilePath formatReport
    integration distPath htmlFiles w ls s →
  Hook.status s = Hook.Failed e →
  ∃ reason i,
    e = World.PhaseFailed reason
    ∧ Hook.tasks s !! i = Some (Hook.Rejected (World.PhaseFailed reason)).
Proof.
  unfold Hook.runs. apply HookFacts.run_failed_by_analysis.
Qed.

(** The analysis of the one page of a site rejects. *)
Lemma only_an_analysis_fails_the_hook_witness :
  let runPhases := λ _ _ _ _, Hook.Rejects "fetch failed" in
  let normalizeHtmlFilePath := λ path _, path in
  let formatReport := λ _ _ _, inr "# SEO report" in
  let integration :=
    Hook.astroBrokenLinksChecker Phases.documented
      (Checker.mkOptions None None None None) in
  let w := World.mk
             (Fs.of_list [(["site"], Fs.Dir); (["site"; "dist"], Fs.Dir);
                          (["site"; "dist"; "index.html"], Fs.File "<html>")])
             (λ n, 1000 * Z.of_nat n)%Z 0 [] in
  ∃ s e reason,
    Hook.runs runPhases normalizeHtmlFilePath formatReport integration
      "/site/dist/" ["index.html"] w
      [Hook.LRejected 0; Hook.LPromiseAllRejected 0] s
    ∧ Hook.status s = Hook.Failed e
    ∧ e = World.PhaseFailed reason.
Proof.
  intros runPhases normalizeHtmlFilePath formatReport integration w.
  assert (Hrun : ∃ s e,
    Hook.runs runPhases normalizeHtmlFilePath formatReport integration
      "/site/dist/" ["index.html"] w
      [Hook.LRejected 0; Hook.LPromiseAllRejected 0] s
    ∧ Hook.status s = Hook.Failed e).
  { eexists _, _. split.
    - unfold Hook.runs.
      eapply (Hook.steps_snoc _ _ _ _ [_]).
      + eapply (Hook.steps_snoc _ _ _ _ []); [apply Hook.steps_nil |].
        eapply Hook.step_rejected. reflexivity.
      + eapply Hook.step_all_rejected; reflexivity.
    - reflexivity. }
  destruct Hrun as (s & e & Hrun & Hst).
  assert (Hreason : ∃ reason i,
            e = World.PhaseFailed reason
            ∧ Hook.tasks s !! i
              = Some (Hook.Rejected (World.PhaseFailed reason))).
  { apply (only_an_analysis_fails_the_hook runPhases normalizeHtmlFilePath
             formatReport integration "/site/dist/" ["index.html"] w
             ["site"; "dist"] "site-report.log"
             [Hook.LRejected 0; Hook.LPromiseAllRejected 0] s e).
    - intros htmlFile ->%list_elem_of_singleton. by eexists.
    - intros b i options. by eexists.
    - reflexivity.
    - repeat constructor; discriminate.
    - repeat constructor; discriminate.
    - intros k data Hk. simpl in Hk.
      destruct k as [|[|[|k]]]; try lia; vm_compute; discriminate.
    - vm_compute. discriminate.
    - intros k. apply not_elem_of_empty.
    - exact Hrun.
    - exact Hst. }
  destruct Hreason as (reason & _ & Hreason & _).
  exists s, e, reason. split_and!; [exact Hrun | exact Hst | exact Hreason].
Defined.

(** X17. The hook completes: when every document can be read, every
    analysis resolves, the formatter returns and the report path is free
    when the hook starts, no run of the hook fails, and whatever the
    schedule did so far the run can go on until the hook has completed. *)
Theorem hook_completes
  (runPhases : string → string → string → string → Hook.Analysis)
  (normalizeHtmlFilePath : string → string → string)
  (formatReport : Registry.BrokenLinks → Registry.SeoIssues
                  → Report.ReportOptions → string + string)
  (integration : Hook.Integration) (distPath : string)
  (htmlFiles : list string) (w : World.t)
  (dirs : list string) (file : string)
  (ls : list Hook.Label) (s : Hook.State) :
  (∀ htmlFile, htmlFile ∈ htmlFiles →
     ∃ htmlContent,
       Fs.readFileSync (World.fs w) (Path.join distPath htmlFile)
       = inr htmlContent) →
  (∀ htmlContent baseUrl path dist,
     Hook.resolves (runPhases htmlContent baseUrl path dist)) →
  (∀ b i options, ∃ reportData, formatReport b i options = inr reportData) →
  Path.join distPath (Hook.reportFilePath integration)
  = "/" +:+ JsString.join "/" (dirs ++ [file]) →
  Forall Path.proper dirs →
  Path.proper file →
  (∀ k data, k ≤ length dirs →
             Fs.lookup (World.fs w) (take k dirs) ≠ Some (Fs.File data)) →
  Fs.lookup (World.fs w) (dirs ++ [file]) ≠ Some Fs.Dir →
  (∀ k, take k (dirs ++ [file]) ∉ Fs.denied (World.fs w)) →
  Hook.runs runPhases normalizeHtmlFilePath formatReport
    integration distPath htmlFiles w ls s →
  (∀ e, Hook.status s ≠ Hook.Failed e)
  ∧ ∃ ls' s',
      Hook.runs runPhases normalizeHtmlFilePath formatReport
        integration distPath htmlFiles w (ls ++ ls') s'
      ∧ Hook.status s' = Hook.Completed.
Proof.
  intros Hreadable Hresolves Hformat Hpath Hdirs Hfile Hway Hnodir Hden Hrun.
  unfold Hook.runs in *.
  assert (Hnofail : ∀ ls1 s1,
    Hook.steps formatReport
      (Hook.start runPhases normalizeHtmlFilePath integration distPath
         htmlFiles w).2 (length htmlFiles)
      (Hook.start runPhases normalizeHtmlFilePath integration distPath
         htmlFiles w).1 ls1 s1 →
    ∀ e, Hook.status s1 ≠ Hook.Failed e).
  { intros ls1 s1 Hrun1 e Hst.
    destruct (HookFacts.run_failed_by_analysis runPhases
                normalizeHtmlFilePath formatReport _ _ _ _ _ _ _ _ _
                Hreadable Hformat Hpath Hdirs Hfile Hway Hnodir Hden Hrun1 Hst)
      as (reason & i & _ & Hi).
    pose proof (HookFacts.start_promising runPhases normalizeHtmlFilePath
                  integration distPath htmlFiles w Hreadable Hresolves)
      as Hstart.
    pose proof (HookFacts.steps_promising formatReport _ _ _ _ _
                  Hrun1 Hstart) as Hall.
    rewrite Forall_lookup in Hall.
    destruct (Hall i _ Hi) as [?|(rest & ? & _)]; discriminate. }
  split; [by apply (Hnofail ls s) |].
  pose proof (HookFacts.start_rejectionKept runPhases normalizeHtmlFilePath
                integration distPath htmlFiles w) as Hkept0.
  pose proof (HookFacts.steps_rejectionKept formatReport _ _ _ _ _
                Hrun Hkept0) as Hkept.
  destruct (HookFacts.steps_settle formatReport
              (Hook.start runPhases normalizeHtmlFilePath integration distPath
                 htmlFiles w).2 (length htmlFiles) s Hkept)
    as (ls' & s' & Hsteps & Hst).
  exists ls', s'.
  assert (Hrun' := HookFacts.steps_app formatReport _ _ _ _ _ _ _ Hrun Hsteps).
  split; [exact Hrun' |].
  destruct (Hook.status s') as [| |e] eqn:Hst'; [done | done |].
  by destruct (Hnofail _ _ Hrun' e).
Qed.

(** A readable one-page site, at the start of the hook. *)
Lemma hook_completes_witness :
  let runPhases := λ _ _ _ _, Hook.Await (λ sh, sh) (λ _, Hook.Resolved) in
  let normalizeHtmlFilePath := λ path _, path in
  let formatReport := λ _ _ _, inr "# SEO report" in
  let integration :=
    Hook.astroBrokenLinksChecker Phases.documented
      (Checker.mkOptions None None None None) in
  let w := World.mk
             (Fs.of_list [(["site"], Fs.Dir); (["site"; "dist"], Fs.Dir);
                          (["site"; "dist"; "index.html"], Fs.File "<html>")])
             (λ n, 1000 * Z.of_nat n)%Z 0 [] in
  ∃ ls' s',
    Hook.runs runPhases normalizeHtmlFilePath formatReport integration
      "/site/dist/" ["index.html"] w ls' s'
    ∧ Hook.status s' = Hook.Completed.
Proof.
  intros runPhases normalizeHtmlFilePath formatReport integration w.
  assert (Hdone :
    (∀ e, Hook.status
            (Hook.start runPhases normalizeHtmlFilePath integration
               "/site/dist/" ["index.html"] w).1 ≠ Hook.Failed e)
    ∧ ∃ ls' s',
        Hook.runs runPhases normalizeHtmlFilePath formatReport integration
          "/site/dist/" ["index.html"] w ([] ++ ls') s'
        ∧ Hook.status s' = Hook.Completed).
  { apply (hook_completes runPhases normalizeHtmlFilePath formatReport
             integration "/site/dist/" ["index.html"] w
             ["site"; "dist"] "site-report.log" []).
    - intros htmlFile ->%list_elem_of_singleton. by eexists.
    - intros htmlContent baseUrl path dist.
      apply Hook.resolves_later. intros sh. apply Hook.resolves_now.
    - intros b i options. by eexists.
    - reflexivity.
    - repeat constructor; discriminate.
    - repeat constructor; discriminate.
    - intros k data Hk. simpl in Hk.
      destruct k as [|[|[|k]]]; try lia; vm_compute; discriminate.
    - vm_compute. discriminate.
    - intros k. apply not_elem_of_empty.
    - apply Hook.steps_nil. }
  destruct Hdone as (_ & ls' & s' & Hrun & Hst).
  exists ls', s'. split; [exact Hrun | exact Hst].
Defined.
